(** * dedup_json.py: normalisation, flattening, difference metric and the
      chained de-duplication loop, as a shallow embedding.

    The Python values produced by [json.load] are modelled by [json]; Python
    [int] is [Z], Python [float] is an IEEE value ([spec_float]), [str] is a
    [string] of bytes, a [dict] is an association list in insertion order
    (Python dictionaries have unique keys; the operations below act on the
    first binding of a key, which is the only one in a Python dict), a
    [list] is a [list].  The float returned by
    [calculate_json_difference_percentage] is modelled twice: by the exact
    rational it rounds (type [Q], compared with [==]), where the rounding
    cannot change what is stated, and by the double itself
    ([calculate_json_difference_percentage_float], [step_float]), where the
    comparison with the threshold depends on it.

    The recursive functions carry a bound ([fuel]) on the depth of their
    calls and are run with one more than the height of the tree; any bound
    from the height on gives the same result ([norm_fuel_enough],
    [flatten_fuel_enough]).  The directory listing, the reading of the files
    and [os.remove] are inputs of the loop ([file_entry]).

    [Module Convert] holds the part of convert_png_jpg_json.py that decides
    whether the workflow of a picture is written: the normalisation of that
    file, the comparison with [==] and the choice of the file to compare
    with. *)

From Stdlib Require Import ZArith QArith String Ascii List Lia Bool.
From Stdlib Require Import Floats.SpecFloat DecimalString DecimalNat.
From Stdlib Require Import Sorted.
From stdpp Require Import base list strings.

Local Open Scope Z_scope.
Local Open Scope nat_scope.

(** ** Data model *)

Inductive scalar : Type :=
| SNone
| SBool (b : bool)
| SInt (z : Z)
| SFloat (f : spec_float)
| SStr (s : string).

Unset Elimination Schemes.
Inductive json : Type :=
| JScalar (s : scalar)
| JList (l : list json)
| JDict (d : list (string * json)).
Set Elimination Schemes.

Definition JInt (z : Z) : json := JScalar (SInt z).
Definition JStr (s : string) : json := JScalar (SStr s).
Definition JNull : json := JScalar SNone.

(** Height of a tree: the number of nested Python calls a recursive
    traversal needs. *)
Fixpoint depth (t : json) : nat :=
  match t with
  | JScalar _ => 0
  | JList l => S (list_max (map depth l))
  | JDict d => S (list_max (map (fun '(_, v) => depth v) d))
  end.

(** ** Python run-time type tests *)

(** [isinstance(v, (int, float))]; [bool] is a subclass of [int]. *)
Definition is_int_or_float (v : json) : bool :=
  match v with
  | JScalar (SBool _) | JScalar (SInt _) | JScalar (SFloat _) => true
  | _ => false
  end.

(** The integer a value stands for when [isinstance(v, int)] holds
    ([True] is 1 and [False] is 0). *)
Definition int_value (v : json) : option Z :=
  match v with
  | JScalar (SInt z) => Some z
  | JScalar (SBool b) => Some (if b then 1%Z else 0%Z)
  | _ => None
  end.

Definition is_str (v : json) : bool :=
  match v with JScalar (SStr _) => true | _ => false end.

Definition is_list (v : json) : bool :=
  match v with JList _ => true | _ => false end.

Definition is_dict (v : json) : bool :=
  match v with JDict _ => true | _ => false end.

(** ** Strings *)

(** [str.lower()] on the ASCII range.  The control words below contain no
    letter that a non-ASCII character lower-cases to, so membership of
    [s.lower()] in the control list is decided by the ASCII letters alone. *)
Definition lower_char (c : ascii) : ascii :=
  let n := N_of_ascii c in
  if ((65 <=? n) && (n <=? 90))%N then ascii_of_N (n + 32) else c.

Fixpoint lower (s : string) : string :=
  match s with
  | EmptyString => EmptyString
  | String c s' => String (lower_char c) (lower s')
  end.

(** [s in l] for a list of strings. *)
Definition in_strs (s : string) (l : list string) : bool :=
  existsb (String.eqb s) l.

Definition seed_keys : list string := ["seed"; "noise_seed"].
Definition control_keys_to_normalize : list string :=
  ["control_after_generate"; "control_before_generate"].
Definition control_values : list string :=
  ["randomize"; "increment"; "decrement"; "fixed"].
Definition skipped_keys : list string :=
  ["last_node_id"; "last_link_id"; "version"; "date"; "time";
   "_meta_data_checksum"].

(** [isinstance(v, str) and v.lower() in [...]] *)
Definition is_control_str (v : json) : bool :=
  match v with
  | JScalar (SStr s) => in_strs (lower s) control_values
  | _ => false
  end.

(** [isinstance(value, int) and value > -1] *)
Definition is_seed_like (v : json) : bool :=
  match int_value v with
  | Some z => (z >? -1)%Z
  | None => false
  end.

(** ** Dictionaries *)

Definition dict := list (string * json).

(** [d[key]] when [key in d]. *)
Fixpoint dict_get (key : string) (d : dict) : option json :=
  match d with
  | [] => None
  | (k, v) :: r => if String.eqb k key then Some v else dict_get key r
  end.

(** [d[key] = x] for a key that is present: the binding keeps its place. *)
Fixpoint dict_set (key : string) (x : json) (d : dict) : dict :=
  match d with
  | [] => []
  | (k, v) :: r =>
      if String.eqb k key then (k, x) :: r else (k, v) :: dict_set key x r
  end.

(** [if key in d and test(d[key]): d[key] = f(d[key])] *)
Definition update_if (key : string) (test : json -> bool) (f : json -> json)
    (d : dict) : dict :=
  match dict_get key d with
  | Some v => if test v then dict_set key (f v) d else d
  | None => d
  end.

(** ** normalize_workflow_seeds *)

(** One iteration of [for i, value in enumerate(widgets)]: [value] is read
    from the list as it is at that moment. *)
Definition widgets_body (i : nat) (widgets : list json) : list json :=
  match widgets !! i with
  | None => widgets
  | Some value =>
      if is_seed_like value then
        if (i + 1 <? length widgets)
           && from_option is_control_str false (widgets !! (i + 1))
        then <[i + 1 := JStr "fixed"]> (<[i := JInt 0]> widgets)
        else widgets
      else if is_control_str value then <[i := JStr "fixed"]> widgets
      else widgets
  end.

(** The loop over the indices [i, i+1, ..., i+todo-1]. *)
Fixpoint widgets_loop (todo i : nat) (widgets : list json) : list json :=
  match todo with
  | 0 => widgets
  | S todo' => widgets_loop todo' (S i) (widgets_body i widgets)
  end.

Definition scan_widgets (v : json) : json :=
  match v with
  | JList widgets => JList (widgets_loop (length widgets) 0 widgets)
  | _ => v
  end.

(** The function mutates its argument; here it returns the mutated tree.
    [fuel] bounds the depth of the recursive calls: with no fuel left the
    tree is returned as it is. *)
Fixpoint norm (fuel : nat) (workflow : json) : json :=
  match fuel with
  | 0 => workflow
  | S fuel' =>
      match workflow with
      | JDict d =>
          let d := fold_left
                     (fun d key => update_if key is_int_or_float
                                     (fun _ => JInt 0) d) seed_keys d in
          let d := fold_left
                     (fun d key => update_if key is_str
                                     (fun _ => JStr "fixed") d)
                     control_keys_to_normalize d in
          let d := update_if "widgets_values" is_list scan_widgets d in
          let d := update_if "inputs" is_dict (norm fuel') d in
          JDict (map (fun '(key, value) =>
                        if in_strs key skipped_keys then (key, value)
                        else if is_dict value || is_list value
                             then (key, norm fuel' value)
                             else (key, value)) d)
      | JList l => JList (map (norm fuel') l)
      | JScalar _ => workflow
      end
  end.

(** A tree of height [h] needs [h + 1] nested calls. *)
Definition normalize_workflow_seeds (workflow : json) : json :=
  norm (S (depth workflow)) workflow.

(** ** flatten_json_to_paths *)

(** [sorted(obj.items())]: a stable sort on the keys (the keys of a Python
    dict are distinct, so the values are never compared). *)
Fixpoint insert_item (x : string * json) (l : dict) : dict :=
  match l with
  | [] => [x]
  | y :: r =>
      if String.leb x.1 y.1 then x :: y :: r else y :: insert_item x r
  end.

Definition sorted_items (d : dict) : dict := foldr insert_item [] d.

(** [enumerate(obj)] *)
Definition enumerate {A} (l : list A) : list (nat * A) :=
  zip (seq 0 (length l)) l.

(** [str(i)] for a list index. *)
Definition str_of_nat (i : nat) : string :=
  NilEmpty.string_of_uint (Nat.to_uint i).

(** [f"{path}.{k}" if path else k] *)
Definition key_path (path k : string) : string :=
  if String.eqb path "" then k else path +:+ "." +:+ k.

(** [f"{path}[{i}]"] *)
Definition index_path (path : string) (i : nat) : string :=
  path +:+ "[" +:+ str_of_nat i +:+ "]".

Definition path_value : Type := string * scalar.

Fixpoint flatten (fuel : nat) (obj : json) (path : string)
    : list path_value :=
  match fuel with
  | 0 => []
  | S fuel' =>
      let visit (new_path : string) (v : json) : list path_value :=
        match v with
        | JScalar s => [(new_path, s)]
        | _ => flatten fuel' v new_path
        end in
      match obj with
      | JDict d =>
          flat_map (fun '(k, v) => visit (key_path path k) v)
                   (sorted_items d)
      | JList l =>
          flat_map (fun '(i, v) => visit (index_path path i) v)
                   (enumerate l)
      | JScalar _ => []
      end
  end.

Definition flatten_json_to_paths (obj : json) (path : string)
    : list path_value :=
  flatten (S (depth obj)) obj path.

(** ** Python equality of the scalars held in a set *)

(** The number a numeric scalar denotes, in a canonical form: a dyadic
    [+/- m * 2^e] with [m] odd, an infinity, or the not-a-number value.
    [json.load] returns one and the same object for every [NaN] it reads,
    and [copy.deepcopy] keeps float objects, so inside a set a NaN equals a
    NaN (by identity). *)
Inductive num_key : Type :=
| NKzero
| NKfin (neg : bool) (m : positive) (e : Z)
| NKinf (neg : bool)
| NKnan.

Inductive hash_key : Type :=
| HKnone
| HKstr (s : string)
| HKnum (n : num_key).

Fixpoint odd_part (m : positive) (e : Z) : positive * Z :=
  match m with
  | xO m' => odd_part m' (e + 1)%Z
  | _ => (m, e)
  end.

Definition num_of_Z (z : Z) : num_key :=
  match z with
  | Z0 => NKzero
  | Zpos p => let '(m, e) := odd_part p 0 in NKfin false m e
  | Zneg p => let '(m, e) := odd_part p 0 in NKfin true m e
  end.

Definition num_of_float (f : spec_float) : num_key :=
  match f with
  | S754_zero _ => NKzero
  | S754_infinity s => NKinf s
  | S754_nan => NKnan
  | S754_finite s m e => let '(m', e') := odd_part m e in NKfin s m' e'
  end.

Definition key_of (s : scalar) : hash_key :=
  match s with
  | SNone => HKnone
  | SBool b => HKnum (num_of_Z (if b then 1 else 0))
  | SInt z => HKnum (num_of_Z z)
  | SFloat f => HKnum (num_of_float f)
  | SStr s => HKstr s
  end.

#[global] Instance num_key_eq_dec : EqDecision num_key.
Proof. solve_decision. Defined.

#[global] Instance hash_key_eq_dec : EqDecision hash_key.
Proof. solve_decision. Defined.

(** [a == b] on scalars: [True == 1 == 1.0], [0 == 0.0 == -0.0 == False]. *)
Definition py_eqb (a b : scalar) : bool :=
  bool_decide (key_of a = key_of b).

(** Equality of two [(path, value)] tuples. *)
Definition pv_eqb (a b : path_value) : bool :=
  String.eqb a.1 b.1 && py_eqb a.2 b.2.

(** ** Python sets of tuples, as duplicate-free lists *)

Definition set_mem (x : path_value) (s : list path_value) : bool :=
  existsb (pv_eqb x) s.

(** [s.add(x)]: an element equal to one already present is not added. *)
Definition add_tuple (s : list path_value) (x : path_value)
    : list path_value :=
  if set_mem x s then s else s ++ [x].

(** [set(l)] *)
Definition set_of_list (l : list path_value) : list path_value :=
  fold_left add_tuple l [].

Definition set_intersection (a b : list path_value) : list path_value :=
  filter (fun x => set_mem x b = true) a.

Definition set_difference (a b : list path_value) : list path_value :=
  filter (fun x => set_mem x b = false) a.

Definition set_union (a b : list path_value) : list path_value :=
  a ++ set_difference b a.

(** ** calculate_json_difference_percentage *)

Definition calculate_json_difference_percentage (json1_data json2_data : json)
    : Q :=
  let normalized_json1 := normalize_workflow_seeds json1_data in
  let normalized_json2 := normalize_workflow_seeds json2_data in
  let paths1 := set_of_list (flatten_json_to_paths normalized_json1 "") in
  let paths2 := set_of_list (flatten_json_to_paths normalized_json2 "") in
  let unique_to_1 := set_difference paths1 paths2 in
  let unique_to_2 := set_difference paths2 paths1 in
  let total_elements_in_union := length (set_union paths1 paths2) in
  if Nat.eqb total_elements_in_union 0 then 0%Q
  else
    let difference_count := length unique_to_1 + length unique_to_2 in
    ((inject_Z (Z.of_nat difference_count)
      / inject_Z (Z.of_nat total_elements_in_union)) * 100)%Q.

(** ** compare_and_delete_jsons *)

(** The outcome recorded in [action]. *)
Inductive action : Type := KEPT | DELETED | DELETE_ERROR.

(** What the file system answers for one name of [json_files]: the tree
    [json.load] returns ([None] when opening or parsing raises), and whether
    [os.remove] succeeds ([false] when it raises [OSError]). *)
Record file_entry : Type := mk_file {
  filename : string;
  load : option json;
  remove_ok : bool
}.

(** One printed line per file. *)
Inductive report : Type :=
| Skipped (name : string)
| Initial (name : string)
| Compared (name : string) (against : option string) (diff : Q) (a : action).

(** The loop variables.  [previous_json_data] starts as Python's [None],
    which is also what [json.load] returns for the document [null]. *)
Record state : Type := mk_state {
  previous_json_data : json;
  previous_json_filename : option string;
  deleted_count : nat;
  total_compared : nat
}.

Definition initial_state : state := mk_state JNull None 0 0.

(** [previous_json_data is None] *)
Definition is_None (v : json) : bool :=
  match v with JScalar SNone => true | _ => false end.

(** [percentage_diff < delete_threshold_percent] *)
Definition Qltb (x y : Q) : bool :=
  match (x ?= y)%Q with Lt => true | _ => false end.

(** Lines 163-172: the action for one compared file. *)
Definition decide_action (delete_threshold_percent : option Q)
    (percentage_diff : Q) (removed : bool) : action :=
  match delete_threshold_percent with
  | Some t =>
      if Qltb percentage_diff t then
        if removed then DELETED else DELETE_ERROR
      else KEPT
  | None => KEPT
  end.

(** The body of [for i, filename in enumerate(json_files)]. *)
Definition step (delete_threshold_percent : option Q) (st : state)
    (f : file_entry) : state * report :=
  match load f with
  | None => (st, Skipped (filename f))
  | Some current_json_data =>
      if is_None (previous_json_data st) then
        (mk_state current_json_data (Some (filename f))
                  (deleted_count st) (total_compared st),
         Initial (filename f))
      else
        let total := S (total_compared st) in
        let percentage_diff :=
          calculate_json_difference_percentage
            current_json_data (previous_json_data st) in
        let a := decide_action delete_threshold_percent percentage_diff
                               (remove_ok f) in
        let deleted := match a with
                       | DELETED => S (deleted_count st)
                       | _ => deleted_count st
                       end in
        let line := Compared (filename f) (previous_json_filename st)
                             percentage_diff a in
        match a with
        | KEPT => (mk_state current_json_data (Some (filename f))
                            deleted total, line)
        | _ => (mk_state (previous_json_data st) (previous_json_filename st)
                         deleted total, line)
        end
  end.

(** The whole loop, from a given state, with the lines it prints. *)
Fixpoint run (delete_threshold_percent : option Q) (st : state)
    (json_files : list file_entry) : state * list report :=
  match json_files with
  | [] => (st, [])
  | f :: rest =>
      let '(st', line) := step delete_threshold_percent st f in
      let '(st'', lines) := run delete_threshold_percent st' rest in
      (st'', line :: lines)
  end.

(** [json_files] is the sorted listing of the directory. *)
Definition compare_and_delete_jsons (json_files : list file_entry)
    (delete_threshold_percent : option Q) : state * list report :=
  run delete_threshold_percent initial_state json_files.

(** ** The loop body on the doubles of the code *)

(** A Python [float] is an IEEE binary64 number: a [spec_float] in
    canonical form for these two parameters. *)
Definition double_prec : Z := 53.
Definition double_emax : Z := 1024.

Definition is_double (x : spec_float) : bool :=
  valid_binary double_prec double_emax x.

(** [float(n)] for an [int]: exact below 2^53. *)
Definition float_of_int (n : Z) : spec_float :=
  binary_normalize double_prec double_emax n 0 false.

(** [calculate_json_difference_percentage] with the arithmetic of line 96:
    [difference_count / total_elements_in_union] is the correctly rounded
    quotient of the two counts, and [* 100] rounds a second time.  (The
    counts are sizes of sets in memory, far below 2^53, so their conversion
    is exact.) *)
Definition calculate_json_difference_percentage_float
    (json1_data json2_data : json) : spec_float :=
  let normalized_json1 := normalize_workflow_seeds json1_data in
  let normalized_json2 := normalize_workflow_seeds json2_data in
  let paths1 := set_of_list (flatten_json_to_paths normalized_json1 "") in
  let paths2 := set_of_list (flatten_json_to_paths normalized_json2 "") in
  let unique_to_1 := set_difference paths1 paths2 in
  let unique_to_2 := set_difference paths2 paths1 in
  let total_elements_in_union := length (set_union paths1 paths2) in
  if Nat.eqb total_elements_in_union 0 then S754_zero false
  else
    let difference_count := length unique_to_1 + length unique_to_2 in
    SFmul double_prec double_emax
      (SFdiv double_prec double_emax
         (float_of_int (Z.of_nat difference_count))
         (float_of_int (Z.of_nat total_elements_in_union)))
      (float_of_int 100).

(** Lines 163-172 with [percentage_diff < delete_threshold_percent] as the
    comparison of two doubles; the threshold is the [float] of the
    signature and of the command line. *)
Definition decide_action_float (delete_threshold_percent : option spec_float)
    (percentage_diff : spec_float) (removed : bool) : action :=
  match delete_threshold_percent with
  | Some t =>
      if SFltb percentage_diff t then
        if removed then DELETED else DELETE_ERROR
      else KEPT
  | None => KEPT
  end.

(** The printed lines, with the double that is printed. *)
Inductive float_report : Type :=
| FSkipped (name : string)
| FInitial (name : string)
| FCompared (name : string) (against : option string) (diff : spec_float)
            (a : action).

(** The body of the loop, as [step], on doubles. *)
Definition step_float (delete_threshold_percent : option spec_float)
    (st : state) (f : file_entry) : state * float_report :=
  match load f with
  | None => (st, FSkipped (filename f))
  | Some current_json_data =>
      if is_None (previous_json_data st) then
        (mk_state current_json_data (Some (filename f))
                  (deleted_count st) (total_compared st),
         FInitial (filename f))
      else
        let total := S (total_compared st) in
        let percentage_diff :=
          calculate_json_difference_percentage_float
            current_json_data (previous_json_data st) in
        let a := decide_action_float delete_threshold_percent
                                     percentage_diff (remove_ok f) in
        let deleted := match a with
                       | DELETED => S (deleted_count st)
                       | _ => deleted_count st
                       end in
        let line := FCompared (filename f) (previous_json_filename st)
                              percentage_diff a in
        match a with
        | KEPT => (mk_state current_json_data (Some (filename f))
                            deleted total, line)
        | _ => (mk_state (previous_json_data st) (previous_json_filename st)
                         deleted total, line)
        end
  end.

(** A list of [n] zeros: [[0] * n]. *)
Definition zeros (n : nat) : json := JList (repeat (JInt 0) n).

(** The documents of the running example. *)
Definition F1 : json := JDict [("seed", JInt 1); ("x", JInt 5)].
Definition F2 : json := JDict [("seed", JInt 2); ("x", JInt 5)].
Definition F3 : json := JDict [("seed", JInt 3); ("x", JInt 9)].

(** * Definitions used to state and prove the properties *)

(** ** The baseline *)

(** What later files are compared with: the last kept tree and its name. *)
Definition baseline (st : state) : json * option string :=
  (previous_json_data st, previous_json_filename st).

(** ** The scan of [widgets_values], position by position *)

(** What the loop leaves at a position, from the element [x] that was there
    and the element [next] that followed it. *)
Definition rewrite_widget (x : json) (next : option json) : json :=
  if is_seed_like x && from_option is_control_str false next then JInt 0
  else if is_control_str x then JStr "fixed"
  else x.

(** The list the loop leaves, computed without indices. *)
Fixpoint scan_spec (w : list json) : list json :=
  match w with
  | [] => []
  | x :: tl => rewrite_widget x (head tl) :: scan_spec tl
  end.

(** ** The mapping case of [norm], binding by binding *)

(** [f(v) if test(v) else v] *)
Definition guarded (test : json -> bool) (f : json -> json) (v : json) : json :=
  if test v then f v else v.

(** Apply [g] to the value of the first binding of [key]. *)
Fixpoint adjust_first (key : string) (g : json -> json) (d : dict) : dict :=
  match d with
  | [] => []
  | (k, v) :: r =>
      if String.eqb k key then (k, g v) :: r
      else (k, v) :: adjust_first key g r
  end.

(** Keyed rewritings, each for the first binding of its key. *)
Definition steps : Type := list (string * (json -> json)).

(** The rewritings applied one after the other. *)
Definition adjusts (s : steps) (d : dict) : dict :=
  fold_left (fun d '(k, g) => adjust_first k g d) s d.

(** The rewriting registered for [key], if any. *)
Fixpoint steps_get (key : string) (s : steps) : option (json -> json) :=
  match s with
  | [] => None
  | (k, g) :: r => if String.eqb k key then Some g else steps_get key r
  end.

(** The rewritings without the ones for [key]. *)
Fixpoint steps_del (key : string) (s : steps) : steps :=
  match s with
  | [] => []
  | (k, g) :: r =>
      if String.eqb k key then steps_del key r else (k, g) :: steps_del key r
  end.

(** The keyed rewritings of lines 17-36, in source order. *)
Definition norm_steps (fuel' : nat) : steps :=
  [("seed", guarded is_int_or_float (fun _ => JInt 0));
   ("noise_seed", guarded is_int_or_float (fun _ => JInt 0));
   ("control_after_generate", guarded is_str (fun _ => JStr "fixed"));
   ("control_before_generate", guarded is_str (fun _ => JStr "fixed"));
   ("widgets_values", guarded is_list scan_widgets);
   ("inputs", guarded is_dict (norm fuel'))].

(** The body of the loop of lines 38-42 on one value. *)
Definition visit_value (fuel' : nat) (key : string) (value : json) : json :=
  if in_strs key skipped_keys then value
  else if is_dict value || is_list value then norm fuel' value
  else value.

(** A pass over a mapping: keyed rewritings of first bindings, then [h] on
    every value under its key. *)
Definition pass (h : string -> json -> json) (s : steps) (d : dict) : dict :=
  map (fun '(k, v) => (k, h k v)) (adjusts s d).

(** The steps have distinct keys: each one is looked up once. *)
Fixpoint steps_distinct (s : steps) : Prop :=
  match s with
  | [] => True
  | (k, _) :: r => steps_get k r = None /\ steps_distinct r
  end.

(** ** Leaves, routes and path strings *)

(** One step of the route from the root: the key of a mapping or the index
    in a sequence. *)
Inductive loc_step : Type :=
| Key (k : string)
| Idx (i : nat).

(** The route from the root to a value. *)
Definition location : Type := list loc_step.

(** A leaf of a child, seen from its parent. *)
Definition under (st : loc_step) (leaf : location * scalar)
    : location * scalar :=
  (st :: leaf.1, leaf.2).

(** The scalars of a tree with the route that leads to each of them. *)
Fixpoint leaves (t : json) : list (location * scalar) :=
  match t with
  | JScalar s => [([], s)]
  | JList l =>
      (fix items (i : nat) (l : list json) : list (location * scalar) :=
         match l with
         | [] => []
         | v :: r => map (under (Idx i)) (leaves v) ++ items (S i) r
         end) 0 l
  | JDict d =>
      flat_map (fun '(k, v) => map (under (Key k)) (leaves v)) d
  end.

(** The path string [flatten_json_to_paths] builds along a route. *)
Fixpoint render (path : string) (loc : location) : string :=
  match loc with
  | [] => path
  | Key k :: r => render (key_path path k) r
  | Idx i :: r => render (index_path path i) r
  end.

(** The tuple [flatten_json_to_paths] emits for a leaf. *)
Definition rendered (path : string) (leaf : location * scalar) : path_value :=
  (render path leaf.1, leaf.2).

(** The value visited under [new_path] by the loops of lines 55-67. *)
Definition visit_item (fuel' : nat) (new_path : string) (v : json)
    : list path_value :=
  match v with
  | JScalar s => [(new_path, s)]
  | _ => flatten fuel' v new_path
  end.

(** [isinstance(t, (dict, list))] *)
Definition is_container (t : json) : bool := is_dict t || is_list t.

(** The leaves of the items of a sequence, the first one at index [i]. *)
Fixpoint list_leaves (i : nat) (l : list json) : list (location * scalar) :=
  match l with
  | [] => []
  | v :: r => map (under (Idx i)) (leaves v) ++ list_leaves (S i) r
  end.

(** Every character of the string is in [P]. *)
Fixpoint all_chars (P : ascii -> bool) (s : string) : bool :=
  match s with
  | EmptyString => true
  | String c r => P c && all_chars P r
  end.

(** The string is empty or begins with a character in [P]. *)
Definition stops_at (P : ascii -> bool) (s : string) : bool :=
  match s with
  | EmptyString => true
  | String c _ => P c
  end.

(** The characters [flatten_json_to_paths] puts between the steps. *)
Definition is_path_delim (c : ascii) : bool :=
  Ascii.eqb c "." || Ascii.eqb c "[".

(** The character that ends an index. *)
Definition is_close (c : ascii) : bool := Ascii.eqb c "]".

(** A key that is not empty and holds neither ['.'] nor ['[']. *)
Definition clean_key (k : string) : bool :=
  negb (String.eqb k "") && all_chars (fun c => negb (is_path_delim c)) k.

(** A step through a clean key, or an index. *)
Definition clean_step (st : loc_step) : bool :=
  match st with
  | Key k => clean_key k
  | Idx _ => true
  end.

(** What a route adds to a path that is not empty. *)
Fixpoint suffix (loc : location) : string :=
  match loc with
  | [] => ""
  | Key k :: r => "." +:+ k +:+ suffix r
  | Idx i :: r => "[" +:+ str_of_nat i +:+ "]" +:+ suffix r
  end.

(** ** Path sets *)

(** [a == b] for two sets: each is included in the other. *)
Definition set_eqb (a b : list path_value) : bool :=
  forallb (fun x => set_mem x b) a && forallb (fun x => set_mem x a) b.

(** The set [calculate_json_difference_percentage] builds from a tree that
    is already normalised. *)
Definition paths (t : json) : list path_value :=
  set_of_list (flatten_json_to_paths t "").

(** Every key of the tree is [clean_key]. *)
Fixpoint clean (t : json) : bool :=
  match t with
  | JScalar _ => true
  | JList l => forallb clean l
  | JDict d => forallb (fun '(k, v) => clean_key k && clean v) d
  end.

(** ** Example trees *)

(** A nested key and a key with a dot; a tree and a reordering of it with
    values that Python's [==] identifies. *)
Definition nested_key : json := JDict [("a", JDict [("b", JInt 1)])].
Definition dotted_key : json := JDict [("a.b", JInt 1)].
Definition tree_one : json :=
  JDict [("b", JList [JInt 1; JDict [("c", JStr "x")]]);
         ("a", JScalar (SBool true))].
Definition tree_two : json :=
  JDict [("a", JInt 1);
         ("b", JList [JScalar (SFloat (S754_finite false 1 0));
                      JDict [("c", JStr "x")]])].

(** * More of the code: definitions *)

(** ** Tuples as hashed keys *)

(** What a set keeps of a tuple: two tuples are equal for Python exactly
    when they have the same key. *)
Definition tuple_key (x : path_value) : string * hash_key :=
  (x.1, key_of x.2).

(** ** The directory listing (line 120) *)

(** [s.endswith(suffix)] *)
Fixpoint ends_with (suffix s : string) : bool :=
  String.eqb s suffix
  || match s with
     | EmptyString => false
     | String _ r => ends_with suffix r
     end.

(** [f.lower().endswith('.json') and not f.startswith('._')] *)
Definition is_json_name (f : string) : bool :=
  ends_with ".json" (lower f) && negb (String.prefix "._" f).

(** [sorted(names)]: a stable sort of strings. *)
Fixpoint insert_name (x : string) (l : list string) : list string :=
  match l with
  | [] => [x]
  | y :: r => if String.leb x y then x :: y :: r else y :: insert_name x r
  end.

Definition sorted_names (l : list string) : list string :=
  foldr insert_name [] l.

(** [json_files], from what [os.listdir(source_dir)] returns. *)
Definition list_json_files (listdir : list string) : list string :=
  sorted_names (List.filter is_json_name listdir).

(** ** The whole of [compare_and_delete_jsons] *)

(** The directory as the function finds it: whether [source_dir] is a
    directory, what [os.listdir] returns, and for each name what reading
    and removing the file give. *)
Record directory : Type := mk_dir {
  isdir : bool;
  listdir : list string;
  read_json : string -> option json;
  can_remove : string -> bool
}.

(** How the function ends: the two early returns, or the summary after the
    loop with its three numbers. *)
Inductive outcome : Type :=
| NotADirectory
| NoJsonFiles
| Summary (processed compared deleted : nat) (lines : list report).

Definition entry_of (dir : directory) (name : string) : file_entry :=
  mk_file name (read_json dir name) (can_remove dir name).

Definition compare_and_delete_jsons_in (dir : directory)
    (delete_threshold_percent : option Q) : outcome :=
  if negb (isdir dir) then NotADirectory
  else
    let json_files := list_json_files (listdir dir) in
    match json_files with
    | [] => NoJsonFiles
    | _ =>
        let '(st, lines) :=
          compare_and_delete_jsons (map (entry_of dir) json_files)
                                   delete_threshold_percent in
        Summary (length json_files) (total_compared st) (deleted_count st)
                lines
    end.

(** ** Reading the printed lines *)

(** The file a line is about. *)
Definition line_name (r : report) : string :=
  match r with
  | Skipped n | Initial n | Compared n _ _ _ => n
  end.

Definition is_compared (r : report) : bool :=
  match r with Compared _ _ _ _ => true | _ => false end.

Definition is_deleted (r : report) : bool :=
  match r with Compared _ _ _ DELETED => true | _ => false end.

(** A line that says the file is gone or that removing it was tried. *)
Definition tried_delete (r : report) : bool :=
  match r with
  | Compared _ _ _ DELETED | Compared _ _ _ DELETE_ERROR => true
  | _ => false
  end.

(** [count] of the lines that satisfy a test. *)
Definition count_lines (p : report -> bool) (lines : list report) : nat :=
  length (List.filter p lines).

(** The files that could be read. *)
Definition readable (f : file_entry) : bool :=
  match load f with Some _ => true | None => false end.

(** The tree and name of the last readable file, or [b] when there is
    none. *)
Definition last_readable (b : json * option string)
    (fs : list file_entry) : json * option string :=
  fold_left (fun acc f => match load f with
                          | Some doc => (doc, Some (filename f))
                          | None => acc
                          end) fs b.

(** A line that is not about an unreadable file. *)
Definition not_skipped (r : report) : bool :=
  match r with Skipped _ => false | _ => true end.

(** What a line may say, given the threshold: the distance is a
    percentage; a removal is tried only below the threshold, and a file is
    kept only when it is not below it. *)
Definition line_is_sound (t : option Q) (r : report) : Prop :=
  match r with
  | Compared _ _ d KEPT =>
      (0 <= d)%Q /\ (d <= 100)%Q /\ forall T, t = Some T -> ~ (d < T)%Q
  | Compared _ _ d _ =>
      (0 <= d)%Q /\ (d <= 100)%Q /\ exists T, t = Some T /\ (d < T)%Q
  | _ => True
  end.


(** ** Normalisation, key by key *)

(** What [normalize_workflow_seeds] leaves under [key] for the value [v]
    it found there: nothing is done under a skipped key; elsewhere the
    keyed rewriting, if one applies, and the recursion. *)
Definition normalized_binding (key : string) (v : json) : json :=
  if in_strs key skipped_keys then v
  else
    normalize_workflow_seeds
      (if in_strs key seed_keys && is_int_or_float v then JInt 0
       else if in_strs key control_keys_to_normalize && is_str v
            then JStr "fixed"
       else if String.eqb key "widgets_values" then scan_widgets v
       else v).

(** A directory with two workflows, a junk file and a text file. *)
Definition example_dir : directory :=
  mk_dir true ["b.JSON"; "._a.json"; "notes.txt"; "a.json"]
         (fun n => if String.eqb n "a.json" then Some F1
                   else if String.eqb n "b.JSON" then Some F2
                   else None)
         (fun _ => true).

(** * The converter: [src/convert_png_jpg_json.py] *)

(** The converter has a normalisation of its own, and compares two
    workflows with Python's [==] after it. *)

Module Convert.

Definition seed_keys : list string := ["seed"; "noise_seed"].
Definition control_keys : list string := ["control_after_generate"].
Definition control_words : list string :=
  ["randomize"; "increment"; "decrement"; "fixed"].

(** [key in workflow]: the value bound to the key is not looked at. *)
Definition any_value (_ : json) : bool := true.

(** [isinstance(value, int) and value > 1000000] *)
Definition is_large_int (v : json) : bool :=
  match int_value v with
  | Some z => (z >? 1000000)%Z
  | None => false
  end.

(** [isinstance(v, str) and v in [...]]: the words as they are written. *)
Definition is_control_word (v : json) : bool :=
  match v with
  | JScalar (SStr s) => in_strs s control_words
  | _ => false
  end.

(** One iteration of [for i, value in enumerate(widgets)]. *)
Definition widgets_body (i : nat) (widgets : list json) : list json :=
  match widgets !! i with
  | None => widgets
  | Some value =>
      if is_large_int value then
        if (i + 1 <? length widgets)
           && from_option is_control_word false (widgets !! (i + 1))
        then <[i := JInt 0]> widgets
        else widgets
      else widgets
  end.

Fixpoint widgets_loop (todo i : nat) (widgets : list json) : list json :=
  match todo with
  | 0 => widgets
  | S todo' => widgets_loop todo' (S i) (widgets_body i widgets)
  end.

Definition scan_widgets (v : json) : json :=
  match v with
  | JList widgets => JList (widgets_loop (length widgets) 0 widgets)
  | _ => v
  end.

(** The function mutates its argument; here it returns the mutated tree.
    [fuel] bounds the depth of the recursive calls. *)
Fixpoint norm (fuel : nat) (workflow : json) : json :=
  match fuel with
  | 0 => workflow
  | S fuel' =>
      match workflow with
      | JDict d =>
          let d := fold_left
                     (fun d key => update_if key any_value
                                     (fun _ => JInt 0) d) seed_keys d in
          let d := fold_left
                     (fun d key => update_if key any_value
                                     (fun _ => JStr "fixed") d)
                     control_keys d in
          let d := update_if "widgets_values" is_list scan_widgets d in
          let d := update_if "inputs" any_value (norm fuel') d in
          JDict (map (fun '(key, value) =>
                        if is_dict value || is_list value
                        then (key, norm fuel' value)
                        else (key, value)) d)
      | JList l => JList (map (norm fuel') l)
      | JScalar _ => workflow
      end
  end.

(** A tree of height [h] needs [h + 1] nested calls. *)
Definition normalize_workflow_seeds (workflow : json) : json :=
  norm (S (depth workflow)) workflow.

(** ** Python's [==] on two parsed documents *)

Definition is_nan (s : scalar) : bool :=
  match s with
  | SFloat S754_nan => true
  | _ => false
  end.

(** Equality of two items of a list or of two values of a mapping: the
    same object, or [==].  The one NaN object of the [json] module is equal
    to itself here.  Two lists are equal when they have the same length and
    equal items; two mappings when they have the same number of keys and
    every key of the first is in the second with an equal value. *)
Fixpoint item_eq (a b : json) : bool :=
  match a, b with
  | JScalar x, JScalar y => py_eqb x y
  | JList l, JList m =>
      (fix items (l m : list json) : bool :=
         match l, m with
         | [], [] => true
         | x :: l', y :: m' => item_eq x y && items l' m'
         | _, _ => false
         end) l m
  | JDict d, JDict e =>
      (length d =? length e)
      && forallb (fun '(k, v) =>
                    match dict_get k e with
                    | Some w => item_eq v w
                    | None => false
                    end) d
  | _, _ => false
  end.

(** [w1 == w2] at the root: between two floats there is no test of
    identity, and NaN differs from NaN. *)
Definition py_eq (a b : json) : bool :=
  match a, b with
  | JScalar x, JScalar y => py_eqb x y && negb (is_nan x)
  | _, _ => item_eq a b
  end.

(** The copies are normalised, the arguments are left as they are. *)
Definition workflows_equal_ignore_seeds (workflow1 workflow2 : json)
    : bool :=
  py_eq (normalize_workflow_seeds workflow1)
        (normalize_workflow_seeds workflow2).

(** ** Whether the workflow of a picture is written (lines 121-152) *)

(** What reading the latest JSON file gives: a document, one of the three
    errors that line 140 catches, or another error. *)
Inductive loaded : Type :=
| Document (previous_workflow : json)
| Unreadable
| Failure.

(** How the step ends: the file is written, it is left out as a duplicate,
    or the step is given up with the message of line 154. *)
Inductive json_step : Type :=
| JsonCreated
| JsonSkipped
| JsonError.

(** [f.endswith('.json') and f != json_filename] *)
Definition is_other_json (json_filename f : string) : bool :=
  ends_with ".json" f && negb (String.eqb f json_filename).

(** [json_files] after [json_files.sort()]. *)
Definition other_json_files (listdir : list string) (json_filename : string)
    : list string :=
  sorted_names (List.filter (is_other_json json_filename) listdir).

Definition save_workflow (listdir : list string) (json_filename : string)
    (load : string -> loaded) (can_write : bool) (workflow_obj : json)
    : json_step :=
  let write := if can_write then JsonCreated else JsonError in
  match last (other_json_files listdir json_filename) with
  | None => write
  | Some latest =>
      match load latest with
      | Document previous_workflow =>
          if workflows_equal_ignore_seeds workflow_obj previous_workflow
          then JsonSkipped
          else write
      | Unreadable => write
      | Failure => JsonError
      end
  end.

(** ** The scan and the mapping case, as for the other normalisation *)

Definition rewrite_widget (x : json) (next : option json) : json :=
  if is_large_int x && from_option is_control_word false next then JInt 0
  else x.

Fixpoint scan_spec (w : list json) : list json :=
  match w with
  | [] => []
  | x :: tl => rewrite_widget x (head tl) :: scan_spec tl
  end.

(** The keyed rewritings of lines 248-269, in source order. *)
Definition norm_steps (fuel' : nat) : steps :=
  [("seed", guarded any_value (fun _ => JInt 0));
   ("noise_seed", guarded any_value (fun _ => JInt 0));
   ("control_after_generate", guarded any_value (fun _ => JStr "fixed"));
   ("widgets_values", guarded is_list scan_widgets);
   ("inputs", guarded any_value (norm fuel'))].

(** The body of the loop of lines 272-274 on one value. *)
Definition visit_value (fuel' : nat) (key : string) (value : json) : json :=
  if is_dict value || is_list value then norm fuel' value else value.

(** What is bound to [key] after the normalisation of a mapping that binds
    it to [v]. *)
Definition normalized_binding (key : string) (v : json) : json :=
  normalize_workflow_seeds
    (if in_strs key seed_keys then JInt 0
     else if String.eqb key "control_after_generate" then JStr "fixed"
     else if String.eqb key "widgets_values" then scan_widgets v
     else v).

End Convert.

(** Every mapping of the tree has distinct keys, as a Python [dict] has. *)
Fixpoint distinct_keys (t : json) : bool :=
  match t with
  | JScalar _ => true
  | JList l => forallb distinct_keys l
  | JDict d =>
      bool_decide (NoDup d.*1)
      && forallb (fun '(_, v) => distinct_keys v) d
  end.

(** * Properties *)

(** ** Equality of tuples *)

Lemma py_eqb_refl (a : scalar) : py_eqb a a = true.
Proof. unfold py_eqb. apply bool_decide_eq_true. reflexivity. Qed.

Lemma pv_eqb_refl (x : path_value) : pv_eqb x x = true.
Proof.
  unfold pv_eqb. rewrite String.eqb_refl, py_eqb_refl. reflexivity.
Qed.

Lemma pv_eqb_sym (x y : path_value) : pv_eqb x y = pv_eqb y x.
Proof.
  unfold pv_eqb, py_eqb. rewrite String.eqb_sym. f_equal.
  apply bool_decide_ext. split; congruence.
Qed.

Lemma pv_eqb_trans (x y z : path_value) :
  pv_eqb x y = true -> pv_eqb y z = true -> pv_eqb x z = true.
Proof.
  unfold pv_eqb, py_eqb. rewrite !andb_true_iff, !bool_decide_eq_true.
  intros [H1 H2] [H3 H4].
  apply String.eqb_eq in H1, H3. split.
  - apply String.eqb_eq. congruence.
  - congruence.
Qed.

Lemma set_mem_self (x : path_value) (s : list path_value) :
  x ∈ s -> set_mem x s = true.
Proof.
  intros Hx. unfold set_mem. apply existsb_exists.
  exists x. split; [by apply list_elem_of_In | apply pv_eqb_refl].
Qed.

Lemma set_difference_self (s : list path_value) : set_difference s s = [].
Proof.
  unfold set_difference.
  assert (H : forall l, (forall x, x ∈ l -> x ∈ s) ->
                        filter (fun x => set_mem x s = false) l = []).
  { induction l as [|x l IH]; intros Hl; [reflexivity|].
    rewrite filter_cons. destruct (decide (set_mem x s = false)) as [E|E].
    - rewrite set_mem_self in E; [discriminate|]. apply Hl. left.
    - apply IH. intros y Hy. apply Hl. by right. }
  apply H. auto.
Qed.

(** ** Scalar roots *)

Lemma flatten_scalar (fuel : nat) (s : scalar) (path : string) :
  flatten fuel (JScalar s) path = [].
Proof. destruct fuel; reflexivity. Qed.

Lemma norm_scalar (fuel : nat) (s : scalar) :
  norm fuel (JScalar s) = JScalar s.
Proof. destruct fuel; reflexivity. Qed.

Lemma difference_scalar_roots (a b : scalar) :
  calculate_json_difference_percentage (JScalar a) (JScalar b) = 0%Q.
Proof. reflexivity. Qed.

(** ** The difference metric *)

(** C9: a tree is at distance 0 from itself; for the empty mapping the
    result is the literal [0.0] of the empty-union branch. *)
Theorem difference_self_is_zero (A : json) :
  (calculate_json_difference_percentage A A == 0)%Q
  /\ calculate_json_difference_percentage (JDict []) (JDict []) = 0%Q.
Proof.
  split; [|reflexivity].
  unfold calculate_json_difference_percentage.
  rewrite set_difference_self. simpl length.
  destruct (Nat.eqb _ 0); [reflexivity|].
  unfold Qdiv. rewrite !Qmult_0_l. reflexivity.
Qed.

(** ** The decision *)

Lemma Qltb_lt (x y : Q) : Qltb x y = true <-> (x < y)%Q.
Proof.
  unfold Qltb. rewrite Qlt_alt. destruct (x ?= y)%Q; split; congruence.
Qed.

Lemma Qltb_irrefl (x y : Q) : (x == y)%Q -> Qltb x y = false.
Proof.
  intros E. destruct (Qltb x y) eqn:H; [|reflexivity].
  apply Qltb_lt in H. rewrite E in H. exfalso. eapply Qlt_irrefl, H.
Qed.

Lemma decide_action_not_kept (t : option Q) (d : Q) (removed : bool) :
  decide_action t d removed <> KEPT ->
  exists t', t = Some t' /\ (d < t')%Q.
Proof.
  unfold decide_action. destruct t as [t'|]; [|congruence].
  destruct (Qltb d t') eqn:E; [|congruence].
  intros _. exists t'. split; [reflexivity|]. by apply Qltb_lt.
Qed.

Lemma SFeqb_not_ltb (x y : spec_float) :
  SFeqb x y = true -> SFltb x y = false.
Proof.
  unfold SFeqb, SFltb. by destruct (SFcompare x y) as [[]|].
Qed.

(** C5: a document whose computed distance, the double of line 96, is
    equal to the threshold is kept and becomes the baseline; a removal is
    tried exactly when [percentage_diff < delete_threshold_percent]. *)
Theorem at_threshold_is_kept (t : spec_float) (st : state) (f : file_entry)
    (doc : json) :
  is_double t = true ->
  load f = Some doc ->
  is_None (previous_json_data st) = false ->
  SFeqb (calculate_json_difference_percentage_float
           doc (previous_json_data st)) t = true ->
  step_float (Some t) st f =
    (mk_state doc (Some (filename f)) (deleted_count st)
              (S (total_compared st)),
     FCompared (filename f) (previous_json_filename st)
       (calculate_json_difference_percentage_float
          doc (previous_json_data st))
       KEPT)
  /\ (forall d removed,
        decide_action_float (Some t) d removed <> KEPT
        <-> SFltb d t = true).
Proof.
  intros _ Hload Hprev Heq. split.
  - unfold step_float. rewrite Hload, Hprev. cbv zeta.
    unfold decide_action_float. rewrite (SFeqb_not_ltb _ _ Heq).
    reflexivity.
  - intros d removed. unfold decide_action_float.
    destruct (SFltb d t); [by destruct removed|]. split; [done|discriminate].
Qed.

Lemma at_threshold_is_kept_witness :
  step_float (Some (S754_finite false 4691249611844266 (-46)))
             (mk_state F1 (Some "a.json") 0 0)
             (mk_file "c.json" (Some F3) true) =
    (mk_state F3 (Some "c.json") 0 1,
     FCompared "c.json" (Some "a.json")
       (calculate_json_difference_percentage_float F3 F1) KEPT)
  /\ (forall d removed,
        decide_action_float
          (Some (S754_finite false 4691249611844266 (-46))) d removed
        <> KEPT
        <-> SFltb d (S754_finite false 4691249611844266 (-46)) = true).
Proof.
  apply (at_threshold_is_kept (S754_finite false 4691249611844266 (-46))
           (mk_state F1 (Some "a.json") 0 0)
           (mk_file "c.json" (Some F3) true) F3).
  - reflexivity.
  - reflexivity.
  - reflexivity.
  - vm_compute. reflexivity.
Defined.

(** The computed distance is not the exact ratio: 29 of 50 tuples give
    the double 57.99999999999999, which is below the threshold 58, where
    the ratio itself is 58. *)
Lemma computed_distance_is_rounded :
  (calculate_json_difference_percentage (zeros 50) (zeros 21) == 58)%Q
  /\ calculate_json_difference_percentage_float (zeros 50) (zeros 21)
     = S754_finite false 8162774324609023 (-47)
  /\ float_of_int 58 = S754_finite false 8162774324609024 (-47)
  /\ step_float (Some (float_of_int 58))
                (mk_state (zeros 21) (Some "a.json") 0 0)
                (mk_file "b.json" (Some (zeros 50)) true) =
       (mk_state (zeros 21) (Some "a.json") 1 1,
        FCompared "b.json" (Some "a.json")
          (S754_finite false 8162774324609023 (-47)) DELETED).
Proof. vm_compute. repeat split. Qed.

(** ** The running example *)

(** C2, as the spec states it: the distance of F3 to F1 is not 50. *)
Lemma F3_F1_distance_is_not_50 :
  ~ (calculate_json_difference_percentage F3 F1 == 50)%Q.
Proof. vm_compute. discriminate. Qed.

(** C2, amended: after normalisation F3 and F1 share [(seed, 0)] and differ
    in [(x, 9)] against [(x, 5)]: two differing pairs in a union of three,
    so the distance is 200/3; with threshold 0 and baseline F1 the file is
    kept and F3 becomes the baseline. *)
Theorem F3_F1_distance_and_decision :
  (calculate_json_difference_percentage F3 F1 == 200 # 3)%Q
  /\ set_of_list (flatten_json_to_paths (normalize_workflow_seeds F3) "")
     = [("seed", SInt 0); ("x", SInt 9)]
  /\ set_of_list (flatten_json_to_paths (normalize_workflow_seeds F1) "")
     = [("seed", SInt 0); ("x", SInt 5)]
  /\ step (Some 0%Q) (mk_state F1 (Some "F1.json") 0 0)
          (mk_file "F3.json" (Some F3) true)
     = (mk_state F3 (Some "F3.json") 0 1,
        Compared "F3.json" (Some "F1.json") (200 # 3) KEPT).
Proof. repeat split. Qed.

(** C3, on the code: with threshold 0 the exact duplicate F2 (distance 0 to
    F1) is kept, becomes the baseline, and nothing is deleted. *)
Theorem zero_threshold_keeps_exact_duplicate :
  (calculate_json_difference_percentage F2 F1 == 0)%Q
  /\ exists d,
      compare_and_delete_jsons
        [mk_file "F1.json" (Some F1) true; mk_file "F2.json" (Some F2) true]
        (Some 0%Q)
      = (mk_state F2 (Some "F2.json") 0 1,
         [Initial "F1.json"; Compared "F2.json" (Some "F1.json") d KEPT]).
Proof. split; [reflexivity|]. eexists. reflexivity. Qed.

(** ** The baseline *)

(** C6: a step changes the baseline only when its line says the file was
    kept (the initial file is kept by default); a file that was deleted, or
    whose deletion failed, leaves the baseline as it was, and the loop goes
    on with the remaining files from that state. *)
Theorem baseline_changes_only_on_keep (t : option Q) (st st' : state)
    (f : file_entry) (line : report) (rest : list file_entry) :
  step t st f = (st', line) ->
  (baseline st' <> baseline st ->
   line = Initial (filename f)
   \/ exists d, line = Compared (filename f) (previous_json_filename st)
                                d KEPT)
  /\ (forall name prev d a,
        line = Compared name prev d a -> a <> KEPT ->
        baseline st' = baseline st)
  /\ run t st (f :: rest) =
       (let '(st'', lines) := run t st' rest in (st'', line :: lines)).
Proof.
  intros Hstep. split; [|split].
  - revert Hstep. unfold step.
    destruct (load f) as [doc|].
    + destruct (is_None (previous_json_data st)).
      * intros [= <- <-] _. by left.
      * cbv zeta.
        destruct (decide_action t _ (remove_ok f));
          intros [= <- <-] Hb; try (exfalso; by apply Hb).
        right. eexists. reflexivity.
    + intros [= <- <-] Hb. exfalso. by apply Hb.
  - intros name prev d a -> Ha. revert Hstep. unfold step.
    destruct (load f) as [doc|]; [|discriminate].
    destruct (is_None (previous_json_data st)); [discriminate|].
    cbv zeta.
    destruct (decide_action t _ (remove_ok f));
      intros [= <- _ _ _ <-]; solve [reflexivity | congruence].
  - simpl. rewrite Hstep. reflexivity.
Qed.

Lemma baseline_changes_only_on_keep_witness :
  (baseline (mk_state (JInt 1) (Some "a.json") 0 1)
   <> baseline (mk_state (JInt 1) (Some "a.json") 0 0) ->
   Compared "b.json" (Some "a.json") 0 DELETE_ERROR
   = Initial (filename (mk_file "b.json" (Some (JInt 2)) false))
   \/ exists d,
       Compared "b.json" (Some "a.json") 0 DELETE_ERROR
       = Compared (filename (mk_file "b.json" (Some (JInt 2)) false))
           (previous_json_filename (mk_state (JInt 1) (Some "a.json") 0 0))
           d KEPT)
  /\ (forall name prev d a,
        Compared "b.json" (Some "a.json") 0 DELETE_ERROR
        = Compared name prev d a ->
        a <> KEPT ->
        baseline (mk_state (JInt 1) (Some "a.json") 0 1)
        = baseline (mk_state (JInt 1) (Some "a.json") 0 0))
  /\ run (Some 1%Q) (mk_state (JInt 1) (Some "a.json") 0 0)
         [mk_file "b.json" (Some (JInt 2)) false;
          mk_file "c.json" (Some F1) true]
     = (let '(st'', lines) :=
          run (Some 1%Q) (mk_state (JInt 1) (Some "a.json") 0 1)
              [mk_file "c.json" (Some F1) true] in
        (st'', Compared "b.json" (Some "a.json") 0 DELETE_ERROR :: lines)).
Proof.
  apply (baseline_changes_only_on_keep (Some 1%Q)
           (mk_state (JInt 1) (Some "a.json") 0 0)
           (mk_state (JInt 1) (Some "a.json") 0 1)
           (mk_file "b.json" (Some (JInt 2)) false)
           (Compared "b.json" (Some "a.json") 0 DELETE_ERROR)
           [mk_file "c.json" (Some F1) true]).
  reflexivity.
Defined.

(** ** Documents whose root is a scalar *)

(** C10, as stated: a later scalar-rooted document is not always deleted.
    After the document [null] the loop variable still holds Python's
    [None], so the next file is taken for the initial one and kept; and a
    file whose removal raises [OSError] stays, with the error recorded. *)
Lemma later_scalar_document_not_deleted :
  compare_and_delete_jsons
    [mk_file "a.json" (Some JNull) true;
     mk_file "b.json" (Some (JInt 5)) true]
    (Some 50%Q)
  = (mk_state (JInt 5) (Some "b.json") 0 0,
     [Initial "a.json"; Initial "b.json"])
  /\ compare_and_delete_jsons
       [mk_file "a.json" (Some (JInt 4)) true;
        mk_file "b.json" (Some (JInt 5)) false]
       (Some 50%Q)
     = (mk_state (JInt 4) (Some "a.json") 0 1,
        [Initial "a.json";
         Compared "b.json" (Some "a.json") 0 DELETE_ERROR]).
Proof. split; reflexivity. Qed.

(** C10, amended: a scalar root flattens to no path at all, two scalar
    roots are at distance 0, and with a positive threshold a scalar-rooted
    document compared with a scalar baseline other than [null] meets the
    deletion test: it is deleted when [os.remove] succeeds, the failure is
    recorded otherwise, and the baseline stays. *)
Theorem scalar_roots_are_duplicates (a b : scalar) (t : Q) (st : state)
    (f : file_entry) :
  (0 < t)%Q ->
  load f = Some (JScalar a) ->
  previous_json_data st = JScalar b ->
  b <> SNone ->
  flatten_json_to_paths (JScalar a) "" = []
  /\ calculate_json_difference_percentage (JScalar a) (JScalar b) = 0%Q
  /\ step (Some t) st f =
       (mk_state (JScalar b) (previous_json_filename st)
                 (if remove_ok f then S (deleted_count st)
                  else deleted_count st)
                 (S (total_compared st)),
        Compared (filename f) (previous_json_filename st) 0
                 (if remove_ok f then DELETED else DELETE_ERROR)).
Proof.
  intros Ht Hload Hprev Hb. split; [reflexivity|]. split; [reflexivity|].
  unfold step. rewrite Hload, Hprev.
  assert (is_None (JScalar b) = false) as -> by (by destruct b).
  cbv zeta. rewrite difference_scalar_roots.
  unfold decide_action.
  assert (Qltb 0 t = true) as -> by (by apply Qltb_lt).
  destruct (remove_ok f); reflexivity.
Qed.

Lemma scalar_roots_are_duplicates_witness :
  flatten_json_to_paths (JScalar (SStr "b")) "" = []
  /\ calculate_json_difference_percentage
       (JScalar (SStr "b")) (JScalar (SInt 7)) = 0%Q
  /\ step (Some (1 # 2)) (mk_state (JInt 7) (Some "a.json") 0 0)
          (mk_file "b.json" (Some (JStr "b")) true) =
       (mk_state (JScalar (SInt 7)) (Some "a.json") 1 1,
        Compared "b.json" (Some "a.json") 0 DELETED).
Proof.
  apply (scalar_roots_are_duplicates (SStr "b") (SInt 7) (1 # 2)
           (mk_state (JInt 7) (Some "a.json") 0 0)
           (mk_file "b.json" (Some (JStr "b")) true)).
  - reflexivity.
  - reflexivity.
  - reflexivity.
  - discriminate.
Defined.

(** ** The pairwise scan of [widgets_values] *)

Lemma seed_like_not_control (x : json) :
  is_seed_like x = true -> is_control_str x = false.
Proof. by destruct x as [[]| |]. Qed.

Lemma rewrite_widget_control (y : json) (next : option json) :
  is_control_str y = true -> rewrite_widget y next = JStr "fixed".
Proof.
  intros H. unfold rewrite_widget. rewrite H.
  destruct (is_seed_like y) eqn:E; [|reflexivity].
  apply seed_like_not_control in E. congruence.
Qed.

Lemma widgets_loop_app (rest done : list json) :
  widgets_loop (length rest) (length done) (done ++ rest)
  = done ++ scan_spec rest.
Proof.
  remember (length rest) as n eqn:Hn. revert rest done Hn.
  induction n as [|n IH]; intros [|x tl] done Hn; try discriminate.
  - simpl. reflexivity.
  - injection Hn as ->.
    simpl widgets_loop. unfold widgets_body.
    rewrite (list_lookup_middle done tl x (length done) eq_refl).
    assert (Hnext : (done ++ x :: tl) !! (length done + 1) = head tl).
    { rewrite lookup_app_r by lia.
      replace (length done + 1 - length done) with 1 by lia.
      by destruct tl. }
    rewrite Hnext.
    assert (Hstep : forall z, done ++ z :: tl = (done ++ [z]) ++ tl)
      by (intros z; by rewrite <- app_assoc).
    assert (Hlen : forall z : json, S (length done) = length (done ++ [z]))
      by (intros z; rewrite length_app; simpl; lia).
    destruct (is_seed_like x) eqn:Hseed.
    + destruct tl as [|y tl'].
      * simpl. rewrite andb_false_r. simpl.
        unfold rewrite_widget. rewrite Hseed. simpl.
        by rewrite (seed_like_not_control x Hseed).
      * assert ((length done + 1 <? length (done ++ x :: y :: tl')) = true)
          as -> by (apply Nat.ltb_lt; rewrite length_app; simpl; lia).
        simpl from_option. simpl andb.
        destruct (is_control_str y) eqn:Hy.
        -- replace (<[length done + 1:=JStr "fixed"]>
                     (<[length done:=JInt 0]> (done ++ x :: y :: tl')))
             with ((done ++ [JInt 0]) ++ JStr "fixed" :: tl').
           2:{ replace (length done) with (length done + 0) at 2 by lia.
               rewrite insert_app_r. simpl.
               rewrite insert_app_r. simpl. by rewrite <- app_assoc. }
           rewrite (Hlen (JInt 0)), IH by done.
           rewrite <- app_assoc. simpl.
           assert (rewrite_widget x (Some y) = JInt 0) as ->
             by (unfold rewrite_widget; simpl; by rewrite Hseed, Hy).
           rewrite !rewrite_widget_control by done. reflexivity.
        -- rewrite (Hstep x), (Hlen x), IH by done.
           rewrite <- app_assoc. simpl.
           assert (rewrite_widget x (Some y) = x) as ->; [|done].
           unfold rewrite_widget. simpl. rewrite Hseed, Hy. simpl.
           by rewrite (seed_like_not_control x Hseed).
    + destruct (is_control_str x) eqn:Hx.
      * replace (<[length done:=JStr "fixed"]> (done ++ x :: tl))
          with ((done ++ [JStr "fixed"]) ++ tl).
        2:{ replace (length done) with (length done + 0) at 1 by lia.
            rewrite insert_app_r. simpl. by rewrite <- app_assoc. }
        rewrite (Hlen (JStr "fixed")), IH by done.
        rewrite <- app_assoc. simpl.
        by rewrite rewrite_widget_control.
      * rewrite (Hstep x), (Hlen x), IH by done.
        rewrite <- app_assoc. simpl.
        unfold rewrite_widget. by rewrite Hseed, Hx.
Qed.

(** The in-place loop computes the position-wise rewriting. *)
Lemma widgets_loop_spec (w : list json) :
  widgets_loop (length w) 0 w = scan_spec w.
Proof. apply (widgets_loop_app w []). Qed.

Lemma scan_widgets_list (w : list json) :
  scan_widgets (JList w) = JList (scan_spec w).
Proof. simpl. by rewrite widgets_loop_spec. Qed.

(** ** Normalisation of a mapping, binding by binding *)

Lemma update_if_adjust (key : string) (test : json -> bool)
    (f : json -> json) (d : dict) :
  update_if key test f d = adjust_first key (guarded test f) d.
Proof.
  unfold update_if.
  induction d as [|[k v] r IH]; [reflexivity|]. simpl.
  destruct (String.eqb k key).
  - unfold guarded. by destruct (test v).
  - rewrite <- IH. destruct (dict_get key r) as [v'|]; [|reflexivity].
    by destruct (test v').
Qed.

(** The mapping case of [norm] is such a pass. *)
Lemma norm_dict (n : nat) (d : dict) :
  norm (S n) (JDict d) = JDict (pass (visit_value n) (norm_steps n) d).
Proof.
  cbn [norm]. unfold seed_keys, control_keys_to_normalize.
  cbn [fold_left]. rewrite !update_if_adjust. f_equal.
  apply map_ext. intros [k v]. unfold visit_value.
  destruct (in_strs k skipped_keys); [reflexivity|].
  by destruct (is_dict v || is_list v).
Qed.

Lemma steps_get_del_eq (k : string) (s : steps) :
  steps_get k (steps_del k s) = None.
Proof.
  induction s as [|[k' g] s IH]; [reflexivity|]. simpl.
  destruct (String.eqb k' k) eqn:E; [exact IH|]. simpl. by rewrite E.
Qed.

Lemma steps_get_del_ne (k k' : string) (s : steps) :
  k <> k' -> steps_get k' (steps_del k s) = steps_get k' s.
Proof.
  intros Hne. induction s as [|[k0 g] s IH]; [reflexivity|]. simpl.
  destruct (String.eqb k0 k) eqn:E.
  - apply String.eqb_eq in E. subst k0.
    destruct (String.eqb k k') eqn:E'; [|exact IH].
    apply String.eqb_eq in E'. congruence.
  - simpl. by rewrite IH.
Qed.

Lemma steps_del_absent (k : string) (s : steps) :
  steps_get k s = None -> steps_del k s = s.
Proof.
  induction s as [|[k0 g] s IH]; [reflexivity|]. simpl.
  destruct (String.eqb k0 k); [discriminate|]. intros H. by rewrite IH.
Qed.

Lemma steps_distinct_del (k : string) (s : steps) :
  steps_distinct s -> steps_distinct (steps_del k s).
Proof.
  induction s as [|[k0 g] s IH]; [done|]. simpl. intros [H1 H2].
  destruct (String.eqb k0 k) eqn:E; [by apply IH|]. simpl. split.
  - rewrite steps_get_del_ne; [done|].
    intros ->. by rewrite String.eqb_refl in E.
  - by apply IH.
Qed.

Lemma norm_steps_distinct (n : nat) : steps_distinct (norm_steps n).
Proof. simpl. repeat split. Qed.

(** What the keyed rewritings do to a mapping, read from its head. *)
Lemma adjusts_cons (s : steps) (k : string) (v : json) (r : dict) :
  steps_distinct s ->
  adjusts s ((k, v) :: r) =
    match steps_get k s with
    | Some g => (k, g v) :: adjusts (steps_del k s) r
    | None => (k, v) :: adjusts s r
    end.
Proof.
  revert v r. induction s as [|[k0 g] s IH]; intros v r Hd; [reflexivity|].
  destruct Hd as [H0 Hd]. simpl.
  rewrite (String.eqb_sym k0 k).
  destruct (String.eqb k k0) eqn:E.
  - apply String.eqb_eq in E. subst k0.
    fold (adjusts s ((k, g v) :: r)). rewrite IH by done.
    rewrite H0. by rewrite steps_del_absent.
  - fold (adjusts s ((k, v) :: adjust_first k0 g r)). rewrite IH by done.
    destruct (steps_get k s); reflexivity.
Qed.

Lemma adjusts_nil (s : steps) : adjusts s [] = [].
Proof. induction s as [|[k g] s IH]; [reflexivity|exact IH]. Qed.

Lemma steps_get_del_Some (k k' : string) (s : steps) (g : json -> json) :
  steps_get k' (steps_del k s) = Some g -> steps_get k' s = Some g.
Proof.
  destruct (String.eqb k k') eqn:E.
  - apply String.eqb_eq in E. subst k'. by rewrite steps_get_del_eq.
  - rewrite steps_get_del_ne; [done|].
    intros ->. by rewrite String.eqb_refl in E.
Qed.

Section Pass.
Variable h : string -> json -> json.

Lemma pass_cons (s : steps) (k : string) (v : json) (r : dict) :
  steps_distinct s ->
  pass h s ((k, v) :: r) =
    match steps_get k s with
    | Some g => (k, h k (g v)) :: pass h (steps_del k s) r
    | None => (k, h k v) :: pass h s r
    end.
Proof.
  intros Hd. unfold pass. rewrite adjusts_cons by done.
  by destruct (steps_get k s).
Qed.

(** A pass repeated changes nothing when the rewritings of each binding
    are stable. *)
Lemma pass_idempotent (s : steps) (d : dict) :
  steps_distinct s ->
  (forall k v, (k, v) ∈ d -> h k (h k v) = h k v) ->
  (forall k v g, (k, v) ∈ d -> steps_get k s = Some g ->
                 h k (g (h k (g v))) = h k (g v)) ->
  pass h s (pass h s d) = pass h s d.
Proof.
  revert s. induction d as [|[k v] r IH]; intros s Hd Hh Hg.
  - unfold pass. by rewrite adjusts_nil, adjusts_nil.
  - rewrite pass_cons by done.
    destruct (steps_get k s) as [g|] eqn:E.
    + rewrite pass_cons, E by done. f_equal.
      * f_equal. apply Hg; [left|done].
      * apply IH.
        -- by apply steps_distinct_del.
        -- intros k' v' Hin. apply Hh. by right.
        -- intros k' v' g' Hin Hs. apply Hg; [by right|].
           by eapply steps_get_del_Some.
    + rewrite pass_cons, E by done. f_equal.
      * f_equal. apply Hh. left.
      * apply IH; [done| |].
        -- intros k' v' Hin. apply Hh. by right.
        -- intros k' v' g' Hin Hs. apply Hg; [by right|done].
Qed.

(** A measure of the values that no rewriting changes is the same, binding
    by binding, after the pass. *)
Lemma pass_preserves {A} (phi : json -> A) (s : steps) (d : dict) :
  steps_distinct s ->
  (forall k v, (k, v) ∈ d -> phi (h k v) = phi v) ->
  (forall k v g, (k, v) ∈ d -> steps_get k s = Some g ->
                 phi (h k (g v)) = phi v) ->
  map (fun '(k, v) => (k, phi v)) (pass h s d)
  = map (fun '(k, v) => (k, phi v)) d.
Proof.
  revert s. induction d as [|[k v] r IH]; intros s Hd Hh Hg.
  - unfold pass. by rewrite adjusts_nil.
  - rewrite pass_cons by done.
    destruct (steps_get k s) as [g|] eqn:E; simpl; f_equal.
    + f_equal. apply Hg; [left|done].
    + apply IH.
      * by apply steps_distinct_del.
      * intros k' v' Hin. apply Hh. by right.
      * intros k' v' g' Hin Hs. apply Hg; [by right|].
        by eapply steps_get_del_Some.
    + f_equal. apply Hh. left.
    + apply IH; [done| |].
      * intros k' v' Hin. apply Hh. by right.
      * intros k' v' g' Hin Hs. apply Hg; [by right|done].
Qed.

(** The first binding of a key after the pass. *)
Lemma dict_get_pass (key : string) (s : steps) (d : dict) :
  steps_distinct s ->
  dict_get key (pass h s d) =
    (fun v => h key (from_option (fun g => g v) v (steps_get key s)))
      <$> dict_get key d.
Proof.
  revert s. induction d as [|[k v] r IH]; intros s Hd.
  - unfold pass. by rewrite adjusts_nil.
  - rewrite pass_cons by done. simpl.
    destruct (String.eqb k key) eqn:Ek.
    + apply String.eqb_eq in Ek. subst k.
      destruct (steps_get key s); simpl; by rewrite String.eqb_refl.
    + assert (k <> key) by (intros ->; by rewrite String.eqb_refl in Ek).
      destruct (steps_get k s) eqn:E; simpl; rewrite Ek.
      * rewrite IH by (by apply steps_distinct_del).
        by rewrite steps_get_del_ne.
      * by rewrite IH.
Qed.
End Pass.

(** ** Normalisation keeps the shape of a tree *)

Lemma norm_list (n : nat) (l : list json) :
  norm (S n) (JList l) = JList (map (norm n) l).
Proof. reflexivity. Qed.

Lemma norm_is_dict (n : nat) (v : json) : is_dict (norm n v) = is_dict v.
Proof.
  destruct n as [|n]; [reflexivity|].
  destruct v as [s|l|d]; [reflexivity|reflexivity|].
  by rewrite norm_dict.
Qed.

Lemma norm_is_list (n : nat) (v : json) : is_list (norm n v) = is_list v.
Proof.
  destruct n as [|n]; [reflexivity|].
  destruct v as [s|l|d]; [reflexivity|reflexivity|].
  by rewrite norm_dict.
Qed.

Lemma norm_not_container (n : nat) (v : json) :
  is_dict v || is_list v = false -> norm n v = v.
Proof. destruct v; [intros _; apply norm_scalar|discriminate..]. Qed.

Lemma norm_is_seed_like (n : nat) (v : json) :
  is_seed_like (norm n v) = is_seed_like v.
Proof.
  destruct v as [s|l|d]; [by rewrite norm_scalar| |].
  - destruct n; reflexivity.
  - destruct n; [reflexivity|]. by rewrite norm_dict.
Qed.

Lemma norm_is_control_str (n : nat) (v : json) :
  is_control_str (norm n v) = is_control_str v.
Proof.
  destruct v as [s|l|d]; [by rewrite norm_scalar| |].
  - destruct n; reflexivity.
  - destruct n; [reflexivity|]. by rewrite norm_dict.
Qed.

Lemma norm_is_int_or_float (n : nat) (v : json) :
  is_int_or_float (norm n v) = is_int_or_float v.
Proof.
  destruct v as [s|l|d]; [by rewrite norm_scalar| |].
  - destruct n; reflexivity.
  - destruct n; [reflexivity|]. by rewrite norm_dict.
Qed.

Lemma norm_is_str (n : nat) (v : json) : is_str (norm n v) = is_str v.
Proof.
  destruct v as [s|l|d]; [by rewrite norm_scalar| |].
  - destruct n; reflexivity.
  - destruct n; [reflexivity|]. by rewrite norm_dict.
Qed.

(** ** The scan: stability, commutation with the recursion, heights *)

Lemma rewrite_widget_is_control (x : json) (next : option json) :
  is_control_str (rewrite_widget x next) = is_control_str x.
Proof.
  unfold rewrite_widget.
  destruct (is_seed_like x) eqn:Hs; simpl.
  - rewrite (seed_like_not_control x Hs).
    destruct (from_option is_control_str false next); [reflexivity|].
    apply (seed_like_not_control x Hs).
  - by destruct (is_control_str x) eqn:Hc.
Qed.

Lemma head_scan_spec_control (w : list json) :
  from_option is_control_str false (head (scan_spec w))
  = from_option is_control_str false (head w).
Proof.
  destruct w as [|x tl]; [reflexivity|]. apply rewrite_widget_is_control.
Qed.

Lemma rewrite_widget_stable (x : json) (next next' : option json) :
  from_option is_control_str false next'
  = from_option is_control_str false next ->
  rewrite_widget (rewrite_widget x next) next' = rewrite_widget x next.
Proof.
  intros E.
  assert (Hr : rewrite_widget x next =
               if is_seed_like x && from_option is_control_str false next
               then JInt 0
               else if is_control_str x then JStr "fixed" else x)
    by reflexivity.
  destruct (is_seed_like x) eqn:Hs;
    destruct (from_option is_control_str false next) eqn:Hn;
    destruct (is_control_str x) eqn:Hc;
    simpl in Hr; rewrite Hr; unfold rewrite_widget; rewrite E;
    try reflexivity; by rewrite ?Hs, ?Hc.
Qed.

Lemma scan_spec_idempotent (w : list json) :
  scan_spec (scan_spec w) = scan_spec w.
Proof.
  induction w as [|x tl IH]; [reflexivity|]. simpl. f_equal; [|exact IH].
  apply rewrite_widget_stable, head_scan_spec_control.
Qed.

Lemma scan_widgets_idempotent (v : json) :
  scan_widgets (scan_widgets v) = scan_widgets v.
Proof.
  destruct v as [s|w|d]; [reflexivity| |reflexivity].
  by rewrite !scan_widgets_list, scan_spec_idempotent.
Qed.

Lemma rewrite_widget_norm (n : nat) (x : json) (next : option json) :
  rewrite_widget (norm n x) (norm n <$> next) = norm n (rewrite_widget x next).
Proof.
  unfold rewrite_widget.
  rewrite norm_is_seed_like, norm_is_control_str.
  assert (from_option is_control_str false (norm n <$> next)
          = from_option is_control_str false next) as ->.
  { destruct next; [apply norm_is_control_str|reflexivity]. }
  destruct (is_seed_like x && from_option is_control_str false next).
  - symmetry. apply norm_scalar.
  - destruct (is_control_str x); [symmetry; apply norm_scalar|reflexivity].
Qed.

Lemma scan_spec_norm (n : nat) (w : list json) :
  scan_spec (map (norm n) w) = map (norm n) (scan_spec w).
Proof.
  induction w as [|x tl IH]; [reflexivity|]. simpl. f_equal; [|exact IH].
  rewrite <- rewrite_widget_norm. f_equal. by destruct tl.
Qed.

Lemma scan_widgets_norm (n : nat) (v : json) :
  scan_widgets (norm n v) = norm n (scan_widgets v).
Proof.
  destruct n as [|n]; [reflexivity|].
  destruct v as [s|w|d]; [reflexivity| |].
  - rewrite norm_list, !scan_widgets_list, norm_list. f_equal.
    apply scan_spec_norm.
  - change (scan_widgets (JDict d)) with (JDict d). by rewrite norm_dict.
Qed.

Lemma rewrite_widget_depth (x : json) (next : option json) :
  depth (rewrite_widget x next) = depth x.
Proof.
  unfold rewrite_widget.
  destruct (is_seed_like x) eqn:Hs.
  - destruct x as [s| |]; [|discriminate..].
    by destruct (from_option is_control_str false next), (is_control_str _).
  - simpl. destruct (is_control_str x) eqn:Hc; [|reflexivity].
    by destruct x.
Qed.

Lemma scan_widgets_depth (v : json) : depth (scan_widgets v) = depth v.
Proof.
  destruct v as [s|w|d]; [reflexivity| |reflexivity].
  rewrite scan_widgets_list. simpl. do 2 f_equal.
  induction w as [|x tl IH]; [reflexivity|]. simpl.
  by rewrite rewrite_widget_depth, IH.
Qed.

(** ** Heights and idempotence *)

Lemma visit_value_norm (n : nat) (k : string) (v : json) :
  visit_value n k v = if in_strs k skipped_keys then v else norm n v.
Proof.
  unfold visit_value. destruct (in_strs k skipped_keys); [reflexivity|].
  destruct (is_dict v || is_list v) eqn:E; [reflexivity|].
  symmetry. by apply norm_not_container.
Qed.

Lemma steps_get_norm_steps (n : nat) (k : string) (g : json -> json) :
  steps_get k (norm_steps n) = Some g ->
  in_strs k skipped_keys = false
  /\ (g = guarded is_int_or_float (fun _ => JInt 0)
      \/ g = guarded is_str (fun _ => JStr "fixed")
      \/ g = guarded is_list scan_widgets
      \/ g = guarded is_dict (norm n)).
Proof.
  unfold norm_steps. cbn [steps_get].
  repeat match goal with
         | |- context [String.eqb ?a k] =>
             let E := fresh "E" in
             destruct (String.eqb a k) eqn:E;
             [apply String.eqb_eq in E; subst k; intros [= <-];
              split; [reflexivity|tauto]|clear E]
         end.
  discriminate.
Qed.

Lemma list_max_map_le {A} (f : A -> nat) (l : list A) (x : A) :
  x ∈ l -> f x <= list_max (map f l).
Proof.
  intros Hx. induction Hx as [x l|x y l Hx IH]; simpl; lia.
Qed.

Lemma depth_dict_value (d : dict) (k : string) (v : json) (n : nat) :
  depth (JDict d) <= S n -> (k, v) ∈ d -> depth v <= n.
Proof.
  simpl. intros Hd Hin.
  pose proof (list_max_map_le (fun '(_, v) => depth v) d (k, v) Hin).
  simpl in *. lia.
Qed.

Lemma depth_list_item (l : list json) (x : json) (n : nat) :
  depth (JList l) <= S n -> x ∈ l -> depth x <= n.
Proof.
  simpl. intros Hd Hin. pose proof (list_max_map_le depth l x Hin). lia.
Qed.

Lemma norm_depth (n : nat) (t : json) : depth (norm n t) = depth t.
Proof.
  revert t. induction n as [|n IH]; intros t; [reflexivity|].
  destruct t as [s|l|d]; [reflexivity| |].
  - rewrite norm_list. simpl. rewrite map_map. do 2 f_equal.
    apply map_ext. intros x. apply IH.
  - rewrite norm_dict.
    pose proof (pass_preserves (visit_value n) depth (norm_steps n) d
                  (norm_steps_distinct n)) as Hp.
    assert (Hm : forall l : dict,
               map (fun '(_, v) => depth v) l
               = map snd (map (fun '(k, v) => (k, depth v)) l)).
    { intros l. rewrite map_map. apply map_ext. by intros []. }
    simpl. rewrite (Hm (pass _ _ _)), (Hm d), Hp; [reflexivity| |].
    + intros k v _. rewrite visit_value_norm.
      destruct (in_strs k skipped_keys); [reflexivity|apply IH].
    + intros k v g _ Hg.
      apply steps_get_norm_steps in Hg as [Hk Hg].
      rewrite visit_value_norm, Hk, IH.
      destruct Hg as [-> | [-> | [-> | ->]]]; unfold guarded.
      * destruct (is_int_or_float v) eqn:E; [|reflexivity].
        by destruct v.
      * destruct (is_str v) eqn:E; [|reflexivity]. by destruct v.
      * destruct (is_list v); [apply scan_widgets_depth|reflexivity].
      * destruct (is_dict v); [apply IH|reflexivity].
Qed.

Lemma guarded_depth (n : nat) (k : string) (g : json -> json) (v : json) :
  steps_get k (norm_steps n) = Some g -> depth (g v) = depth v.
Proof.
  intros Hg. apply steps_get_norm_steps in Hg as [_ Hg].
  destruct Hg as [-> | [-> | [-> | ->]]]; unfold guarded.
  - destruct (is_int_or_float v) eqn:E; [|reflexivity]. by destruct v.
  - destruct (is_str v) eqn:E; [|reflexivity]. by destruct v.
  - destruct (is_list v); [apply scan_widgets_depth|reflexivity].
  - destruct (is_dict v); [apply norm_depth|reflexivity].
Qed.

(** Each keyed rewriting commutes with the recursion on its value. *)
Lemma guarded_norm (n m : nat) (k : string) (g : json -> json) (v : json) :
  steps_get k (norm_steps n) = Some g -> g (norm n v) = norm n (g v).
Proof.
  intros Hg. apply steps_get_norm_steps in Hg as [_ Hg].
  destruct Hg as [-> | [-> | [-> | ->]]]; unfold guarded.
  - rewrite norm_is_int_or_float.
    destruct (is_int_or_float v);
      [symmetry; apply (norm_scalar n (SInt 0))|reflexivity].
  - rewrite norm_is_str.
    destruct (is_str v);
      [symmetry; apply (norm_scalar n (SStr "fixed"))|reflexivity].
  - rewrite norm_is_list.
    destruct (is_list v); [apply scan_widgets_norm|reflexivity].
  - rewrite norm_is_dict. by destruct (is_dict v).
Qed.

Lemma norm_idempotent_fuel (n : nat) (t : json) :
  depth t <= n -> norm n (norm n t) = norm n t.
Proof.
  revert t. induction n as [|n IH]; intros t Ht; [reflexivity|].
  destruct t as [s|l|d]; [reflexivity| |].
  - rewrite !norm_list. f_equal. rewrite map_map.
    apply map_ext_in. intros x Hx. apply IH.
    eapply depth_list_item; [exact Ht|]. by apply list_elem_of_In.
  - rewrite !norm_dict. f_equal.
    apply pass_idempotent; [apply norm_steps_distinct| |].
    + intros k v Hin. rewrite !visit_value_norm.
      destruct (in_strs k skipped_keys); [reflexivity|].
      apply IH. by eapply depth_dict_value.
    + intros k v g Hin Hg.
      pose proof (depth_dict_value d k v n Ht Hin) as Hv.
      pose proof (guarded_norm n n k g) as Hc.
      pose proof (guarded_depth n k g) as Hdep.
      destruct (steps_get_norm_steps n k g Hg) as [Hk Hcases].
      rewrite !visit_value_norm, Hk.
      rewrite Hc by done.
      assert (Hgg : norm n (g (g v)) = norm n (g v)).
      { destruct Hcases as [-> | [-> | [-> | ->]]]; unfold guarded.
        - destruct (is_int_or_float v) eqn:E; cbv beta; [reflexivity|].
          by rewrite E.
        - destruct (is_str v) eqn:E; cbv beta; [reflexivity|].
          by rewrite E.
        - destruct (is_list v) eqn:E; [|by rewrite E].
          destruct v as [|w|]; try discriminate.
          rewrite scan_widgets_list. simpl is_list. cbv iota.
          by rewrite scan_widgets_list, scan_spec_idempotent.
        - destruct (is_dict v) eqn:E; [|by rewrite E].
          rewrite norm_is_dict, E. by rewrite !(IH v Hv). }
      rewrite IH by (rewrite !Hdep by done; lia).
      exact Hgg.
Qed.

(** C7: normalising a normalised tree changes nothing. *)
Theorem normalize_idempotent (T : json) :
  normalize_workflow_seeds (normalize_workflow_seeds T)
  = normalize_workflow_seeds T.
Proof.
  unfold normalize_workflow_seeds. rewrite norm_depth.
  apply norm_idempotent_fuel. lia.
Qed.

(** ** Enough fuel *)

(** Two passes agree when, binding by binding, their rewritings agree. *)
Lemma pass_ext (h h' : string -> json -> json) (s s' : steps) (d : dict) :
  steps_distinct s -> steps_distinct s' ->
  (forall k, steps_get k s = None <-> steps_get k s' = None) ->
  (forall k v, (k, v) ∈ d -> h k v = h' k v) ->
  (forall k v g g', (k, v) ∈ d ->
     steps_get k s = Some g -> steps_get k s' = Some g' ->
     h k (g v) = h' k (g' v)) ->
  pass h s d = pass h' s' d.
Proof.
  revert s s'. induction d as [|[k v] r IH]; intros s s' Hs Hs' Hk Hh Hg.
  - unfold pass. by rewrite !adjusts_nil.
  - rewrite !pass_cons by done.
    destruct (steps_get k s) as [g|] eqn:E, (steps_get k s') as [g'|] eqn:E'.
    + f_equal; [f_equal; apply Hg; [left|done..]|].
      apply IH; [by apply steps_distinct_del..| | |].
      * intros k'. destruct (String.eqb k k') eqn:Ek.
        -- apply String.eqb_eq in Ek. subst k'.
           by rewrite !steps_get_del_eq.
        -- assert (k <> k') by (intros ->; by rewrite String.eqb_refl in Ek).
           rewrite !steps_get_del_ne by done. apply Hk.
      * intros k' v' Hin. apply Hh. by right.
      * intros k' v' g0 g0' Hin H1 H2.
        apply Hg; [by right|by eapply steps_get_del_Some..].
    + apply Hk in E'. congruence.
    + apply Hk in E. congruence.
    + f_equal; [f_equal; apply Hh; left|].
      apply IH; [done..| |].
      * intros k' v' Hin. apply Hh. by right.
      * intros k' v' g0 g0' Hin H1 H2. apply Hg; [by right|done..].
Qed.

Lemma steps_get_norm_steps_fuel (n m : nat) (k : string) :
  (steps_get k (norm_steps n) = None <-> steps_get k (norm_steps m) = None)
  /\ forall g g',
       steps_get k (norm_steps n) = Some g ->
       steps_get k (norm_steps m) = Some g' ->
       g = g'
       \/ (g = guarded is_dict (norm n) /\ g' = guarded is_dict (norm m)).
Proof.
  unfold norm_steps. cbn [steps_get].
  repeat match goal with
         | |- context [String.eqb ?a k] =>
             destruct (String.eqb a k);
             [split; [split; discriminate|];
              intros g g' [= <-] [= <-]; tauto|]
         end.
  split; [done|discriminate].
Qed.

(** More calls than the height of the tree needs give the same tree. *)
Lemma norm_fuel_enough (n m : nat) (t : json) :
  depth t <= n -> depth t <= m -> norm n t = norm m t.
Proof.
  revert m t. induction n as [|n IH]; intros m t Hn Hm.
  - destruct t; simpl in Hn; try lia. symmetry. apply norm_scalar.
  - destruct m as [|m].
    + destruct t; simpl in Hm; try lia. reflexivity.
    + destruct t as [s|l|d]; [reflexivity| |].
      * rewrite !norm_list. f_equal. apply map_ext_in. intros x Hx.
        apply list_elem_of_In in Hx.
        apply IH; by eapply depth_list_item.
      * rewrite !norm_dict. f_equal.
        apply pass_ext; try apply norm_steps_distinct.
        -- intros k. apply steps_get_norm_steps_fuel.
        -- intros k v Hin. rewrite !visit_value_norm.
           destruct (in_strs k skipped_keys); [reflexivity|].
           apply IH; by eapply depth_dict_value.
        -- intros k v g g' Hin Hg Hg'.
           pose proof (depth_dict_value d k v n Hn Hin) as Hvn.
           pose proof (depth_dict_value d k v m Hm Hin) as Hvm.
           rewrite !visit_value_norm.
           destruct (steps_get_norm_steps n k g Hg) as [-> _].
           destruct (steps_get_norm_steps_fuel n m k) as [_ Hc].
           destruct (Hc g g' Hg Hg') as [<- | [-> ->]].
           ++ apply IH; rewrite (guarded_depth n k g) by done; lia.
           ++ unfold guarded. destruct (is_dict v); [|by apply IH].
              rewrite <- (IH m v) by done.
              apply IH; rewrite norm_depth; lia.
Qed.

Lemma normalize_fuel (n : nat) (t : json) :
  depth t <= n -> norm n t = normalize_workflow_seeds t.
Proof. intros H. apply norm_fuel_enough; [done|lia]. Qed.

(** ** The seed/control pairs of [widgets_values] *)

Lemma scan_spec_lookup (w : list json) (i : nat) :
  scan_spec w !! i = (fun x => rewrite_widget x (w !! S i)) <$> w !! i.
Proof.
  revert i. induction w as [|x tl IH]; intros i; [reflexivity|].
  destruct i as [|i]; simpl.
  - by destruct tl.
  - apply IH.
Qed.

Lemma map_lookup {A B} (f : A -> B) (l : list A) (i : nat) :
  map f l !! i = f <$> l !! i.
Proof.
  revert i. induction l as [|x l IH]; intros [|i]; simpl; auto.
Qed.

(** C4, as stated: a negative integer and a float in front of a control
    word are not rewritten (the control words are). *)
Lemma negative_and_float_seeds_are_kept :
  normalize_workflow_seeds
    (JDict [("widgets_values",
             JList [JInt (-5); JStr "randomize";
                    JScalar (SFloat (S754_finite false 3 (-1)));
                    JStr "increment"])])
  = JDict [("widgets_values",
            JList [JInt (-5); JStr "fixed";
                   JScalar (SFloat (S754_finite false 3 (-1)));
                   JStr "fixed"])].
Proof. reflexivity. Qed.

(** C4, amended: in the [widgets_values] list of a mapping, a numeric
    element followed by a control word (any letter case) is rewritten to 0
    when it is an [int] (a [bool] included) greater than -1, and left as it
    is when it is a negative [int] or a [float]; the control word becomes
    ["fixed"] in both cases. *)
Theorem widgets_pair_is_rewritten (d : dict) (w : list json) (i : nat)
    (x y : json) :
  dict_get "widgets_values" d = Some (JList w) ->
  w !! i = Some x ->
  w !! S i = Some y ->
  is_int_or_float x = true ->
  is_control_str y = true ->
  exists d' w',
    normalize_workflow_seeds (JDict d) = JDict d'
    /\ dict_get "widgets_values" d' = Some (JList w')
    /\ w' !! i = Some (if is_seed_like x then JInt 0 else x)
    /\ w' !! S i = Some (JStr "fixed").
Proof.
  intros Hget Hx Hy Hnum Hctl.
  unfold normalize_workflow_seeds.
  rewrite norm_dict.
  remember (depth (JDict d)) as n eqn:Hn.
  destruct n as [|m]; [discriminate|].
  exists (pass (visit_value (S m)) (norm_steps (S m)) d),
         (map (norm m) (scan_spec w)).
  split; [reflexivity|]. split.
  - rewrite dict_get_pass by apply norm_steps_distinct.
    rewrite Hget. cbn [fmap option_fmap option_map].
    change (steps_get "widgets_values" (norm_steps (S m)))
      with (Some (guarded is_list scan_widgets)).
    cbn [from_option]. unfold guarded. cbn [is_list].
    rewrite scan_widgets_list, visit_value_norm.
    reflexivity.
  - rewrite !map_lookup, !scan_spec_lookup, Hx, Hy.
    cbn [fmap option_fmap option_map].
    rewrite (rewrite_widget_control y) by done.
    split; [|f_equal; apply (norm_scalar m (SStr "fixed"))]. f_equal.
    unfold rewrite_widget. cbn [from_option]. rewrite Hctl.
    destruct x as [s| |]; try discriminate.
    destruct (is_seed_like (JScalar s)); simpl; [apply norm_scalar|].
    destruct s; try discriminate; apply norm_scalar.
Qed.

Lemma widgets_pair_is_rewritten_witness :
  exists d' w',
    normalize_workflow_seeds
      (JDict [("id", JInt 3);
              ("widgets_values",
               JList [JStr "euler"; JInt 123456; JStr "Randomize"; JInt 20])])
    = JDict d'
    /\ dict_get "widgets_values" d' = Some (JList w')
    /\ w' !! 1 = Some (if is_seed_like (JInt 123456) then JInt 0
                        else JInt 123456)
    /\ w' !! 2 = Some (JStr "fixed").
Proof.
  apply (widgets_pair_is_rewritten
           [("id", JInt 3);
            ("widgets_values",
             JList [JStr "euler"; JInt 123456; JStr "Randomize"; JInt 20])]
           [JStr "euler"; JInt 123456; JStr "Randomize"; JInt 20]
           1 (JInt 123456) (JStr "Randomize")); reflexivity.
Defined.

(** ** Leaves and their locations *)

Lemma leaves_list (l : list json) : leaves (JList l) = list_leaves 0 l.
Proof.
  simpl. generalize 0. induction l as [|v r IH]; intros i; [reflexivity|].
  simpl. by rewrite IH.
Qed.

Lemma flatten_dict (n : nat) (d : dict) (path : string) :
  flatten (S n) (JDict d) path
  = flat_map (fun '(k, v) => visit_item n (key_path path k) v)
             (sorted_items d).
Proof. reflexivity. Qed.

Lemma flatten_list (n : nat) (l : list json) (path : string) :
  flatten (S n) (JList l) path
  = flat_map (fun '(i, v) => visit_item n (index_path path i) v)
             (enumerate l).
Proof. reflexivity. Qed.

Lemma insert_item_perm (x : string * json) (l : dict) :
  insert_item x l ≡ₚ x :: l.
Proof.
  induction l as [|y r IH]; [reflexivity|]. simpl.
  destruct (String.leb x.1 y.1); [reflexivity|].
  rewrite IH. apply perm_swap.
Qed.

Lemma sorted_items_perm (d : dict) : sorted_items d ≡ₚ d.
Proof.
  induction d as [|x r IH]; [reflexivity|]. simpl.
  by rewrite insert_item_perm, IH.
Qed.

Lemma enumerate_from {A} (i : nat) (x : A) (l : list A) :
  zip (seq i (length (x :: l))) (x :: l)
  = (i, x) :: zip (seq (S i) (length l)) l.
Proof. reflexivity. Qed.

(** [flatten] lists the leaves of a sequence or mapping, each under the
    rendering of its route; only the order of the list depends on the
    sorting of the keys. *)
Lemma flatten_leaves (n : nat) (t : json) (path : string) :
  depth t <= n -> is_container t = true ->
  flatten n t path ≡ₚ map (rendered path) (leaves t).
Proof.
  revert t path. induction n as [|n IH]; intros t path Hd Hc.
  { destruct t; simpl in Hd; try lia. discriminate. }
  assert (Hvisit : forall v np st, depth v <= n ->
             render path [st] = np ->
             visit_item n np v
             ≡ₚ map (rendered path) (map (under st) (leaves v))).
  { intros v np st Hv Hnp.
    assert (Hr : forall leaf,
               rendered path (under st leaf) = rendered np leaf).
    { intros [loc s]. unfold rendered, under. simpl. f_equal.
      rewrite <- Hnp. by destruct st. }
    rewrite map_map. rewrite (map_ext _ _ Hr).
    destruct v as [s|l|d]; [reflexivity|apply IH; done..]. }
  destruct t as [s|l|d]; [discriminate| |].
  - rewrite flatten_list, leaves_list. unfold enumerate.
    assert (Hl : forall x, x ∈ l -> depth x <= n)
      by (intros x; by apply depth_list_item).
    clear Hd Hc. generalize 0 as i.
    induction l as [|v r IHl]; intros i; [reflexivity|].
    rewrite enumerate_from. simpl. rewrite map_app.
    apply Permutation_app.
    + apply Hvisit; [apply Hl; left|reflexivity].
    + apply IHl. intros x Hx. apply Hl. by right.
  - rewrite flatten_dict. rewrite (sorted_items_perm d).
    assert (Hl : forall k v, (k, v) ∈ d -> depth v <= n)
      by (intros k v; by apply depth_dict_value).
    clear Hd Hc. simpl leaves.
    induction d as [|[k v] r IHd]; [reflexivity|].
    simpl. rewrite map_app. apply Permutation_app.
    + apply Hvisit; [eapply Hl; left|reflexivity].
    + apply IHd. intros k' v' Hx. eapply Hl. by right.
Qed.

(** More calls than the height of the tree needs list the same paths. *)
Lemma flatten_fuel_enough (n m : nat) (t : json) (path : string) :
  depth t <= n -> depth t <= m -> flatten n t path = flatten m t path.
Proof.
  revert m t path. induction n as [|n IH]; intros m t path Hn Hm.
  { destruct t; simpl in Hn; try lia. by rewrite !flatten_scalar. }
  destruct m as [|m].
  { destruct t; simpl in Hm; try lia. by rewrite !flatten_scalar. }
  assert (Hvisit : forall v np, depth v <= n -> depth v <= m ->
                                visit_item n np v = visit_item m np v).
  { intros [s|l|d] np H1 H2; [reflexivity|apply IH; done..]. }
  assert (Hext : forall {A} (f g : A -> list path_value) (l : list A),
             (forall x, x ∈ l -> f x = g x) -> flat_map f l = flat_map g l).
  { intros A f g l H. induction l as [|x l IHl]; [reflexivity|]. simpl.
    rewrite (H x) by left. f_equal. apply IHl. intros y Hy. apply H. by right. }
  destruct t as [s|l|d]; [reflexivity| |].
  - rewrite !flatten_list. apply Hext. intros [i v] Hin.
    apply elem_of_zip_r in Hin.
    apply Hvisit; by eapply depth_list_item.
  - rewrite !flatten_dict. apply Hext. intros [k v] Hin.
    rewrite (sorted_items_perm d) in Hin.
    apply Hvisit; by eapply depth_dict_value.
Qed.

(** The order of the entries of a mapping does not change what is listed. *)
Lemma flatten_dict_order (d1 d2 : dict) (path : string) :
  d1 ≡ₚ d2 ->
  flatten_json_to_paths (JDict d1) path
  ≡ₚ flatten_json_to_paths (JDict d2) path.
Proof.
  intros Hp. unfold flatten_json_to_paths.
  rewrite !flatten_leaves by (done || lia).
  apply Permutation_map. simpl. by rewrite Hp.
Qed.

(** ** Path strings *)

Lemma append_cons (x : ascii) (a b : string) :
  String x a +:+ b = String x (a +:+ b).
Proof. reflexivity. Qed.

Lemma append_nil_l (a : string) : "" +:+ a = a.
Proof. reflexivity. Qed.

Lemma append_assoc (a b c : string) : (a +:+ b) +:+ c = a +:+ b +:+ c.
Proof.
  induction a as [|x a IH]; [reflexivity|]. by rewrite !append_cons, IH.
Qed.

Lemma append_nil_r (a : string) : a +:+ "" = a.
Proof.
  induction a as [|x a IH]; [reflexivity|]. by rewrite append_cons, IH.
Qed.

Ltac simpl_append := rewrite ?append_cons, ?append_nil_l.
Ltac simpl_append_in H := rewrite ?append_cons, ?append_nil_l in H.

Lemma append_not_empty (a b : string) : a <> "" -> a +:+ b <> "".
Proof. by destruct a. Qed.

(** Two strings cut at their first character in [P] have equal pieces. *)
Lemma split_at_stop (P : ascii -> bool) (k1 k2 r1 r2 : string) :
  all_chars (fun c => negb (P c)) k1 = true ->
  all_chars (fun c => negb (P c)) k2 = true ->
  stops_at P r1 = true -> stops_at P r2 = true ->
  k1 +:+ r1 = k2 +:+ r2 -> k1 = k2 /\ r1 = r2.
Proof.
  revert k2. induction k1 as [|c k1 IH]; intros [|c' k2] H1 H2 S1 S2 E;
    simpl_append_in E; simpl in *.
  - done.
  - subst r1. simpl in S1. apply andb_prop in H2 as [H2 _].
    rewrite S1 in H2. discriminate.
  - subst r2. simpl in S2. apply andb_prop in H1 as [H1 _].
    rewrite S2 in H1. discriminate.
  - injection E as -> E.
    apply andb_prop in H1 as [_ H1]. apply andb_prop in H2 as [_ H2].
    destruct (IH k2 H1 H2 S1 S2 E) as [-> ->]. done.
Qed.

Lemma render_suffix (path : string) (loc : location) :
  path <> "" -> render path loc = path +:+ suffix loc.
Proof.
  revert path. induction loc as [|[k|i] r IH]; intros path Hp; simpl.
  - by rewrite append_nil_r.
  - unfold key_path. apply String.eqb_neq in Hp as Hp'. rewrite Hp'.
    rewrite IH by (by apply append_not_empty).
    by rewrite !append_assoc.
  - unfold index_path.
    rewrite IH by (by apply append_not_empty).
    by rewrite !append_assoc.
Qed.

Lemma suffix_stops (loc : location) :
  stops_at is_path_delim (suffix loc) = true.
Proof. by destruct loc as [|[k|i] r]. Qed.

Lemma uint_digits (d : Decimal.uint) :
  all_chars (fun c => negb (is_close c)) (NilEmpty.string_of_uint d) = true.
Proof. induction d; simpl; auto. Qed.

Lemma str_of_nat_inj (i j : nat) : str_of_nat i = str_of_nat j -> i = j.
Proof.
  unfold str_of_nat. intros E.
  assert (Some (Nat.to_uint i) = Some (Nat.to_uint j)) as [= H]
    by (by rewrite <- !NilEmpty.usu, E).
  by rewrite <- (Unsigned.of_to i), <- (Unsigned.of_to j), H.
Qed.

Lemma clean_key_chars (k : string) :
  clean_key k = true ->
  k <> "" /\ all_chars (fun c => negb (is_path_delim c)) k = true.
Proof.
  unfold clean_key. intros H. apply andb_prop in H as [H1 H2].
  split; [|done]. apply String.eqb_neq. by apply negb_true_iff.
Qed.

Lemma clean_steps_cons (st : loc_step) (r : location) :
  forallb clean_step (st :: r) = true ->
  clean_step st = true /\ forallb clean_step r = true.
Proof. simpl. apply andb_prop. Qed.

Lemma suffix_inj (l1 l2 : location) :
  forallb clean_step l1 = true -> forallb clean_step l2 = true ->
  suffix l1 = suffix l2 -> l1 = l2.
Proof.
  revert l2.
  induction l1 as [|[k1|i1] r1 IH]; intros [|[k2|i2] r2] C1 C2 E;
    try done;
    apply clean_steps_cons in C1 as [C1 C1'];
    apply clean_steps_cons in C2 as [C2 C2'].
  - simpl in E. simpl_append_in E. injection E as E.
    apply clean_key_chars in C1 as [_ C1], C2 as [_ C2].
    assert (k1 = k2 /\ suffix r1 = suffix r2) as [-> E']
      by (apply (split_at_stop is_path_delim); auto using suffix_stops).
    f_equal. by apply IH.
  - simpl in E. simpl_append_in E. injection E as E.
    assert (str_of_nat i1 = str_of_nat i2
            /\ "]" +:+ suffix r1 = "]" +:+ suffix r2) as [Ei E']
      by (apply (split_at_stop is_close);
          [apply uint_digits|apply uint_digits|reflexivity|reflexivity|
           exact E]).
    apply str_of_nat_inj in Ei as ->. simpl_append_in E'.
    injection E' as E'.
    f_equal. by apply IH.
Qed.

(** C8, the route part: from the root, two routes through clean keys that
    give the same path string are the same route. *)
Lemma render_inj (l1 l2 : location) :
  forallb clean_step l1 = true -> forallb clean_step l2 = true ->
  render "" l1 = render "" l2 -> l1 = l2.
Proof.
  assert (Hk : forall k r, clean_key k = true ->
               render "" (Key k :: r) = k +:+ suffix r).
  { intros k r Hc. simpl. unfold key_path.
    change (String.eqb "" "") with true. cbv iota.
    apply render_suffix. by apply clean_key_chars in Hc as []. }
  assert (Hi : forall i r, render "" (Idx i :: r) = suffix (Idx i :: r)).
  { intros i r. simpl. unfold index_path.
    rewrite render_suffix by done. simpl. by rewrite !append_assoc. }
  destruct l1 as [|[k1|i1] r1], l2 as [|[k2|i2] r2]; intros C1 C2 E;
    try done;
    try (apply clean_steps_cons in C1 as [C1 C1']);
    try (apply clean_steps_cons in C2 as [C2 C2']);
    rewrite ?Hk, ?Hi in E by done.
  - simpl in E. apply clean_key_chars in C2 as [C2 _].
    destruct k2; [done|simpl_append_in E; discriminate].
  - simpl in E. simpl_append_in E. discriminate.
  - simpl in E. apply clean_key_chars in C1 as [C1 _].
    destruct k1; [done|simpl_append_in E; discriminate].
  - pose proof (clean_key_chars _ C1) as [_ H1].
    pose proof (clean_key_chars _ C2) as [_ H2].
    assert (k1 = k2 /\ suffix r1 = suffix r2) as [-> E']
      by (apply (split_at_stop is_path_delim); auto using suffix_stops).
    f_equal. by apply suffix_inj.
  - apply clean_key_chars in C1 as [C1 H1].
    destruct k1 as [|c k1]; [done|]. simpl in E. simpl_append_in E.
    injection E as -> _. simpl in H1. discriminate.
  - simpl in E. simpl_append_in E. discriminate.
  - apply clean_key_chars in C2 as [C2 H2].
    destruct k2 as [|c k2]; [done|]. simpl in E. simpl_append_in E.
    injection E as <- _. simpl in H2. discriminate.
  - apply suffix_inj; simpl; rewrite ?C1', ?C2'; done.
Qed.

(** ** Sets of tuples *)

Lemma set_mem_iff (x : path_value) (s : list path_value) :
  set_mem x s = true <-> exists y, y ∈ s /\ pv_eqb x y = true.
Proof.
  unfold set_mem. rewrite existsb_exists.
  split; intros (y & H1 & H2); exists y; split; try done;
    by apply list_elem_of_In.
Qed.

Lemma set_mem_app (x : path_value) (s1 s2 : list path_value) :
  set_mem x (s1 ++ s2) = set_mem x s1 || set_mem x s2.
Proof. apply existsb_app. Qed.

Lemma set_mem_eqb (x y : path_value) (s : list path_value) :
  pv_eqb x y = true -> set_mem y s = true -> set_mem x s = true.
Proof.
  intros Hxy. rewrite !set_mem_iff. intros (z & Hz & Hyz).
  exists z. split; [done|]. by eapply pv_eqb_trans.
Qed.

Lemma set_mem_fold (x : path_value) (l acc : list path_value) :
  set_mem x (fold_left add_tuple l acc) = set_mem x acc || set_mem x l.
Proof.
  revert acc. induction l as [|y l IH]; intros acc; simpl.
  - by rewrite orb_false_r.
  - rewrite IH. unfold add_tuple.
    destruct (set_mem y acc) eqn:Hy.
    + destruct (pv_eqb x y) eqn:Hxy; [|reflexivity].
      by rewrite (set_mem_eqb x y acc Hxy Hy).
    + rewrite set_mem_app. simpl. rewrite orb_false_r.
      by rewrite orb_assoc.
Qed.

Lemma set_mem_set_of_list (x : path_value) (l : list path_value) :
  set_mem x (set_of_list l) = set_mem x l.
Proof. apply (set_mem_fold x l []). Qed.

Lemma elem_of_fold_add (y : path_value) (l acc : list path_value) :
  y ∈ fold_left add_tuple l acc -> y ∈ acc \/ y ∈ l.
Proof.
  revert acc. induction l as [|z l IH]; intros acc; simpl; [by left|].
  intros H. apply IH in H as [H|H]; [|right; by right].
  unfold add_tuple in H. destruct (set_mem z acc); [by left|].
  apply elem_of_app in H as [H|H]; [by left|].
  apply list_elem_of_singleton in H as ->. right. left.
Qed.

Lemma elem_of_set_of_list (y : path_value) (l : list path_value) :
  y ∈ set_of_list l -> y ∈ l.
Proof.
  intros H. apply (elem_of_fold_add y l []) in H as [H|H]; [|done].
  by apply elem_of_nil in H.
Qed.

(** ** Leaves of a tree with clean keys *)

Lemma leaves_dict_elem (d : dict) (leaf : location * scalar) :
  leaf ∈ leaves (JDict d) <->
  exists k v sub, (k, v) ∈ d /\ sub ∈ leaves v /\ leaf = under (Key k) sub.
Proof.
  simpl. rewrite list_elem_of_In, in_flat_map. split.
  - intros ([k v] & Hin & Hl). apply in_map_iff in Hl as (sub & <- & Hs).
    exists k, v, sub. by rewrite !list_elem_of_In.
  - intros (k & v & sub & Hin & Hs & ->). exists (k, v).
    split; [by apply list_elem_of_In|].
    apply in_map. by apply list_elem_of_In.
Qed.

Lemma list_leaves_elem (i : nat) (l : list json) (leaf : location * scalar) :
  leaf ∈ list_leaves i l ->
  exists j v sub, v ∈ l /\ sub ∈ leaves v /\ leaf = under (Idx j) sub.
Proof.
  revert i. induction l as [|v r IH]; intros i; simpl.
  - intros H. by apply elem_of_nil in H.
  - intros H. apply elem_of_app in H as [H|H].
    + apply list_elem_of_In, in_map_iff in H as (sub & <- & Hs).
      exists i, v, sub. split; [left|]. by rewrite list_elem_of_In.
    + apply IH in H as (j & v' & sub & Hv & Hs & ->).
      exists j, v', sub. split; [by right|done].
Qed.

Lemma leaves_clean (n : nat) (t : json) (leaf : location * scalar) :
  depth t <= n -> clean t = true -> leaf ∈ leaves t ->
  forallb clean_step leaf.1 = true.
Proof.
  revert t leaf. induction n as [|n IH]; intros t leaf Hd Hc Hin.
  { destruct t; simpl in Hd; try lia.
    apply list_elem_of_singleton in Hin as ->. reflexivity. }
  destruct t as [s|l|d].
  - apply list_elem_of_singleton in Hin as ->. reflexivity.
  - rewrite leaves_list in Hin.
    apply list_leaves_elem in Hin as (j & v & sub & Hv & Hs & ->).
    simpl. apply (IH v); [by eapply depth_list_item| |done].
    simpl in Hc. rewrite forallb_forall in Hc.
    apply Hc. by apply list_elem_of_In.
  - apply leaves_dict_elem in Hin as (k & v & sub & Hv & Hs & ->).
    simpl in Hc. rewrite forallb_forall in Hc.
    pose proof (Hc _ (proj1 (list_elem_of_In _ _) Hv)) as Hkv.
    apply andb_prop in Hkv as [Hk Hcv].
    simpl. rewrite Hk. simpl.
    apply (IH v); [by eapply depth_dict_value|done..].
Qed.

Lemma flatten_paths_leaves (t : json) (x : path_value) :
  is_container t = true ->
  x ∈ flatten_json_to_paths t "" <->
  exists leaf, leaf ∈ leaves t /\ x = rendered "" leaf.
Proof.
  intros Hc. unfold flatten_json_to_paths.
  rewrite (flatten_leaves (S (depth t)) t "") by (done || lia).
  rewrite list_elem_of_In, in_map_iff.
  split; intros (leaf & H1 & H2); exists leaf.
  - by rewrite list_elem_of_In.
  - by rewrite <- list_elem_of_In.
Qed.

(** ** Flattening as an encoding of the leaves *)

Lemma lossless_one_way (A B : json) :
  clean A = true -> clean B = true ->
  is_container A = true -> is_container B = true ->
  forallb (fun x => set_mem x (paths B)) (paths A) = true ->
  Forall (fun leaf => exists v',
            (leaf.1, v') ∈ leaves B /\ py_eqb leaf.2 v' = true) (leaves A).
Proof.
  intros CA CB HA HB Hsub. apply Forall_forall. intros [loc v] Hleaf.
  rewrite forallb_forall in Hsub.
  assert (Hx : set_mem (rendered "" (loc, v)) (paths A) = true).
  { unfold paths. rewrite set_mem_set_of_list. apply set_mem_self.
    apply flatten_paths_leaves; [done|]. by exists (loc, v). }
  apply set_mem_iff in Hx as (e & He & Hxe).
  apply list_elem_of_In, Hsub in He.
  apply set_mem_iff in He as (y & Hy & Hey).
  apply elem_of_set_of_list in Hy.
  apply flatten_paths_leaves in Hy as ([loc' v'] & Hleaf' & ->); [|done].
  pose proof (pv_eqb_trans _ _ _ Hxe Hey) as Heq.
  unfold pv_eqb, rendered in Heq. simpl in Heq.
  apply andb_prop in Heq as [Hp Hv]. apply String.eqb_eq in Hp.
  apply render_inj in Hp.
  - subst loc'. by exists v'.
  - apply (leaves_clean (depth A) A (loc, v)); done.
  - apply (leaves_clean (depth B) B (loc', v')); done.
Qed.

(** C8, as stated: a key that holds a dot and a nested key give the same
    path, so two normalised trees with different leaves have the same path
    set; two different scalar roots have the same (empty) one. *)
Lemma different_trees_with_equal_path_sets :
  (normalize_workflow_seeds nested_key = nested_key
   /\ normalize_workflow_seeds dotted_key = dotted_key
   /\ leaves nested_key <> leaves dotted_key
   /\ paths nested_key = paths dotted_key)
  /\ (normalize_workflow_seeds (JInt 5) = JInt 5
      /\ normalize_workflow_seeds (JInt 6) = JInt 6
      /\ leaves (JInt 5) <> leaves (JInt 6)
      /\ paths (JInt 5) = paths (JInt 6)).
Proof. repeat split; discriminate. Qed.

(** C8, amended: the flattened list holds exactly the leaves of a mapping
    or sequence, each under the rendering of its route, whatever the order
    of the entries; and when every key is non-empty and free of ['.'] and
    ['['], two such trees with equal path sets have the same leaves: every
    leaf of one is a leaf of the other at the same route, with a value that
    Python's [==] identifies. *)
Theorem flatten_is_lossless_on_clean_keys (A B : json) :
  clean A = true -> clean B = true ->
  is_container A = true -> is_container B = true ->
  set_eqb (paths A) (paths B) = true ->
  flatten_json_to_paths A "" ≡ₚ map (rendered "") (leaves A)
  /\ Forall (fun leaf => exists v',
               (leaf.1, v') ∈ leaves B /\ py_eqb leaf.2 v' = true) (leaves A)
  /\ Forall (fun leaf => exists v',
               (leaf.1, v') ∈ leaves A /\ py_eqb leaf.2 v' = true) (leaves B).
Proof.
  intros CA CB HA HB Heq. apply andb_prop in Heq as [H1 H2].
  split; [|split].
  - apply flatten_leaves; [lia|done].
  - by apply lossless_one_way.
  - by apply lossless_one_way.
Qed.

Lemma flatten_is_lossless_on_clean_keys_witness :
  flatten_json_to_paths tree_one "" ≡ₚ map (rendered "") (leaves tree_one)
  /\ Forall (fun leaf => exists v',
               (leaf.1, v') ∈ leaves tree_two /\ py_eqb leaf.2 v' = true)
            (leaves tree_one)
  /\ Forall (fun leaf => exists v',
               (leaf.1, v') ∈ leaves tree_one /\ py_eqb leaf.2 v' = true)
            (leaves tree_two).
Proof.
  apply (flatten_is_lossless_on_clean_keys tree_one tree_two); reflexivity.
Defined.

(** ** The keys the recursion skips *)

Lemma dict_get_elem (k : string) (v : json) (d : dict) :
  dict_get k d = Some v -> (k, v) ∈ d.
Proof.
  induction d as [|[k' v'] r IH]; [discriminate|]. simpl.
  destruct (String.eqb k' k) eqn:E.
  - apply String.eqb_eq in E. subst k'. intros [= ->]. left.
  - intros H. right. by apply IH.
Qed.

Lemma dict_get_unique (k : string) (v : json) (d : dict) :
  NoDup d.*1 -> (k, v) ∈ d -> dict_get k d = Some v.
Proof.
  induction d as [|[k' v'] r IH]; intros Hnd Hin.
  - by apply elem_of_nil in Hin.
  - apply NoDup_cons in Hnd as [Hk Hnd]. simpl.
    apply elem_of_cons in Hin as [[= <- <-]|Hin].
    + by rewrite String.eqb_refl.
    + destruct (String.eqb k' k) eqn:E; [|by apply IH].
      apply String.eqb_eq in E. subst k'. exfalso. apply Hk.
      apply list_elem_of_fmap. by exists (k, v).
Qed.

Lemma pass_keys (h : string -> json -> json) (s : steps) (d : dict) :
  steps_distinct s -> (pass h s d).*1 = d.*1.
Proof.
  intros Hs.
  pose proof (pass_preserves h (fun _ => tt) s d Hs
                ltac:(done) ltac:(done)) as H.
  apply (f_equal (map fst)) in H. rewrite !map_map in H.
  etrans; [|etrans; [exact H|]]; apply map_ext; by intros [].
Qed.

Lemma skipped_key_cases (k : string) :
  in_strs k skipped_keys = true ->
  clean_key k = true /\ forall n, steps_get k (norm_steps n) = None.
Proof.
  unfold in_strs, skipped_keys. cbn [existsb].
  repeat match goal with
         | |- context [String.eqb k ?a] =>
             let E := fresh "E" in
             destruct (String.eqb k a) eqn:E;
             [apply String.eqb_eq in E; subst k; intros _;
              split; [reflexivity|intros n; reflexivity]|clear E]
         end.
  discriminate.
Qed.

(** Normalisation leaves the value bound to a skipped key as it is. *)
Lemma skipped_key_untouched (d : dict) (k : string) (v : json) (n : nat) :
  in_strs k skipped_keys = true ->
  dict_get k d = Some v ->
  dict_get k (pass (visit_value n) (norm_steps n) d) = Some v.
Proof.
  intros Hk Hget. rewrite dict_get_pass by apply norm_steps_distinct.
  destruct (skipped_key_cases k Hk) as [_ Hs].
  rewrite Hget, Hs. simpl. unfold visit_value. by rewrite Hk.
Qed.

Lemma leaves_root_scalar (v : json) (s : scalar) :
  ([], s) ∈ leaves v -> v = JScalar s.
Proof.
  destruct v as [s'|l|d]; intros H.
  - by apply list_elem_of_singleton in H as [= ->].
  - rewrite leaves_list in H.
    by apply list_leaves_elem in H as (j & v & sub & _ & _ & [=]).
  - by apply leaves_dict_elem in H as (j & v & sub & _ & _ & [=]).
Qed.

Lemma all_chars_app (P : ascii -> bool) (a b : string) :
  all_chars P (a +:+ b) = all_chars P a && all_chars P b.
Proof.
  induction a as [|c a IH]; [reflexivity|].
  rewrite append_cons. simpl. by rewrite IH, andb_assoc.
Qed.

Lemma suffix_clean_empty (loc : location) :
  all_chars (fun c => negb (is_path_delim c)) (suffix loc) = true ->
  loc = [].
Proof.
  destruct loc as [|[k|i] r]; [done|..]; simpl; simpl_append;
    simpl; discriminate.
Qed.

(** Under a root mapping whose keys are not empty, the only leaf whose path
    is a given delimiter-free string [k] is a scalar bound to [k] itself. *)
Lemma root_path_of_clean_key (d : dict) (k : string)
    (leaf : location * scalar) :
  clean_key k = true -> "" ∉ d.*1 ->
  leaf ∈ leaves (JDict d) -> render "" leaf.1 = k ->
  (k, JScalar leaf.2) ∈ d.
Proof.
  intros Hk Hne Hleaf Hr.
  apply leaves_dict_elem in Hleaf as (k' & v & [loc s] & Hin & Hsub & ->).
  simpl in *.
  assert (Hk' : k' <> "").
  { intros ->. apply Hne. apply list_elem_of_fmap. by exists ("", v). }
  unfold key_path in Hr. change (String.eqb "" "") with true in Hr.
  cbv iota in Hr. rewrite render_suffix in Hr by done.
  apply clean_key_chars in Hk as [_ Hk]. rewrite <- Hr in Hk.
  rewrite all_chars_app in Hk. apply andb_prop in Hk as [_ Hk].
  apply suffix_clean_empty in Hk. subst loc.
  simpl in Hr. rewrite append_nil_r in Hr. subst k'.
  by apply leaves_root_scalar in Hsub as ->.
Qed.

Lemma difference_positive (dc total : nat) :
  0 < dc -> 0 < total ->
  (0 < inject_Z (Z.of_nat dc) / inject_Z (Z.of_nat total) * 100)%Q.
Proof.
  intros H1 H2.
  apply Qmult_lt_0_compat; [|reflexivity].
  apply Qlt_shift_div_l.
  - unfold Qlt. simpl. lia.
  - rewrite Qmult_0_l. unfold Qlt. simpl. lia.
Qed.

Lemma elem_length_pos {A} (x : A) (l : list A) : x ∈ l -> 0 < length l.
Proof. destruct 1; simpl; lia. Qed.

(** C1, as stated: two trees that differ only under [version] and
    [last_node_id] are not at distance 0; here four of the five pairs of the
    union differ. *)
Lemma version_and_last_node_id_are_compared :
  ~ (calculate_json_difference_percentage
       (JDict [("last_node_id", JInt 7); ("version", JInt 1); ("x", JInt 5)])
       (JDict [("last_node_id", JInt 9); ("version", JInt 2); ("x", JInt 5)])
     == 0)%Q
  /\ (calculate_json_difference_percentage
        (JDict [("last_node_id", JInt 7); ("version", JInt 1); ("x", JInt 5)])
        (JDict [("last_node_id", JInt 9); ("version", JInt 2); ("x", JInt 5)])
      == 80)%Q.
Proof. split; [vm_compute; discriminate|reflexivity]. Qed.

(** C1, amended: normalisation does not descend into the keys
    [last_node_id], [last_link_id], [version], [date], [time] and
    [_meta_data_checksum] and leaves their values as they are, but nothing
    removes them: flattening emits them like any other leaf, so two mappings
    (distinct, non-empty keys) that bind such a key to scalars Python tells
    apart are at a strictly positive distance. *)
Theorem skipped_keys_are_compared (d1 d2 : dict) (k : string)
    (a b : scalar) :
  in_strs k skipped_keys = true ->
  NoDup d2.*1 -> "" ∉ d2.*1 ->
  dict_get k d1 = Some (JScalar a) ->
  dict_get k d2 = Some (JScalar b) ->
  py_eqb a b = false ->
  (exists d1', normalize_workflow_seeds (JDict d1) = JDict d1'
               /\ dict_get k d1' = Some (JScalar a))
  /\ (k, a) ∈ flatten_json_to_paths (normalize_workflow_seeds (JDict d1)) ""
  /\ (0 < calculate_json_difference_percentage (JDict d1) (JDict d2))%Q.
Proof.
  intros Hk Hnd Hne Hg1 Hg2 Hab.
  destruct (skipped_key_cases k Hk) as [Hclean _].
  unfold calculate_json_difference_percentage, normalize_workflow_seeds.
  rewrite !norm_dict.
  set (d1' := pass _ _ d1). set (d2' := pass _ _ d2).
  assert (H1 : dict_get k d1' = Some (JScalar a))
    by (by apply skipped_key_untouched).
  assert (H2 : dict_get k d2' = Some (JScalar b))
    by (by apply skipped_key_untouched).
  assert (Hkeys : d2'.*1 = d2.*1) by apply pass_keys, norm_steps_distinct.
  assert (Hin1 : (k, a) ∈ flatten_json_to_paths (JDict d1') "").
  { apply flatten_paths_leaves; [done|]. exists ([Key k], a).
    split; [|reflexivity]. apply leaves_dict_elem.
    exists k, (JScalar a), ([], a).
    split; [by apply dict_get_elem|]. split; [left|reflexivity]. }
  assert (Hnot : forall y, y ∈ flatten_json_to_paths (JDict d2') "" ->
                           pv_eqb (k, a) y = false).
  { intros y Hy. apply flatten_paths_leaves in Hy as (leaf & Hl & ->); [|done].
    destruct (pv_eqb (k, a) (rendered "" leaf)) eqn:E; [|reflexivity].
    exfalso. unfold pv_eqb, rendered in E. simpl in E.
    apply andb_prop in E as [Ep Ev]. apply String.eqb_eq in Ep.
    assert (Hin : (k, JScalar leaf.2) ∈ d2').
    { apply root_path_of_clean_key; [done|by rewrite Hkeys|done..]. }
    apply dict_get_unique in Hin; [|by rewrite Hkeys].
    rewrite H2 in Hin. injection Hin as Hb. rewrite <- Hb in Ev. congruence. }
  split; [by exists d1'|]. split; [exact Hin1|].
  set (P1 := set_of_list (flatten_json_to_paths (JDict d1') "")).
  set (P2 := set_of_list (flatten_json_to_paths (JDict d2') "")).
  assert (Hm : set_mem (k, a) P1 = true).
  { unfold P1. rewrite set_mem_set_of_list. by apply set_mem_self. }
  apply set_mem_iff in Hm as (e & He & Hke).
  assert (He2 : set_mem e P2 = false).
  { destruct (set_mem e P2) eqn:E; [|reflexivity]. exfalso.
    pose proof (set_mem_eqb _ _ _ Hke E) as Hc.
    unfold P2 in Hc. rewrite set_mem_set_of_list in Hc.
    apply set_mem_iff in Hc as (y & Hy & Hc).
    rewrite (Hnot y Hy) in Hc. discriminate. }
  assert (Hu1 : e ∈ set_difference P1 P2).
  { unfold set_difference. by apply list_elem_of_filter. }
  apply elem_length_pos in Hu1.
  assert (Htot : 0 < length (set_union P1 P2)).
  { unfold set_union. rewrite length_app.
    apply elem_length_pos in He. lia. }
  destruct (Nat.eqb_spec (length (set_union P1 P2)) 0) as [E|_]; [lia|].
  apply difference_positive; lia.
Qed.

Lemma skipped_keys_are_compared_witness :
  (exists d1',
      normalize_workflow_seeds
        (JDict [("last_node_id", JInt 7); ("version", JInt 1); ("x", JInt 5)])
      = JDict d1'
      /\ dict_get "version" d1' = Some (JScalar (SInt 1)))
  /\ ("version", SInt 1)
     ∈ flatten_json_to_paths
         (normalize_workflow_seeds
            (JDict [("last_node_id", JInt 7); ("version", JInt 1);
                    ("x", JInt 5)])) ""
  /\ (0 < calculate_json_difference_percentage
            (JDict [("last_node_id", JInt 7); ("version", JInt 1);
                    ("x", JInt 5)])
            (JDict [("last_node_id", JInt 9); ("version", JInt 2);
                    ("x", JInt 5)]))%Q.
Proof.
  apply (skipped_keys_are_compared
           [("last_node_id", JInt 7); ("version", JInt 1); ("x", JInt 5)]
           [("last_node_id", JInt 9); ("version", JInt 2); ("x", JInt 5)]
           "version" (SInt 1) (SInt 2)).
  - reflexivity.
  - apply (bool_decide_unpack _). reflexivity.
  - apply (bool_decide_unpack _). reflexivity.
  - reflexivity.
  - reflexivity.
  - reflexivity.
Defined.

(** * More of the code: properties *)

(** ** Sets without duplicates *)

Lemma pv_eqb_key (x y : path_value) :
  pv_eqb x y = true <-> tuple_key x = tuple_key y.
Proof.
  unfold pv_eqb, py_eqb, tuple_key.
  rewrite andb_true_iff, String.eqb_eq, bool_decide_eq_true.
  destruct x, y; simpl. split; [intros [-> ->]; done|intros [= -> ->]; done].
Qed.

Lemma set_mem_key (x : path_value) (s : list path_value) :
  set_mem x s = true <-> tuple_key x ∈ map tuple_key s.
Proof.
  rewrite set_mem_iff, list_elem_of_In, in_map_iff. split.
  - intros (y & Hy & E). exists y. apply pv_eqb_key in E.
    split; [done|by apply list_elem_of_In].
  - intros (y & E & Hy). exists y.
    split; [by apply list_elem_of_In|by apply pv_eqb_key].
Qed.

Lemma fold_add_NoDup (l acc : list path_value) :
  NoDup (map tuple_key acc) ->
  NoDup (map tuple_key (fold_left add_tuple l acc)).
Proof.
  revert acc. induction l as [|x l IH]; intros acc Hacc; [done|]. simpl.
  apply IH. unfold add_tuple. destruct (set_mem x acc) eqn:E; [done|].
  rewrite map_app. simpl. apply NoDup_app. split; [done|]. split.
  - intros k Hk Hx. apply list_elem_of_singleton in Hx as ->.
    apply set_mem_key in Hk. congruence.
  - apply NoDup_singleton.
Qed.

(** [set(l)] holds no two tuples that Python identifies. *)
Lemma set_of_list_NoDup (l : list path_value) :
  NoDup (map tuple_key (set_of_list l)).
Proof. apply fold_add_NoDup. constructor. Qed.

Lemma filter_keys_NoDup (P : path_value -> Prop) `{!forall x, Decision (P x)}
    (s : list path_value) :
  NoDup (map tuple_key s) -> NoDup (map tuple_key (filter P s)).
Proof.
  induction s as [|x s IH]; [done|]. simpl. intros Hs.
  apply NoDup_cons in Hs as [Hx Hs]. rewrite filter_cons.
  destruct (decide (P x)); [|by apply IH]. simpl.
  apply NoDup_cons. split; [|by apply IH].
  intros Hin. apply Hx.
  apply list_elem_of_In, in_map_iff in Hin as (y & E & Hy).
  apply list_elem_of_In, in_map_iff. exists y. split; [done|].
  apply list_elem_of_In. apply list_elem_of_In in Hy.
  by apply list_elem_of_filter in Hy as [_ Hy].
Qed.

Lemma length_inter_diff (a b : list path_value) :
  length (set_intersection a b) + length (set_difference a b) = length a.
Proof.
  unfold set_intersection, set_difference.
  induction a as [|x a IH]; [reflexivity|].
  rewrite !filter_cons.
  destruct (set_mem x b) eqn:E; simpl;
    repeat case_decide; try congruence; simpl; lia.
Qed.

Lemma elem_of_set_intersection (x : path_value) (a b : list path_value) :
  x ∈ set_intersection a b <-> x ∈ a /\ set_mem x b = true.
Proof. unfold set_intersection. rewrite list_elem_of_filter. tauto. Qed.

Lemma elem_of_set_difference (x : path_value) (a b : list path_value) :
  x ∈ set_difference a b <-> x ∈ a /\ set_mem x b = false.
Proof. unfold set_difference. rewrite list_elem_of_filter. tauto. Qed.

Lemma elem_of_map_key (k : string * hash_key) (s : list path_value) :
  k ∈ map tuple_key s <-> exists x, x ∈ s /\ tuple_key x = k.
Proof.
  rewrite list_elem_of_In, in_map_iff.
  split; intros (x & H1 & H2); exists x; by rewrite ?list_elem_of_In in *.
Qed.

Lemma inter_keys (k : string * hash_key) (a b : list path_value) :
  k ∈ map tuple_key (set_intersection a b) <->
  k ∈ map tuple_key a /\ k ∈ map tuple_key b.
Proof.
  rewrite !elem_of_map_key. split.
  - intros (x & Hx & <-).
    apply elem_of_set_intersection in Hx as [Ha Hb].
    split; [by exists x|]. apply elem_of_map_key. by apply set_mem_key.
  - intros [(x & Hx & <-) Hb]. exists x. split; [|done].
    apply elem_of_set_intersection. split; [done|].
    apply set_mem_key. by apply elem_of_map_key.
Qed.

(** The two intersections of two sets have the same size. *)
Lemma length_inter_comm (a b : list path_value) :
  NoDup (map tuple_key a) -> NoDup (map tuple_key b) ->
  length (set_intersection a b) = length (set_intersection b a).
Proof.
  intros Ha Hb.
  rewrite <- (length_map tuple_key (set_intersection a b)).
  rewrite <- (length_map tuple_key (set_intersection b a)).
  apply Permutation_length, NoDup_Permutation.
  - by apply filter_keys_NoDup.
  - by apply filter_keys_NoDup.
  - intros k. rewrite !inter_keys. tauto.
Qed.

Lemma length_union_comm (a b : list path_value) :
  NoDup (map tuple_key a) -> NoDup (map tuple_key b) ->
  length (set_union a b) = length (set_union b a).
Proof.
  intros Ha Hb. unfold set_union. rewrite !length_app.
  pose proof (length_inter_diff a b). pose proof (length_inter_diff b a).
  pose proof (length_inter_comm a b Ha Hb). lia.
Qed.

Lemma length_diff_le_union (a b : list path_value) :
  length (set_difference a b) + length (set_difference b a)
  <= length (set_union a b).
Proof.
  unfold set_union. rewrite length_app.
  pose proof (length_inter_diff a b). lia.
Qed.

(** ** The metric: symmetry, bounds, extreme values *)

(** X1: the distance does not depend on the order of its arguments. *)
Theorem difference_symmetric (A B : json) :
  calculate_json_difference_percentage A B
  = calculate_json_difference_percentage B A.
Proof.
  unfold calculate_json_difference_percentage.
  set (P1 := set_of_list
               (flatten_json_to_paths (normalize_workflow_seeds A) "")).
  set (P2 := set_of_list
               (flatten_json_to_paths (normalize_workflow_seeds B) "")).
  rewrite (length_union_comm P2 P1) by apply set_of_list_NoDup.
  by rewrite (Nat.add_comm (length (set_difference P2 P1))).
Qed.

Lemma ratio_bounds (dc total : nat) :
  dc <= total -> 0 < total ->
  (0 <= inject_Z (Z.of_nat dc) / inject_Z (Z.of_nat total) * 100)%Q
  /\ (inject_Z (Z.of_nat dc) / inject_Z (Z.of_nat total) * 100 <= 100)%Q.
Proof.
  intros Hle Hpos.
  assert (Ht : (0 < inject_Z (Z.of_nat total))%Q)
    by (unfold Qlt; simpl; lia).
  split.
  - apply Qmult_le_0_compat; [|discriminate].
    apply Qle_shift_div_l; [done|]. rewrite Qmult_0_l.
    unfold Qle. simpl. lia.
  - apply Qle_trans with (1 * 100)%Q; [|by unfold Qle].
    apply Qmult_le_compat_r; [|discriminate].
    apply Qle_shift_div_r; [done|]. rewrite Qmult_1_l.
    unfold Qle. simpl. lia.
Qed.

Lemma distance_in_range (A B : json) :
  (0 <= calculate_json_difference_percentage A B)%Q
  /\ (calculate_json_difference_percentage A B <= 100)%Q.
Proof.
  unfold calculate_json_difference_percentage.
  set (P1 := set_of_list _). set (P2 := set_of_list _).
  destruct (Nat.eqb_spec (length (set_union P1 P2)) 0) as [E|E].
  - split; discriminate.
  - apply ratio_bounds; [apply length_diff_le_union|lia].
Qed.

(** X2: the distance lies between 0 and 100. *)
Theorem difference_bounds (A B : json) :
  (0 <= calculate_json_difference_percentage A B)%Q
  /\ (calculate_json_difference_percentage A B <= 100)%Q.
Proof. exact (distance_in_range A B). Qed.

Lemma set_difference_nil (a b : list path_value) :
  set_difference a b = [] <-> forallb (fun x => set_mem x b) a = true.
Proof.
  unfold set_difference. induction a as [|x a IH]; [done|].
  rewrite filter_cons. cbn [forallb].
  destruct (decide (set_mem x b = false)) as [E|E].
  - rewrite E. split; discriminate.
  - apply not_false_is_true in E. rewrite E. exact IH.
Qed.

Lemma ratio_zero (dc total : nat) :
  0 < total ->
  (inject_Z (Z.of_nat dc) / inject_Z (Z.of_nat total) * 100 == 0)%Q
  <-> dc = 0.
Proof.
  intros Hpos. destruct total as [|n]; [lia|].
  unfold Qeq, Qdiv, Qmult, Qinv, inject_Z. simpl. lia.
Qed.

Lemma ratio_hundred (dc total : nat) :
  0 < total ->
  (inject_Z (Z.of_nat dc) / inject_Z (Z.of_nat total) * 100 == 100)%Q
  <-> dc = total.
Proof.
  intros Hpos. destruct total as [|n]; [lia|].
  unfold Qeq, Qdiv, Qmult, Qinv, inject_Z. simpl. lia.
Qed.

Lemma difference_zero_iff_same_paths_aux (A B : json) :
  set_difference (paths (normalize_workflow_seeds A))
                 (paths (normalize_workflow_seeds B)) = []
  /\ set_difference (paths (normalize_workflow_seeds B))
                    (paths (normalize_workflow_seeds A)) = [] ->
  (calculate_json_difference_percentage A B == 0)%Q.
Proof.
  unfold calculate_json_difference_percentage, paths.
  intros [-> ->]. simpl length.
  destruct (Nat.eqb _ 0); [done|].
  unfold Qdiv. by rewrite !Qmult_0_l.
Qed.

(** X3: the distance is 0 exactly when the two normalised trees have the
    same set of tuples. *)
Theorem difference_zero_iff_same_paths (A B : json) :
  (calculate_json_difference_percentage A B == 0)%Q
  <-> set_eqb (paths (normalize_workflow_seeds A))
              (paths (normalize_workflow_seeds B)) = true.
Proof.
  unfold calculate_json_difference_percentage, paths, set_eqb.
  set (P1 := set_of_list _). set (P2 := set_of_list _).
  rewrite andb_true_iff, <- !set_difference_nil.
  destruct (Nat.eqb_spec (length (set_union P1 P2)) 0) as [E|E].
  - split; [intros _|done].
    unfold set_union in E. rewrite length_app in E.
    assert (P1 = []) as Hn by (apply length_zero_iff_nil; lia).
    assert (set_difference P2 P1 = []) as ->
      by (apply length_zero_iff_nil; lia).
    by rewrite Hn.
  - rewrite ratio_zero by lia. split.
    + intros H. split; apply length_zero_iff_nil; lia.
    + by intros [-> ->].
Qed.

(** X4: the distance is 100 exactly when the two normalised trees have at
    least one tuple between them and none in common. *)
Theorem difference_hundred_iff_disjoint (A B : json) :
  (calculate_json_difference_percentage A B == 100)%Q
  <-> set_union (paths (normalize_workflow_seeds A))
                (paths (normalize_workflow_seeds B)) <> []
      /\ set_intersection (paths (normalize_workflow_seeds A))
                          (paths (normalize_workflow_seeds B)) = [].
Proof.
  unfold calculate_json_difference_percentage, paths.
  set (P1 := set_of_list _). set (P2 := set_of_list _).
  pose proof (length_inter_diff P1 P2) as Hp.
  destruct (Nat.eqb_spec (length (set_union P1 P2)) 0) as [E|E].
  - split; [discriminate|]. intros [Hne _]. exfalso.
    by apply Hne, length_zero_iff_nil.
  - rewrite ratio_hundred by lia.
    unfold set_union in *. rewrite length_app in *. split.
    + intros H. split.
      * intros Hnil. apply (f_equal length) in Hnil.
        rewrite length_app in Hnil. simpl in Hnil. lia.
      * apply length_zero_iff_nil. lia.
    + intros [_ Hi]. rewrite Hi in Hp. simpl in Hp. lia.
Qed.

(** X5: normalising the two trees beforehand does not change their
    distance. *)
Theorem difference_of_normalized (A B : json) :
  calculate_json_difference_percentage
    (normalize_workflow_seeds A) (normalize_workflow_seeds B)
  = calculate_json_difference_percentage A B.
Proof.
  assert (H : forall T, normalize_workflow_seeds (normalize_workflow_seeds T)
                        = normalize_workflow_seeds T).
  { intros T. unfold normalize_workflow_seeds. rewrite norm_depth.
    apply norm_idempotent_fuel. lia. }
  unfold calculate_json_difference_percentage. by rewrite !H.
Qed.

(** ** The loop: lines and counters *)

Lemma run_cons (t : option Q) (st : state) (f : file_entry)
    (rest : list file_entry) :
  run t st (f :: rest)
  = ((run t (step t st f).1 rest).1,
     (step t st f).2 :: (run t (step t st f).1 rest).2).
Proof.
  change (run t st (f :: rest))
    with (let '(st', line) := step t st f in
          let '(st'', lines) := run t st' rest in (st'', line :: lines)).
  destruct (step t st f) as [st' line]. cbn [fst snd].
  by destruct (run t st' rest).
Qed.

(** What one file does to the state and which line it prints. *)
Lemma step_cases (t : option Q) (st : state) (f : file_entry) :
  (load f = None /\ step t st f = (st, Skipped (filename f)))
  \/ (exists doc, load f = Some doc
      /\ is_None (previous_json_data st) = true
      /\ step t st f =
           (mk_state doc (Some (filename f)) (deleted_count st)
                     (total_compared st),
            Initial (filename f)))
  \/ (exists doc d a, load f = Some doc
      /\ is_None (previous_json_data st) = false
      /\ d = calculate_json_difference_percentage doc (previous_json_data st)
      /\ a = decide_action t d (remove_ok f)
      /\ step t st f =
           (mk_state (if a is KEPT then doc else previous_json_data st)
                     (if a is KEPT then Some (filename f)
                      else previous_json_filename st)
                     (if a is DELETED then S (deleted_count st)
                      else deleted_count st)
                     (S (total_compared st)),
            Compared (filename f) (previous_json_filename st) d a)).
Proof.
  unfold step. destruct (load f) as [doc|]; [|by left]. right.
  destruct (is_None (previous_json_data st)) eqn:E.
  - left. by exists doc.
  - right. eexists doc, _, _. repeat split; try reflexivity.
    cbv zeta. by destruct (decide_action t _ (remove_ok f)).
Qed.

Lemma run_counts (t : option Q) (st : state) (fs : list file_entry) :
  map line_name (run t st fs).2 = map filename fs
  /\ total_compared (run t st fs).1
     = total_compared st + count_lines is_compared (run t st fs).2
  /\ deleted_count (run t st fs).1
     = deleted_count st + count_lines is_deleted (run t st fs).2
  /\ count_lines is_deleted (run t st fs).2
     <= count_lines is_compared (run t st fs).2.
Proof.
  revert st. induction fs as [|f rest IH]; intros st.
  - simpl. unfold count_lines. simpl. repeat split; lia.
  - rewrite run_cons. unfold count_lines in *.
    destruct (step_cases t st f)
      as [[_ Hs]|[(doc & _ & _ & Hs)|(doc & d & a & _ & _ & _ & _ & Hs)]];
      rewrite Hs; cbn [fst snd map List.filter line_name is_compared
                       is_deleted];
      match goal with
      | |- context [run t ?s rest] =>
          destruct (IH s) as (IH1 & IH2 & IH3 & IH4)
      end;
      rewrite IH1, IH2, IH3;
      cbn [total_compared deleted_count length];
      try destruct a; cbn [length];
      repeat split; first [reflexivity|lia].
Qed.

(** X6: the loop prints exactly one line per file, in the order of the
    files, and its two counters are the numbers of compared and of deleted
    files among these lines. *)
Theorem run_lines_and_counters (t : option Q) (st : state)
    (fs : list file_entry) :
  map line_name (run t st fs).2 = map filename fs
  /\ total_compared (run t st fs).1
     = total_compared st + count_lines is_compared (run t st fs).2
  /\ deleted_count (run t st fs).1
     = deleted_count st + count_lines is_deleted (run t st fs).2
  /\ count_lines is_deleted (run t st fs).2
     <= count_lines is_compared (run t st fs).2.
Proof. exact (run_counts t st fs). Qed.

(** ** The loop: thresholds *)

Lemma decide_action_none (d : Q) (removed : bool) :
  decide_action None d removed = KEPT.
Proof. reflexivity. Qed.

Lemma decide_action_low (t d : Q) (removed : bool) :
  (t <= 0)%Q -> (0 <= d)%Q -> decide_action (Some t) d removed = KEPT.
Proof.
  intros Ht Hd. unfold decide_action.
  destruct (Qltb d t) eqn:E; [|reflexivity].
  apply Qltb_lt in E. exfalso.
  apply (Qlt_irrefl d). eapply Qlt_le_trans; [exact E|].
  by eapply Qle_trans.
Qed.

Lemma decide_action_high (t d : Q) (removed : bool) :
  (100 < t)%Q -> (d <= 100)%Q ->
  decide_action (Some t) d removed
  = if removed then DELETED else DELETE_ERROR.
Proof.
  intros Ht Hd. unfold decide_action.
  assert (Qltb d t = true) as ->; [|reflexivity].
  apply Qltb_lt. by eapply Qle_lt_trans.
Qed.

Lemma step_low_threshold (t : Q) (st : state) (f : file_entry) :
  (t <= 0)%Q -> step (Some t) st f = step None st f.
Proof.
  intros Ht. unfold step. destruct (load f) as [doc|]; [|reflexivity].
  destruct (is_None (previous_json_data st)); [reflexivity|]. cbv zeta.
  rewrite decide_action_low, decide_action_none;
    [reflexivity|done|apply distance_in_range].
Qed.

(** X7: a threshold of 0 or less deletes nothing: the loop does exactly
    what it does with no threshold at all. *)
Theorem low_threshold_is_report_only (t : Q) (st : state)
    (fs : list file_entry) :
  (t <= 0)%Q -> run (Some t) st fs = run None st fs.
Proof.
  intros Ht. revert st. induction fs as [|f rest IH]; intros st; [done|].
  rewrite !run_cons. by rewrite step_low_threshold, IH.
Qed.

Lemma low_threshold_is_report_only_witness :
  run (Some 0%Q) initial_state
      [mk_file "a.json" (Some F1) true; mk_file "b.json" (Some F2) true]
  = run None initial_state
      [mk_file "a.json" (Some F1) true; mk_file "b.json" (Some F2) true].
Proof.
  apply (low_threshold_is_report_only 0%Q initial_state
           [mk_file "a.json" (Some F1) true; mk_file "b.json" (Some F2) true]).
  discriminate.
Defined.

(** X8: with no threshold no removal is ever tried, the counter of deleted
    files does not move, and the baseline after the loop is the last file
    that could be read. *)
Theorem report_only_keeps_everything (st : state) (fs : list file_entry) :
  count_lines tried_delete (run None st fs).2 = 0
  /\ deleted_count (run None st fs).1 = deleted_count st
  /\ baseline (run None st fs).1 = last_readable (baseline st) fs.
Proof.
  revert st. induction fs as [|f rest IH]; intros st; [done|].
  rewrite run_cons. unfold count_lines in *.
  destruct (step_cases None st f)
    as [[Hl Hs]|[(doc & Hl & _ & Hs)|(doc & d & a & Hl & _ & _ & Ha & Hs)]];
    try (rewrite decide_action_none in Ha; subst a);
    rewrite Hs; cbn [fst snd List.filter tried_delete];
    match goal with
    | |- context [run None ?s rest] => destruct (IH s) as (IH1 & IH2 & IH3)
    end;
    rewrite IH1, IH2, IH3; unfold last_readable; cbn [fold_left];
    rewrite Hl; done.
Qed.

(** X9: with a threshold above 100 every file that is compared meets the
    deletion test: once a baseline is set it never changes, every readable
    file is compared, and every one of them that can be removed is
    deleted. *)
Theorem high_threshold_keeps_first_only (t : Q) (st : state)
    (fs : list file_entry) :
  (100 < t)%Q ->
  is_None (previous_json_data st) = false ->
  baseline (run (Some t) st fs).1 = baseline st
  /\ total_compared (run (Some t) st fs).1
     = total_compared st + length (List.filter readable fs)
  /\ deleted_count (run (Some t) st fs).1
     = deleted_count st
       + length (List.filter (fun f => readable f && remove_ok f) fs).
Proof.
  intros Ht. revert st. induction fs as [|f rest IH]; intros st Hst.
  { simpl. repeat split; lia. }
  rewrite run_cons.
  destruct (step_cases (Some t) st f)
    as [[Hl Hs]|[(doc & Hl & Hn & Hs)|(doc & d & a & Hl & _ & Hd & Ha & Hs)]].
  - assert (Hr : readable f = false) by (unfold readable; by rewrite Hl).
    rewrite Hs. cbn [fst snd List.filter]. rewrite Hr. by apply IH.
  - congruence.
  - rewrite decide_action_high in Ha;
      [|done|subst d; apply distance_in_range].
    assert (Hr : readable f = true) by (unfold readable; by rewrite Hl).
    rewrite Hs. cbn [fst snd List.filter]. rewrite Hr. cbn [andb].
    assert (Ha' : a <> KEPT) by (subst a; by destruct (remove_ok f)).
    destruct (IH (mk_state
        (if a is KEPT then doc else previous_json_data st)
        (if a is KEPT then Some (filename f) else previous_json_filename st)
        (if a is DELETED then S (deleted_count st) else deleted_count st)
        (S (total_compared st)))) as (IH1 & IH2 & IH3).
    { simpl. by destruct a. }
    rewrite IH1, IH2, IH3. cbn [total_compared deleted_count].
    subst a. destruct (remove_ok f); cbn [length];
      repeat split; first [reflexivity|lia].
Qed.

Lemma high_threshold_keeps_first_only_witness :
  baseline (run (Some (101 # 1)) (mk_state F1 (Some "a.json") 0 0)
              [mk_file "b.json" (Some F3) true;
               mk_file "c.json" None true;
               mk_file "d.json" (Some F2) false]).1
  = baseline (mk_state F1 (Some "a.json") 0 0)
  /\ total_compared
       (run (Some (101 # 1)) (mk_state F1 (Some "a.json") 0 0)
          [mk_file "b.json" (Some F3) true;
           mk_file "c.json" None true;
           mk_file "d.json" (Some F2) false]).1
     = total_compared (mk_state F1 (Some "a.json") 0 0)
       + length (List.filter readable
                   [mk_file "b.json" (Some F3) true;
                    mk_file "c.json" None true;
                    mk_file "d.json" (Some F2) false])
  /\ deleted_count
       (run (Some (101 # 1)) (mk_state F1 (Some "a.json") 0 0)
          [mk_file "b.json" (Some F3) true;
           mk_file "c.json" None true;
           mk_file "d.json" (Some F2) false]).1
     = deleted_count (mk_state F1 (Some "a.json") 0 0)
       + length (List.filter (fun f => readable f && remove_ok f)
                   [mk_file "b.json" (Some F3) true;
                    mk_file "c.json" None true;
                    mk_file "d.json" (Some F2) false]).
Proof.
  apply (high_threshold_keeps_first_only (101 # 1)
           (mk_state F1 (Some "a.json") 0 0)
           [mk_file "b.json" (Some F3) true;
            mk_file "c.json" None true;
            mk_file "d.json" (Some F2) false]); reflexivity.
Defined.

(** ** The loop: unreadable files, the baseline, the lines *)

(** X10: files that cannot be read change nothing but the lines: the loop
    ends in the same state, with the same other lines, as on the readable
    files alone. *)
Theorem unreadable_files_are_ignored (t : option Q) (st : state)
    (fs : list file_entry) :
  (run t st (List.filter readable fs)).1 = (run t st fs).1
  /\ (run t st (List.filter readable fs)).2
     = List.filter not_skipped (run t st fs).2.
Proof.
  revert st. induction fs as [|f rest IH]; intros st; [done|].
  cbn [List.filter]. rewrite (run_cons t st f rest).
  destruct (step_cases t st f)
    as [[Hl Hs]|[(doc & Hl & _ & Hs)|(doc & d & a & Hl & _ & _ & _ & Hs)]].
  - assert (readable f = false) as -> by (unfold readable; by rewrite Hl).
    rewrite Hs. cbn [fst snd List.filter not_skipped]. apply IH.
  - assert (readable f = true) as -> by (unfold readable; by rewrite Hl).
    rewrite run_cons, Hs. cbn [fst snd List.filter not_skipped].
    destruct (IH (mk_state doc (Some (filename f)) (deleted_count st)
                           (total_compared st))) as [-> ->]. done.
  - assert (readable f = true) as -> by (unfold readable; by rewrite Hl).
    rewrite run_cons, Hs. cbn [fst snd List.filter not_skipped].
    match goal with
    | |- context [run t ?s rest] => destruct (IH s) as [-> ->]
    end. done.
Qed.

(** X11: the baseline the loop ends with is the one it started with or a
    file of the list, with the tree that was read from it. *)
Theorem baseline_is_a_file (t : option Q) (st : state)
    (fs : list file_entry) :
  baseline (run t st fs).1 = baseline st
  \/ exists f doc, f ∈ fs /\ load f = Some doc
                   /\ baseline (run t st fs).1 = (doc, Some (filename f)).
Proof.
  revert st. induction fs as [|f rest IH]; intros st; [by left|].
  rewrite run_cons. cbn [fst].
  destruct (IH (step t st f).1) as [E|(g & doc & Hg & Hl & E)].
  - rewrite E.
    destruct (step_cases t st f)
      as [[Hl Hs]|[(doc & Hl & _ & Hs)|(doc & d & a & Hl & _ & _ & _ & Hs)]];
      rewrite Hs; cbn [fst].
    + by left.
    + right. exists f, doc. split; [left|done].
    + destruct a; [right; exists f, doc; split; [left|done]|by left..].
  - right. exists g, doc. split; [by right|done].
Qed.

(** X12: in every line of a comparison the distance is between 0 and 100;
    a removal is tried only when a threshold was given and the distance is
    below it, and a file is kept only when that is not so. *)
Theorem lines_are_sound (t : option Q) (st : state) (fs : list file_entry) :
  Forall (line_is_sound t) (run t st fs).2.
Proof.
  revert st. induction fs as [|f rest IH]; intros st; [constructor|].
  rewrite run_cons. cbn [snd]. constructor; [|apply IH].
  destruct (step_cases t st f)
    as [[Hl Hs]|[(doc & Hl & _ & Hs)|(doc & d & a & Hl & _ & Hd & Ha & Hs)]];
    rewrite Hs; cbn [snd line_is_sound]; try done.
  assert (Hb : (0 <= d)%Q /\ (d <= 100)%Q)
    by (subst d; apply distance_in_range).
  destruct Hb as [Hb1 Hb2].
  destruct a eqn:Ea.
  - repeat split; try done. intros T -> HT.
    apply Qltb_lt in HT. unfold decide_action in Ha. rewrite HT in Ha.
    by destruct (remove_ok f).
  - repeat split; try done.
    apply (decide_action_not_kept t d (remove_ok f)). congruence.
  - repeat split; try done.
    apply (decide_action_not_kept t d (remove_ok f)). congruence.
Qed.

(** X13: the files that cannot be read at the head of the list are
    skipped, and the first readable file is kept as the initial one,
    whatever the threshold. *)
Theorem first_readable_file_is_initial (t : option Q)
    (pre rest : list file_entry) (f : file_entry) (doc : json) :
  Forall (fun g => load g = None) pre ->
  load f = Some doc ->
  run t initial_state (pre ++ f :: rest)
  = ((run t (mk_state doc (Some (filename f)) 0 0) rest).1,
     map (fun g => Skipped (filename g)) pre
     ++ Initial (filename f)
        :: (run t (mk_state doc (Some (filename f)) 0 0) rest).2).
Proof.
  intros Hpre Hl. induction Hpre as [|g pre Hg _ IH].
  - rewrite app_nil_l, run_cons.
    assert (Hs : step t initial_state f
                 = (mk_state doc (Some (filename f)) 0 0,
                    Initial (filename f)))
      by (unfold step; by rewrite Hl).
    by rewrite Hs.
  - rewrite <- app_comm_cons, run_cons.
    assert (Hs : step t initial_state g
                 = (initial_state, Skipped (filename g)))
      by (unfold step; by rewrite Hg).
    rewrite Hs. cbn [fst snd]. rewrite IH. reflexivity.
Qed.

Lemma first_readable_file_is_initial_witness :
  run (Some 50%Q) initial_state
      ([mk_file "a.json" None true]
       ++ mk_file "b.json" (Some F1) true
          :: [mk_file "c.json" (Some F2) true])
  = ((run (Some 50%Q)
          (mk_state F1 (Some (filename (mk_file "b.json" (Some F1) true)))
                    0 0)
          [mk_file "c.json" (Some F2) true]).1,
     map (fun g => Skipped (filename g)) [mk_file "a.json" None true]
     ++ Initial (filename (mk_file "b.json" (Some F1) true))
        :: (run (Some 50%Q)
                (mk_state F1
                   (Some (filename (mk_file "b.json" (Some F1) true))) 0 0)
                [mk_file "c.json" (Some F2) true]).2).
Proof.
  apply (first_readable_file_is_initial (Some 50%Q)
           [mk_file "a.json" None true]
           [mk_file "c.json" (Some F2) true]
           (mk_file "b.json" (Some F1) true) F1).
  - by repeat constructor.
  - reflexivity.
Defined.

(** X14: a document that is the JSON value [null] never serves as a
    baseline: when its line says it was kept (as the initial file or after
    a comparison), the loop variable holds Python's [None] again, and the
    next readable file is taken for the initial one instead of being
    compared. *)
Theorem null_document_resets_the_chain (t : option Q) (st : state)
    (f g : file_entry) (doc : json) :
  load f = Some JNull ->
  not_skipped (step t st f).2 && negb (tried_delete (step t st f).2) = true ->
  load g = Some doc ->
  step t (step t st f).1 g
  = (mk_state doc (Some (filename g)) (deleted_count (step t st f).1)
              (total_compared (step t st f).1),
     Initial (filename g)).
Proof.
  intros Hf Hkept Hg.
  assert (Hb : previous_json_data (step t st f).1 = JNull).
  { destruct (step_cases t st f)
      as [[Hl _]|[(d0 & Hl & _ & Hs)|(d0 & d & a & Hl & _ & _ & _ & Hs)]].
    - congruence.
    - rewrite Hs. simpl. congruence.
    - rewrite Hs in Hkept |- *. simpl in *.
      destruct a; try discriminate. congruence. }
  unfold step at 1. by rewrite Hg, Hb.
Qed.

Lemma null_document_resets_the_chain_witness :
  step (Some 50%Q)
       (step (Some 50%Q) (mk_state F1 (Some "a.json") 0 0)
             (mk_file "b.json" (Some JNull) true)).1
       (mk_file "c.json" (Some F2) true)
  = (mk_state F2 (Some (filename (mk_file "c.json" (Some F2) true)))
       (deleted_count
          (step (Some 50%Q) (mk_state F1 (Some "a.json") 0 0)
                (mk_file "b.json" (Some JNull) true)).1)
       (total_compared
          (step (Some 50%Q) (mk_state F1 (Some "a.json") 0 0)
                (mk_file "b.json" (Some JNull) true)).1),
     Initial (filename (mk_file "c.json" (Some F2) true))).
Proof.
  apply (null_document_resets_the_chain (Some 50%Q)
           (mk_state F1 (Some "a.json") 0 0)
           (mk_file "b.json" (Some JNull) true)
           (mk_file "c.json" (Some F2) true) F2); reflexivity.
Defined.

(** ** The directory listing *)

Lemma string_leb_trans (a b c : string) :
  String.leb a b = true -> String.leb b c = true -> String.leb a c = true.
Proof.
  unfold String.leb. revert b c.
  induction a as [|x a IH]; intros [|y b] [|z c]; simpl; try done.
  unfold Ascii.compare.
  destruct (N.compare_spec (N_of_ascii x) (N_of_ascii y)) as [E1|L1|G1];
    destruct (N.compare_spec (N_of_ascii y) (N_of_ascii z)) as [E2|L2|G2];
    destruct (N.compare_spec (N_of_ascii x) (N_of_ascii z)) as [E3|L3|G3];
    try done; try lia.
  apply IH.
Qed.

Lemma string_leb_total (a b : string) :
  String.leb a b = false -> String.leb b a = true.
Proof.
  intros H. destruct (String.leb_total a b) as [E|E]; congruence.
Qed.

Lemma insert_name_perm (x : string) (l : list string) :
  insert_name x l ≡ₚ x :: l.
Proof.
  induction l as [|y r IH]; [reflexivity|]. simpl.
  destruct (String.leb x y); [reflexivity|].
  rewrite IH. apply perm_swap.
Qed.

Lemma sorted_names_perm (l : list string) : sorted_names l ≡ₚ l.
Proof.
  induction l as [|x r IH]; [reflexivity|]. simpl.
  by rewrite insert_name_perm, IH.
Qed.

Lemma insert_name_sorted (x : string) (l : list string) :
  StronglySorted (fun a b => String.leb a b = true) l ->
  StronglySorted (fun a b => String.leb a b = true) (insert_name x l).
Proof.
  induction l as [|y r IH]; intros Hs; simpl.
  - repeat constructor.
  - apply StronglySorted_inv in Hs as [Hr Hy].
    destruct (String.leb x y) eqn:E.
    + constructor; [by constructor|]. constructor; [done|].
      eapply Forall_impl; [exact Hy|]. intros z Hz. simpl in Hz.
      by eapply string_leb_trans.
    + constructor; [by apply IH|].
      rewrite (insert_name_perm x r). constructor; [|done].
      by apply string_leb_total.
Qed.

Lemma sorted_names_sorted (l : list string) :
  StronglySorted (fun a b => String.leb a b = true) (sorted_names l).
Proof.
  induction l as [|x r IH]; [constructor|]. simpl.
  by apply insert_name_sorted.
Qed.

Lemma ends_with_spec (suffix s : string) :
  ends_with suffix s = true <-> exists p, s = p +:+ suffix.
Proof.
  induction s as [|c s IH]; cbn [ends_with].
  - rewrite orb_false_r, String.eqb_eq. split.
    + intros <-. by exists "".
    + intros ([|c p] & E); [done|]. rewrite append_cons in E. discriminate.
  - rewrite orb_true_iff, String.eqb_eq, IH. split.
    + intros [<-|(p & ->)]; [by exists ""|].
      exists (String c p). by rewrite append_cons.
    + intros ([|c' p] & E); [by left|]. right.
      rewrite append_cons in E. injection E as -> ->. by exists p.
Qed.

Lemma prefix_spec (p s : string) :
  String.prefix p s = true <-> exists r, s = p +:+ r.
Proof.
  revert s. induction p as [|a p IH]; intros s.
  - split; [intros _; by exists s|by destruct s].
  - destruct s as [|b s]; simpl.
    + split; [done|]. intros (r & E). rewrite append_cons in E.
      discriminate.
    + destruct (ascii_dec a b) as [->|Hne].
      * rewrite IH. split; intros (r & E); exists r.
        -- by rewrite append_cons, E.
        -- rewrite append_cons in E. by injection E.
      * split; [done|]. intros (r & E). rewrite append_cons in E.
        injection E as E _. congruence.
Qed.

(** X15: the files the loop goes through are the names of the listing that
    end in [.json], in any letter case, and do not begin with [._]; they
    come in ascending order, each as often as the listing has it. *)
Theorem json_files_of_the_listing (names : list string) :
  StronglySorted (fun a b => String.leb a b = true) (list_json_files names)
  /\ list_json_files names ≡ₚ List.filter is_json_name names
  /\ forall f, f ∈ list_json_files names <->
               f ∈ names
               /\ (exists p, lower f = p +:+ ".json")
               /\ ~ (exists r, f = "._" +:+ r).
Proof.
  unfold list_json_files. split; [apply sorted_names_sorted|].
  split; [apply sorted_names_perm|].
  intros f. rewrite (sorted_names_perm _), list_elem_of_In, filter_In.
  rewrite <- list_elem_of_In. unfold is_json_name.
  rewrite andb_true_iff, negb_true_iff, ends_with_spec.
  rewrite <- not_true_iff_false, prefix_spec. tauto.
Qed.

(** ** The whole function *)

Lemma compared_at_most (t : option Q) (st : state) (fs : list file_entry) :
  count_lines is_compared (run t st fs).2 <= length fs
  /\ (is_None (previous_json_data st) = true ->
      count_lines is_compared (run t st fs).2 <= pred (length fs)).
Proof.
  revert st. induction fs as [|f rest IH]; intros st.
  { split; [done|]. intros _. done. }
  rewrite run_cons. unfold count_lines in *. cbn [snd List.filter length].
  destruct (step_cases t st f)
    as [[Hl Hs]|[(doc & Hl & Hn & Hs)|(doc & d & a & Hl & Hn & _ & _ & Hs)]];
    rewrite Hs; cbn [fst snd is_compared length].
  - destruct (IH st) as [IH1 IH2]. split; [lia|].
    intros Hst. specialize (IH2 Hst). lia.
  - match goal with
    | |- context [run t ?s rest] => destruct (IH s) as [IH1 _]
    end.
    split; [lia|]. intros _. simpl. lia.
  - match goal with
    | |- context [run t ?s rest] => destruct (IH s) as [IH1 _]
    end.
    split; [lia|]. congruence.
Qed.

(** X16: the function stops before the loop when [source_dir] is no
    directory or holds no JSON file; otherwise it prints one line for each
    JSON file, in ascending order of the names, and the numbers behind
    its summary are the number of these files, the number of compared
    files, which is smaller, and the counter of deleted files (printed
    when a threshold was given), which is not larger than that. *)
Theorem outcome_of_the_run (dir : directory) (t : option Q) :
  match compare_and_delete_jsons_in dir t with
  | NotADirectory => isdir dir = false
  | NoJsonFiles =>
      isdir dir = true
      /\ Forall (fun f => is_json_name f = false) (listdir dir)
  | Summary processed compared deleted lines =>
      isdir dir = true
      /\ map line_name lines = list_json_files (listdir dir)
      /\ processed = length lines
      /\ compared = count_lines is_compared lines
      /\ deleted = count_lines is_deleted lines
      /\ deleted <= compared < processed
  end.
Proof.
  unfold compare_and_delete_jsons_in.
  destruct (isdir dir); [|done]. cbn [negb].
  destruct (list_json_files (listdir dir)) as [|n ns] eqn:E.
  - split; [done|]. apply Forall_forall. intros f Hf.
    destruct (is_json_name f) eqn:Ej; [|done]. exfalso.
    assert (Hin : f ∈ list_json_files (listdir dir)).
    { unfold list_json_files. rewrite (sorted_names_perm _).
      apply list_elem_of_In, filter_In.
      split; [by apply list_elem_of_In|done]. }
    rewrite E in Hin. by apply elem_of_nil in Hin.
  - unfold compare_and_delete_jsons.
    set (fs := map (entry_of dir) (n :: ns)).
    pose proof (run_counts t initial_state fs)
      as (H1 & H2 & H3 & H4).
    pose proof (compared_at_most t initial_state fs) as [_ H5].
    specialize (H5 eq_refl).
    destruct (run t initial_state fs) as [st lines]. cbn [fst snd] in *.
    assert (Hn : map filename fs = n :: ns).
    { unfold fs. rewrite map_map. simpl. f_equal. apply map_id. }
    assert (Hlen : length lines = length (n :: ns)).
    { by rewrite <- Hn, <- H1, !length_map. }
    unfold fs in H5. rewrite length_map in H5.
    unfold count_lines in *. simpl in H2, H3, H5, Hlen.
    split; [done|]. split; [by rewrite H1, Hn|].
    split; [simpl; lia|]. split; [lia|]. split; [lia|].
    split; [lia|]. simpl. lia.
Qed.

Lemma summary_lines (dir : directory) (t : option Q)
    (processed compared deleted : nat) (lines : list report) :
  compare_and_delete_jsons_in dir t
  = Summary processed compared deleted lines ->
  map line_name lines = list_json_files (listdir dir).
Proof.
  unfold compare_and_delete_jsons_in.
  destruct (isdir dir); [|done]. cbn [negb].
  destruct (list_json_files (listdir dir)) as [|n ns] eqn:E; [done|].
  unfold compare_and_delete_jsons.
  set (fs := map (entry_of dir) (n :: ns)).
  pose proof (run_counts t initial_state fs) as (H1 & _).
  destruct (run t initial_state fs) as [st ls]. cbn [fst snd] in *.
  intros [= _ _ _ <-]. rewrite H1. unfold fs. rewrite map_map. simpl.
  f_equal. apply map_id.
Qed.

(** X17: every file the loop reads, and so every file it removes, is a
    JSON file of the listing: its name ends in [.json] and does not begin
    with [._]. *)
Theorem only_json_files_are_touched (dir : directory) (t : option Q)
    (processed compared deleted : nat) (lines : list report) :
  compare_and_delete_jsons_in dir t
  = Summary processed compared deleted lines ->
  Forall (fun r => line_name r ∈ listdir dir
                   /\ is_json_name (line_name r) = true) lines.
Proof.
  intros H. apply summary_lines in H as Hn.
  apply Forall_forall. intros r Hr.
  assert (Hin : line_name r ∈ list_json_files (listdir dir)).
  { rewrite <- Hn. apply list_elem_of_In, in_map. by apply list_elem_of_In. }
  unfold list_json_files in Hin. rewrite (sorted_names_perm _) in Hin.
  apply list_elem_of_In, filter_In in Hin as [Hin Hj].
  split; [by apply list_elem_of_In|done].
Qed.

(** ** Normalisation, key by key *)

Lemma binding_value (n : nat) (key : string) (v : json) :
  depth v <= n ->
  visit_value n key
    (from_option (fun g => g v) v (steps_get key (norm_steps n)))
  = normalized_binding key v.
Proof.
  intros Hd. unfold normalized_binding.
  destruct (in_strs key skipped_keys) eqn:Hk.
  { destruct (skipped_key_cases key Hk) as [_ Hs]. rewrite Hs. simpl.
    unfold visit_value. by rewrite Hk. }
  rewrite visit_value_norm, Hk. clear Hk.
  assert (Hfuel : forall u, depth u = depth v ->
                            norm n u = normalize_workflow_seeds u).
  { intros u Hu. apply normalize_fuel. lia. }
  assert (Hin : norm n (guarded is_dict (norm n) v)
                = normalize_workflow_seeds v).
  { unfold guarded. destruct (is_dict v); [|by apply Hfuel].
    rewrite norm_idempotent_fuel by done. by apply Hfuel. }
  unfold norm_steps.
  generalize dependent (norm n). intros nn Hfuel Hin.
  generalize dependent normalize_workflow_seeds. intros N Hfuel Hin.
  cbn [steps_get].
  repeat match goal with
         | |- context [String.eqb ?a key] =>
             let E := fresh "E" in
             destruct (String.eqb a key) eqn:E;
             [apply String.eqb_eq in E; subst key; simpl; unfold guarded|]
         end.
  - destruct (is_int_or_float v) eqn:Ev; apply Hfuel; [by destruct v|done].
  - destruct (is_int_or_float v) eqn:Ev; apply Hfuel; [by destruct v|done].
  - destruct (is_str v) eqn:Ev; apply Hfuel; [by destruct v|done].
  - destruct (is_str v) eqn:Ev; apply Hfuel; [by destruct v|done].
  - destruct v as [s|w|d]; simpl; apply Hfuel; try done.
    apply (scan_widgets_depth (JList w)).
  - exact Hin.
  - cbn [from_option]. unfold in_strs, seed_keys, control_keys_to_normalize.
    cbn [existsb]. rewrite !(String.eqb_sym key).
    rewrite E, E0, E1, E2, E3. simpl. by apply Hfuel.
Qed.

(** X18: on a mapping the function works key by key, and knows only the
    first binding of a key: the keys stay as they are, and what is bound to
    a key afterwards is what [normalized_binding] says: the value itself
    under a skipped key; elsewhere 0 for a numeric [seed] or [noise_seed],
    ["fixed"] for a string under one of the two control keys, the scanned
    list under [widgets_values], and in every case the normal form of the
    result. *)
Theorem normalize_binding_by_binding (d : dict) (key : string) (v : json) :
  dict_get key d = Some v ->
  exists d',
    normalize_workflow_seeds (JDict d) = JDict d'
    /\ d'.*1 = d.*1
    /\ dict_get key d' = Some (normalized_binding key v).
Proof.
  intros Hget. unfold normalize_workflow_seeds at 1. rewrite norm_dict.
  eexists. split; [reflexivity|]. split.
  - apply pass_keys, norm_steps_distinct.
  - rewrite dict_get_pass by apply norm_steps_distinct.
    rewrite Hget. cbn [fmap option_fmap option_map]. f_equal.
    apply binding_value.
    apply dict_get_elem in Hget.
    pose proof (depth_dict_value d key v (depth (JDict d)) ltac:(lia) Hget).
    lia.
Qed.

Lemma normalize_binding_by_binding_witness :
  exists d',
    normalize_workflow_seeds
      (JDict [("seed", JStr "7"); ("noise_seed", JInt 7);
              ("version", JDict [("seed", JInt 9)])])
    = JDict d'
    /\ d'.*1 = [("seed", JStr "7"); ("noise_seed", JInt 7);
                ("version", JDict [("seed", JInt 9)])].*1
    /\ dict_get "version" d'
       = Some (normalized_binding "version" (JDict [("seed", JInt 9)])).
Proof.
  apply (normalize_binding_by_binding
           [("seed", JStr "7"); ("noise_seed", JInt 7);
            ("version", JDict [("seed", JInt 9)])]
           "version" (JDict [("seed", JInt 9)])).
  reflexivity.
Defined.

Lemma normalize_list_items (l : list json) :
  normalize_workflow_seeds (JList l)
  = JList (map normalize_workflow_seeds l).
Proof.
  unfold normalize_workflow_seeds at 1. rewrite norm_list. f_equal.
  apply map_ext_in. intros x Hx. apply normalize_fuel.
  apply list_elem_of_In in Hx.
  pose proof (depth_list_item l x (depth (JList l)) ltac:(lia) Hx). lia.
Qed.


(** X20: under [widgets_values] the list keeps its length; a control word
    becomes ["fixed"] whether or not a number stands in front of it, an
    [int] greater than -1 in front of a control word becomes 0, and every
    other item is only normalised in itself. *)
Theorem widgets_values_item_by_item (d : dict) (w : list json) :
  dict_get "widgets_values" d = Some (JList w) ->
  exists d' w',
    normalize_workflow_seeds (JDict d) = JDict d'
    /\ dict_get "widgets_values" d' = Some (JList w')
    /\ length w' = length w
    /\ forall i x, w !! i = Some x ->
         w' !! i = Some (if is_control_str x then JStr "fixed"
                         else if is_seed_like x
                                 && from_option is_control_str false
                                                (w !! S i)
                              then JInt 0
                         else normalize_workflow_seeds x).
Proof.
  intros Hget.
  unfold normalize_workflow_seeds at 1. rewrite norm_dict.
  eexists _, (map normalize_workflow_seeds (scan_spec w)).
  split; [reflexivity|]. split; [|split].
  - rewrite dict_get_pass by apply norm_steps_distinct.
    rewrite Hget. cbn [fmap option_fmap option_map]. f_equal.
    rewrite binding_value.
    + unfold normalized_binding.
      change (in_strs "widgets_values" skipped_keys) with false.
      change (in_strs "widgets_values" seed_keys) with false.
      change (in_strs "widgets_values" control_keys_to_normalize)
        with false.
      change (String.eqb "widgets_values" "widgets_values") with true.
      cbv iota. cbn [andb].
      by rewrite scan_widgets_list, normalize_list_items.
    + apply dict_get_elem in Hget.
      pose proof (depth_dict_value d _ _ (depth (JDict d)) ltac:(lia) Hget).
      lia.
  - rewrite length_map.
    clear Hget. induction w as [|x w IH]; [done|]. simpl. by rewrite IH.
  - intros i x Hx. rewrite map_lookup, scan_spec_lookup, Hx.
    cbn [fmap option_fmap option_map]. f_equal.
    unfold rewrite_widget.
    destruct (is_control_str x) eqn:Hc.
    + destruct (is_seed_like x) eqn:Hs.
      * apply seed_like_not_control in Hs. congruence.
      * reflexivity.
    + destruct (is_seed_like x && from_option is_control_str false (w !! S i));
        reflexivity.
Qed.

Lemma widgets_values_item_by_item_witness :
  exists d' w',
    normalize_workflow_seeds
      (JDict [("widgets_values",
               JList [JStr "Fixed"; JInt 5; JStr "euler"])])
    = JDict d'
    /\ dict_get "widgets_values" d' = Some (JList w')
    /\ length w' = length [JStr "Fixed"; JInt 5; JStr "euler"]
    /\ forall i x, [JStr "Fixed"; JInt 5; JStr "euler"] !! i = Some x ->
         w' !! i = Some (if is_control_str x then JStr "fixed"
                         else if is_seed_like x
                                 && from_option is_control_str false
                                      ([JStr "Fixed"; JInt 5; JStr "euler"]
                                         !! S i)
                              then JInt 0
                         else normalize_workflow_seeds x).
Proof.
  apply (widgets_values_item_by_item
           [("widgets_values", JList [JStr "Fixed"; JInt 5; JStr "euler"])]
           [JStr "Fixed"; JInt 5; JStr "euler"]).
  reflexivity.
Defined.

(** ** Normalisation keeps the places of the leaves *)

Lemma rewrite_widget_locs (x : json) (next : option json) :
  map fst (leaves (rewrite_widget x next)) = map fst (leaves x).
Proof.
  unfold rewrite_widget.
  destruct (is_seed_like x) eqn:Hs.
  - destruct x as [s| |]; [|discriminate..].
    by destruct (from_option is_control_str false next), (is_control_str _).
  - simpl. destruct (is_control_str x) eqn:Hc; [|reflexivity].
    by destruct x.
Qed.

Lemma under_locs (st : loc_step) (L : list (location * scalar)) :
  map fst (map (under st) L) = map (cons st) (map fst L).
Proof. rewrite !map_map. by apply map_ext. Qed.

Lemma list_leaves_locs (i : nat) (l l' : list json) :
  Forall2 (fun x y => map fst (leaves x) = map fst (leaves y)) l l' ->
  map fst (list_leaves i l) = map fst (list_leaves i l').
Proof.
  intros H. revert i. induction H as [|x y l l' Hxy _ IH]; intros i; [done|].
  simpl. by rewrite !map_app, !under_locs, IH, Hxy.
Qed.

Lemma dict_leaves_locs (d : dict) :
  map fst (leaves (JDict d))
  = flat_map (fun '(k, locs) => map (fun p => Key k :: p) locs)
             (map (fun '(k, v) => (k, map fst (leaves v))) d).
Proof.
  simpl. induction d as [|[k v] r IH]; [done|]. simpl.
  by rewrite map_app, IH, under_locs.
Qed.

Lemma scan_widgets_locs (v : json) :
  map fst (leaves (scan_widgets v)) = map fst (leaves v).
Proof.
  destruct v as [s|w|d]; [done| |done].
  rewrite scan_widgets_list, !leaves_list.
  apply list_leaves_locs. generalize 0.
  induction w as [|x w IH]; intros n; [constructor|].
  simpl. constructor; [apply rewrite_widget_locs|apply (IH n)].
Qed.

(** Normalisation moves no leaf: the routes to the scalars are the same
    before and after. *)
Lemma norm_locs (n : nat) (t : json) :
  map fst (leaves (norm n t)) = map fst (leaves t).
Proof.
  revert t. induction n as [|n IH]; intros t; [done|].
  destruct t as [s|l|d]; [done| |].
  - rewrite norm_list, !leaves_list. apply list_leaves_locs.
    induction l as [|x l IHl]; simpl; constructor; [apply IH|done].
  - rewrite norm_dict, !dict_leaves_locs. f_equal.
    apply (pass_preserves (visit_value n) (fun v => map fst (leaves v)));
      [apply norm_steps_distinct| |].
    + intros k v _. rewrite visit_value_norm.
      destruct (in_strs k skipped_keys); [done|apply IH].
    + intros k v g _ Hg.
      apply steps_get_norm_steps in Hg as [Hk Hg].
      rewrite visit_value_norm, Hk, IH.
      destruct Hg as [-> | [-> | [-> | ->]]]; unfold guarded.
      * destruct (is_int_or_float v) eqn:E; [|done]. by destruct v as [[]| |].
      * destruct (is_str v) eqn:E; [|done]. by destruct v as [[]| |].
      * destruct (is_list v); [apply scan_widgets_locs|done].
      * destruct (is_dict v); [apply IH|done].
Qed.

(** X21: normalisation changes values only: the flattened tree has the
    same path strings before and after. *)
Theorem normalize_keeps_the_paths (t : json) (path : string) :
  map fst (flatten_json_to_paths (normalize_workflow_seeds t) path)
  ≡ₚ map fst (flatten_json_to_paths t path).
Proof.
  destruct (is_container t) eqn:Hc.
  - assert (Hc' : is_container (normalize_workflow_seeds t) = true).
    { unfold is_container, normalize_workflow_seeds in *.
      by rewrite norm_is_dict, norm_is_list. }
    unfold flatten_json_to_paths.
    rewrite !flatten_leaves by (done || lia).
    assert (Hr : forall L : list (location * scalar),
               map fst (map (rendered path) L)
               = map (render path) (map fst L)).
    { intros L. rewrite !map_map. by apply map_ext. }
    rewrite !Hr. unfold normalize_workflow_seeds. by rewrite norm_locs.
  - destruct t as [s| |]; try discriminate.
    unfold normalize_workflow_seeds. by rewrite norm_scalar.
Qed.

(** ** Replacing a value *)

Lemma dict_set_absent (k : string) (x : json) (d : dict) :
  dict_get k d = None -> dict_set k x d = d.
Proof.
  induction d as [|[k0 v0] r IH]; [done|]. simpl.
  destruct (String.eqb k0 k); [discriminate|]. intros H. by rewrite IH.
Qed.

Lemma dict_get_set (k : string) (x v0 : json) (d : dict) :
  dict_get k d = Some v0 -> dict_get k (dict_set k x d) = Some x.
Proof.
  induction d as [|[k0 v1] r IH]; [discriminate|]. simpl.
  destruct (String.eqb k0 k) eqn:E; simpl; rewrite E; [done|exact IH].
Qed.

(** A pass goes through an assignment: the new value is rewritten as the
    old one would have been, and the other bindings do not see it. *)
Lemma pass_dict_set (h : string -> json -> json) (s : steps) (k : string)
    (x : json) (d : dict) :
  steps_distinct s ->
  pass h s (dict_set k x d)
  = dict_set k (h k (from_option (fun g => g x) x (steps_get k s)))
             (pass h s d).
Proof.
  revert s. induction d as [|[k0 v0] r IH]; intros s Hs.
  - unfold pass. cbn [dict_set]. rewrite adjusts_nil. reflexivity.
  - cbn [dict_set]. destruct (String.eqb k0 k) eqn:E.
    + apply String.eqb_eq in E. subst k0.
      rewrite !pass_cons by done.
      destruct (steps_get k s); simpl; by rewrite String.eqb_refl.
    + assert (k0 <> k) by (intros ->; by rewrite String.eqb_refl in E).
      rewrite !pass_cons by done.
      destruct (steps_get k0 s) eqn:E0; simpl; rewrite E.
      * rewrite IH by (by apply steps_distinct_del).
        by rewrite steps_get_del_ne.
      * by rewrite IH.
Qed.

(** The normal form of a mapping after an assignment to a key it has. *)
Lemma normalize_dict_set (d : dict) (k : string) (x v0 : json) (n : nat) :
  dict_get k d = Some v0 ->
  depth (JDict (dict_set k x d)) <= S n ->
  normalize_workflow_seeds (JDict (dict_set k x d))
  = JDict (dict_set k (normalized_binding k x)
                    (pass (visit_value n) (norm_steps n) d)).
Proof.
  intros Hget Hd. rewrite <- (normalize_fuel (S n)) by done.
  rewrite norm_dict, pass_dict_set by apply norm_steps_distinct.
  rewrite binding_value; [done|].
  eapply depth_dict_value; [exact Hd|].
  apply dict_get_elem. by eapply dict_get_set.
Qed.

Lemma same_normal_form_distance (A B : json) :
  normalize_workflow_seeds A = normalize_workflow_seeds B ->
  (calculate_json_difference_percentage A B == 0)%Q.
Proof.
  intros E. unfold calculate_json_difference_percentage. rewrite E.
  rewrite set_difference_self. simpl length.
  destruct (Nat.eqb _ 0); [done|].
  unfold Qdiv. by rewrite !Qmult_0_l.
Qed.

(** X22: the value of a seed does not count: two mappings that differ only
    in the number bound to [seed] (or to [noise_seed]) have the same normal
    form and are at distance 0. *)
Theorem seed_values_are_ignored (d : dict) (key : string) (a b : json) :
  in_strs key seed_keys = true ->
  is_int_or_float a = true -> is_int_or_float b = true ->
  normalize_workflow_seeds (JDict (dict_set key a d))
  = normalize_workflow_seeds (JDict (dict_set key b d))
  /\ (calculate_json_difference_percentage
        (JDict (dict_set key a d)) (JDict (dict_set key b d)) == 0)%Q.
Proof.
  intros Hk Ha Hb.
  assert (E : normalize_workflow_seeds (JDict (dict_set key a d))
              = normalize_workflow_seeds (JDict (dict_set key b d))).
  { destruct (dict_get key d) as [v0|] eqn:Hget.
    - set (n := max (depth (JDict (dict_set key a d)))
                    (depth (JDict (dict_set key b d)))).
      rewrite (normalize_dict_set d key a v0 n) by (done || lia).
      rewrite (normalize_dict_set d key b v0 n) by (done || lia).
      do 2 f_equal. unfold normalized_binding.
      assert (in_strs key skipped_keys = false) as ->.
      { unfold in_strs, seed_keys in Hk. cbn [existsb] in Hk.
        destruct (String.eqb key "seed") eqn:E1;
          [apply String.eqb_eq in E1; by subst|].
        destruct (String.eqb key "noise_seed") eqn:E2;
          [apply String.eqb_eq in E2; by subst|done]. }
      by rewrite Hk, Ha, Hb.
    - by rewrite !dict_set_absent. }
  split; [exact E|]. by apply same_normal_form_distance.
Qed.

Lemma seed_values_are_ignored_witness :
  normalize_workflow_seeds
    (JDict (dict_set "seed" (JInt 1) [("seed", JNull); ("x", JInt 5)]))
  = normalize_workflow_seeds
      (JDict (dict_set "seed" (JScalar (SFloat (S754_finite false 1 1)))
                       [("seed", JNull); ("x", JInt 5)]))
  /\ (calculate_json_difference_percentage
        (JDict (dict_set "seed" (JInt 1) [("seed", JNull); ("x", JInt 5)]))
        (JDict (dict_set "seed" (JScalar (SFloat (S754_finite false 1 1)))
                         [("seed", JNull); ("x", JInt 5)])) == 0)%Q.
Proof.
  apply (seed_values_are_ignored [("seed", JNull); ("x", JInt 5)] "seed"
           (JInt 1) (JScalar (SFloat (S754_finite false 1 1))));
    reflexivity.
Defined.

Lemma normalize_kind (v : json) :
  is_dict (normalize_workflow_seeds v) = is_dict v
  /\ is_list (normalize_workflow_seeds v) = is_list v
  /\ (is_container v = false -> normalize_workflow_seeds v = v).
Proof.
  unfold normalize_workflow_seeds.
  split; [apply norm_is_dict|]. split; [apply norm_is_list|].
  apply norm_not_container.
Qed.

Lemma same_normal_form_scalar (v1 v2 : json) :
  normalize_workflow_seeds v1 = normalize_workflow_seeds v2 ->
  is_container v1 = false -> v1 = v2.
Proof.
  intros E H1.
  destruct (normalize_kind v1) as (D1 & L1 & S1).
  destruct (normalize_kind v2) as (D2 & L2 & S2).
  assert (H2 : is_container v2 = false).
  { unfold is_container in *. by rewrite <- D2, <- L2, <- E, D1, L1. }
  by rewrite <- (S1 H1), <- (S2 H2).
Qed.

Lemma normalize_scan_widgets (v : json) :
  normalize_workflow_seeds (scan_widgets v)
  = scan_widgets (normalize_workflow_seeds v).
Proof.
  unfold normalize_workflow_seeds.
  by rewrite scan_widgets_depth, scan_widgets_norm.
Qed.

(** X23: normalisation of a mapping sees a value only through the normal
    form of that value: replacing a value, under a key that is not
    skipped, by one with the same normal form does not change the normal
    form of the mapping. *)
Theorem normalize_respects_normal_forms (d : dict) (key : string)
    (v1 v2 : json) :
  in_strs key skipped_keys = false ->
  normalize_workflow_seeds v1 = normalize_workflow_seeds v2 ->
  normalize_workflow_seeds (JDict (dict_set key v1 d))
  = normalize_workflow_seeds (JDict (dict_set key v2 d)).
Proof.
  intros Hk E.
  destruct (dict_get key d) as [v0|] eqn:Hget;
    [|by rewrite !dict_set_absent].
  set (n := max (depth (JDict (dict_set key v1 d)))
                (depth (JDict (dict_set key v2 d)))).
  rewrite (normalize_dict_set d key v1 v0 n) by (done || lia).
  rewrite (normalize_dict_set d key v2 v0 n) by (done || lia).
  do 2 f_equal. unfold normalized_binding. rewrite Hk.
  destruct (is_container v1) eqn:C1.
  - assert (C2 : is_container v2 = true).
    { destruct (normalize_kind v1) as (D1 & L1 & _).
      destruct (normalize_kind v2) as (D2 & L2 & _).
      unfold is_container in *. by rewrite <- D2, <- L2, <- E, D1, L1. }
    assert (is_int_or_float v1 = false) as -> by (by destruct v1).
    assert (is_int_or_float v2 = false) as -> by (by destruct v2).
    assert (is_str v1 = false) as -> by (by destruct v1).
    assert (is_str v2 = false) as -> by (by destruct v2).
    rewrite !andb_false_r.
    destruct (String.eqb key "widgets_values"); [|done].
    by rewrite !normalize_scan_widgets, E.
  - by rewrite (same_normal_form_scalar v1 v2 E C1).
Qed.

Lemma normalize_respects_normal_forms_witness :
  normalize_workflow_seeds
    (JDict (dict_set "inputs" (JDict [("seed", JInt 1)])
                     [("id", JInt 3); ("inputs", JNull)]))
  = normalize_workflow_seeds
      (JDict (dict_set "inputs" (JDict [("seed", JInt 2)])
                       [("id", JInt 3); ("inputs", JNull)])).
Proof.
  apply (normalize_respects_normal_forms
           [("id", JInt 3); ("inputs", JNull)] "inputs"
           (JDict [("seed", JInt 1)]) (JDict [("seed", JInt 2)]));
    reflexivity.
Defined.

(** ** The order of the entries of a mapping *)

(** With distinct keys a pass rewrites every binding on its own. *)
Lemma pass_distinct_keys (h : string -> json -> json) (s : steps) (d : dict) :
  steps_distinct s -> NoDup d.*1 ->
  pass h s d
  = map (fun '(k, v) =>
           (k, h k (from_option (fun g => g v) v (steps_get k s)))) d.
Proof.
  revert s. induction d as [|[k v] r IH]; intros s Hs Hnd.
  - unfold pass. by rewrite adjusts_nil.
  - apply NoDup_cons in Hnd as [Hk Hnd]. rewrite pass_cons by done.
    assert (Hr : forall s', steps_distinct s' ->
               (forall k', k' <> k -> steps_get k' s' = steps_get k' s) ->
               pass h s' r
               = map (fun '(k0, v0) =>
                        (k0, h k0 (from_option (fun g => g v0) v0
                                               (steps_get k0 s)))) r).
    { intros s' Hs' Hget. rewrite IH by done.
      apply map_ext_in. intros [k0 v0] Hin. rewrite Hget; [done|].
      intros ->. apply Hk. apply list_elem_of_fmap. exists (k, v0).
      split; [done|by apply list_elem_of_In]. }
    simpl. destruct (steps_get k s) eqn:E; simpl; f_equal.
    + apply Hr; [by apply steps_distinct_del|].
      intros k' Hne. by apply steps_get_del_ne.
    + by apply Hr.
Qed.

Lemma depth_dict_perm (d1 d2 : dict) :
  d1 ≡ₚ d2 -> depth (JDict d1) = depth (JDict d2).
Proof. intros Hp. simpl. f_equal. by rewrite Hp. Qed.

Lemma normalize_dict_perm (d1 d2 : dict) :
  NoDup d1.*1 -> d1 ≡ₚ d2 ->
  exists d1' d2',
    normalize_workflow_seeds (JDict d1) = JDict d1'
    /\ normalize_workflow_seeds (JDict d2) = JDict d2'
    /\ d1' ≡ₚ d2'.
Proof.
  intros Hnd Hp.
  assert (Hnd2 : NoDup d2.*1) by (by rewrite <- Hp).
  unfold normalize_workflow_seeds.
  rewrite <- (depth_dict_perm d1 d2 Hp), !norm_dict.
  rewrite !pass_distinct_keys by (done || apply norm_steps_distinct).
  eexists _, _. split; [done|]. split; [done|].
  by apply Permutation_map.
Qed.

Lemma keys_of_set (l : list path_value) (k : string * hash_key) :
  k ∈ map tuple_key (set_of_list l) <-> k ∈ map tuple_key l.
Proof.
  rewrite !elem_of_map_key. split.
  - intros (x & Hx & <-). exists x. split; [|done].
    by apply elem_of_set_of_list.
  - intros (x & Hx & <-).
    assert (Hm : set_mem x (set_of_list l) = true).
    { rewrite set_mem_set_of_list. by apply set_mem_self. }
    apply set_mem_key in Hm. by apply elem_of_map_key in Hm.
Qed.

Lemma keys_of_set_perm (l l' : list path_value) :
  l ≡ₚ l' ->
  map tuple_key (set_of_list l) ≡ₚ map tuple_key (set_of_list l').
Proof.
  intros Hp. apply NoDup_Permutation; try apply set_of_list_NoDup.
  intros k. rewrite !keys_of_set. by rewrite Hp.
Qed.

Lemma length_difference_keys (a b : list path_value) :
  length (set_difference a b)
  = length (filter (fun k => k ∉ map tuple_key b) (map tuple_key a)).
Proof.
  unfold set_difference. induction a as [|x a IH]; [done|]. simpl.
  rewrite !filter_cons.
  destruct (decide (set_mem x b = false)) as [E|E];
    destruct (decide (tuple_key x ∉ map tuple_key b)) as [K|K];
    simpl; rewrite ?IH; try done; exfalso.
  - apply K. intros Hin. apply set_mem_key in Hin. congruence.
  - apply E. apply not_true_is_false. intros Hm. apply K.
    by apply set_mem_key.
Qed.

(** The sizes the metric uses depend on the two lists of tuples only up to
    their order. *)
Lemma set_sizes_perm (l1 l1' l2 l2' : list path_value) :
  l1 ≡ₚ l1' -> l2 ≡ₚ l2' ->
  length (set_difference (set_of_list l1) (set_of_list l2))
  = length (set_difference (set_of_list l1') (set_of_list l2'))
  /\ length (set_of_list l1) = length (set_of_list l1').
Proof.
  intros H1 H2.
  pose proof (keys_of_set_perm l1 l1' H1) as K1.
  pose proof (keys_of_set_perm l2 l2' H2) as K2.
  split.
  - rewrite !length_difference_keys.
    rewrite (list_filter_iff _
               (fun k => k ∉ map tuple_key (set_of_list l2'))).
    + by rewrite K1.
    + intros k. by rewrite K2.
  - rewrite <- (length_map tuple_key (set_of_list l1)).
    rewrite <- (length_map tuple_key (set_of_list l1')).
    by rewrite K1.
Qed.

(** X24: the order of the entries of a mapping (with distinct keys) does
    not count: a reordered root mapping is at the same distance from any
    other tree, and at distance 0 from the original. *)
Theorem key_order_does_not_count (d1 d2 : dict) (B : json) :
  NoDup d1.*1 -> d1 ≡ₚ d2 ->
  calculate_json_difference_percentage (JDict d1) B
  = calculate_json_difference_percentage (JDict d2) B
  /\ (calculate_json_difference_percentage (JDict d1) (JDict d2) == 0)%Q.
Proof.
  intros Hnd Hp.
  destruct (normalize_dict_perm d1 d2 Hnd Hp) as (d1' & d2' & E1 & E2 & Hp').
  pose proof (flatten_dict_order d1' d2' "" Hp') as HF.
  split.
  - unfold calculate_json_difference_percentage. rewrite E1, E2.
    set (F1 := flatten_json_to_paths (JDict d1') "") in *.
    set (F1' := flatten_json_to_paths (JDict d2') "") in *.
    set (F2 := flatten_json_to_paths (normalize_workflow_seeds B) "").
    destruct (set_sizes_perm F1 F1' F2 F2 HF ltac:(done)) as [Ha Hl].
    destruct (set_sizes_perm F2 F2 F1 F1' ltac:(done) HF) as [Hb _].
    unfold set_union. rewrite !length_app, Ha, Hb, Hl. reflexivity.
  - apply difference_zero_iff_same_paths_aux.
    rewrite E1, E2.
    destruct (set_sizes_perm (flatten_json_to_paths (JDict d1') "")
                (flatten_json_to_paths (JDict d2') "")
                (flatten_json_to_paths (JDict d2') "")
                (flatten_json_to_paths (JDict d2') "") HF ltac:(done))
      as [Ha _].
    destruct (set_sizes_perm (flatten_json_to_paths (JDict d2') "")
                (flatten_json_to_paths (JDict d2') "")
                (flatten_json_to_paths (JDict d1') "")
                (flatten_json_to_paths (JDict d2') "") ltac:(done) HF)
      as [Hb _].
    rewrite set_difference_self in Ha, Hb. simpl in Ha, Hb.
    split; by apply length_zero_iff_nil.
Qed.

Lemma only_json_files_are_touched_witness :
  Forall (fun r => line_name r ∈ listdir example_dir
                   /\ is_json_name (line_name r) = true)
         [Initial "a.json"; Compared "b.JSON" (Some "a.json") (0 # 2) DELETED].
Proof.
  apply (only_json_files_are_touched example_dir (Some 10%Q) 2 1 1
           [Initial "a.json";
            Compared "b.JSON" (Some "a.json") (0 # 2) DELETED]).
  reflexivity.
Defined.

Lemma key_order_does_not_count_witness :
  calculate_json_difference_percentage
    (JDict [("seed", JInt 1); ("x", JInt 5)]) F3
  = calculate_json_difference_percentage
      (JDict [("x", JInt 5); ("seed", JInt 1)]) F3
  /\ (calculate_json_difference_percentage
        (JDict [("seed", JInt 1); ("x", JInt 5)])
        (JDict [("x", JInt 5); ("seed", JInt 1)]) == 0)%Q.
Proof.
  apply (key_order_does_not_count
           [("seed", JInt 1); ("x", JInt 5)]
           [("x", JInt 5); ("seed", JInt 1)] F3).
  - apply (bool_decide_unpack _). reflexivity.
  - apply perm_swap.
Defined.
(** * The converter's normalisation *)

Lemma convert_norm_scalar (n : nat) (s : scalar) :
  Convert.norm n (JScalar s) = JScalar s.
Proof. by destruct n. Qed.

Lemma convert_norm_list (n : nat) (l : list json) :
  Convert.norm (S n) (JList l) = JList (map (Convert.norm n) l).
Proof. reflexivity. Qed.

Lemma convert_norm_dict (n : nat) (d : dict) :
  Convert.norm (S n) (JDict d)
  = JDict (pass (Convert.visit_value n) (Convert.norm_steps n) d).
Proof.
  cbn [Convert.norm]. unfold Convert.seed_keys, Convert.control_keys.
  cbn [fold_left]. rewrite !update_if_adjust. f_equal.
  apply map_ext. intros [k v]. unfold Convert.visit_value.
  by destruct (is_dict v || is_list v).
Qed.

Lemma convert_norm_steps_distinct (n : nat) :
  steps_distinct (Convert.norm_steps n).
Proof. simpl. repeat split. Qed.

Lemma convert_visit_value_norm (n : nat) (k : string) (v : json) :
  Convert.visit_value n k v = Convert.norm n v.
Proof.
  unfold Convert.visit_value. destruct v as [s| |]; try reflexivity.
  symmetry. apply convert_norm_scalar.
Qed.

Lemma convert_steps_get (n : nat) (k : string) (g : json -> json) :
  steps_get k (Convert.norm_steps n) = Some g ->
  g = (fun _ => JInt 0) \/ g = (fun _ => JStr "fixed")
  \/ g = guarded is_list Convert.scan_widgets \/ g = Convert.norm n.
Proof.
  unfold Convert.norm_steps. cbn [steps_get].
  repeat match goal with
         | |- context [String.eqb ?a k] =>
             let E := fresh "E" in
             destruct (String.eqb a k) eqn:E;
             [intros [= <-]; tauto|clear E]
         end.
  discriminate.
Qed.

(** ** The scan of the converter, position by position *)

Lemma convert_widgets_loop_app (rest done : list json) :
  Convert.widgets_loop (length rest) (length done) (done ++ rest)
  = done ++ Convert.scan_spec rest.
Proof.
  remember (length rest) as n eqn:Hn. revert rest done Hn.
  induction n as [|n IH]; intros [|x tl] done Hn; try discriminate.
  - reflexivity.
  - injection Hn as ->.
    simpl Convert.widgets_loop. unfold Convert.widgets_body.
    rewrite (list_lookup_middle done tl x (length done) eq_refl).
    assert (Hnext : (done ++ x :: tl) !! (length done + 1) = head tl).
    { rewrite lookup_app_r by lia.
      replace (length done + 1 - length done) with 1 by lia.
      by destruct tl. }
    rewrite Hnext.
    assert (Hstep : forall z, done ++ z :: tl = (done ++ [z]) ++ tl)
      by (intros z; by rewrite <- app_assoc).
    assert (Hlen : forall z : json, S (length done) = length (done ++ [z]))
      by (intros z; rewrite length_app; simpl; lia).
    assert (Hlt : (length done + 1 <? length (done ++ x :: tl))
                  && from_option Convert.is_control_word false (head tl)
                  = from_option Convert.is_control_word false (head tl)).
    { destruct tl as [|y tl']; [by rewrite andb_false_r|].
      assert ((length done + 1 <? length (done ++ x :: y :: tl')) = true)
        as -> by (apply Nat.ltb_lt; rewrite length_app; simpl; lia).
      reflexivity. }
    rewrite Hlt. cbn [Convert.scan_spec]. unfold Convert.rewrite_widget.
    destruct (Convert.is_large_int x); cbn [andb];
      [destruct (from_option Convert.is_control_word false (head tl))|].
    + replace (<[length done:=JInt 0]> (done ++ x :: tl))
        with ((done ++ [JInt 0]) ++ tl).
      2:{ replace (length done) with (length done + 0) at 1 by lia.
          rewrite insert_app_r. simpl. by rewrite <- app_assoc. }
      rewrite (Hlen (JInt 0)), IH by done. by rewrite <- app_assoc.
    + rewrite (Hstep x), (Hlen x), IH by done. by rewrite <- app_assoc.
    + rewrite (Hstep x), (Hlen x), IH by done. by rewrite <- app_assoc.
Qed.

Lemma convert_scan_widgets_list (w : list json) :
  Convert.scan_widgets (JList w) = JList (Convert.scan_spec w).
Proof.
  cbn [Convert.scan_widgets]. f_equal. apply (convert_widgets_loop_app w []).
Qed.

Lemma convert_scan_spec_lookup (w : list json) (i : nat) :
  Convert.scan_spec w !! i
  = (fun x => Convert.rewrite_widget x (w !! S i)) <$> w !! i.
Proof.
  revert i. induction w as [|x tl IH]; intros i; [reflexivity|].
  destruct i as [|i]; simpl.
  - by destruct tl.
  - apply IH.
Qed.

Lemma convert_scan_spec_length (w : list json) :
  length (Convert.scan_spec w) = length w.
Proof. induction w as [|x tl IH]; [reflexivity|]. simpl. by rewrite IH. Qed.

(** ** Kinds of values under the converter's normalisation *)

Lemma convert_norm_is_dict (n : nat) (v : json) :
  is_dict (Convert.norm n v) = is_dict v.
Proof.
  destruct n as [|n]; [reflexivity|].
  destruct v as [s|l|d]; [reflexivity|reflexivity|].
  by rewrite convert_norm_dict.
Qed.

Lemma convert_norm_is_list (n : nat) (v : json) :
  is_list (Convert.norm n v) = is_list v.
Proof.
  destruct n as [|n]; [reflexivity|].
  destruct v as [s|l|d]; [reflexivity|reflexivity|].
  by rewrite convert_norm_dict.
Qed.

Lemma convert_norm_is_large_int (n : nat) (v : json) :
  Convert.is_large_int (Convert.norm n v) = Convert.is_large_int v.
Proof.
  destruct v as [s|l|d]; [by rewrite convert_norm_scalar| |].
  - destruct n; reflexivity.
  - destruct n; [reflexivity|]. by rewrite convert_norm_dict.
Qed.

Lemma convert_norm_is_control_word (n : nat) (v : json) :
  Convert.is_control_word (Convert.norm n v) = Convert.is_control_word v.
Proof.
  destruct v as [s|l|d]; [by rewrite convert_norm_scalar| |].
  - destruct n; reflexivity.
  - destruct n; [reflexivity|]. by rewrite convert_norm_dict.
Qed.

Lemma convert_large_int_not_word (x : json) :
  Convert.is_large_int x = true -> Convert.is_control_word x = false.
Proof. by destruct x as [[]| |]. Qed.

Lemma convert_rewrite_widget_word (x : json) (next : option json) :
  Convert.is_control_word (Convert.rewrite_widget x next)
  = Convert.is_control_word x.
Proof.
  unfold Convert.rewrite_widget.
  destruct (Convert.is_large_int x) eqn:Hs; [|reflexivity].
  destruct (from_option Convert.is_control_word false next);
    [|reflexivity].
  by rewrite (convert_large_int_not_word x Hs).
Qed.

Lemma convert_rewrite_widget_stable (x : json) (next next' : option json) :
  from_option Convert.is_control_word false next'
  = from_option Convert.is_control_word false next ->
  Convert.rewrite_widget (Convert.rewrite_widget x next) next'
  = Convert.rewrite_widget x next.
Proof.
  intros E. unfold Convert.rewrite_widget at 2 3.
  destruct (Convert.is_large_int x
            && from_option Convert.is_control_word false next) eqn:Hc;
    [reflexivity|].
  unfold Convert.rewrite_widget. by rewrite E, Hc.
Qed.

Lemma convert_scan_spec_idempotent (w : list json) :
  Convert.scan_spec (Convert.scan_spec w) = Convert.scan_spec w.
Proof.
  induction w as [|x tl IH]; [reflexivity|]. simpl. f_equal; [|exact IH].
  apply convert_rewrite_widget_stable.
  destruct tl as [|y tl]; [reflexivity|]. apply convert_rewrite_widget_word.
Qed.

Lemma convert_rewrite_widget_norm (n : nat) (x : json) (next : option json) :
  Convert.rewrite_widget (Convert.norm n x) (Convert.norm n <$> next)
  = Convert.norm n (Convert.rewrite_widget x next).
Proof.
  unfold Convert.rewrite_widget. rewrite convert_norm_is_large_int.
  assert (from_option Convert.is_control_word false (Convert.norm n <$> next)
          = from_option Convert.is_control_word false next) as ->.
  { destruct next; [apply convert_norm_is_control_word|reflexivity]. }
  destruct (Convert.is_large_int x
            && from_option Convert.is_control_word false next);
    [|reflexivity].
  symmetry. apply convert_norm_scalar.
Qed.

Lemma convert_scan_spec_norm (n : nat) (w : list json) :
  Convert.scan_spec (map (Convert.norm n) w)
  = map (Convert.norm n) (Convert.scan_spec w).
Proof.
  induction w as [|x tl IH]; [reflexivity|]. simpl. f_equal; [|exact IH].
  rewrite <- convert_rewrite_widget_norm. f_equal. by destruct tl.
Qed.

Lemma convert_scan_widgets_norm (n : nat) (v : json) :
  guarded is_list Convert.scan_widgets (Convert.norm n v)
  = Convert.norm n (guarded is_list Convert.scan_widgets v).
Proof.
  unfold guarded. rewrite convert_norm_is_list.
  destruct v as [s|w|d]; try reflexivity. cbn [is_list].
  destruct n as [|n]; [reflexivity|].
  rewrite convert_norm_list, !convert_scan_widgets_list, convert_norm_list.
  f_equal. apply convert_scan_spec_norm.
Qed.

Lemma convert_scan_widgets_idempotent (v : json) :
  guarded is_list Convert.scan_widgets
    (guarded is_list Convert.scan_widgets v)
  = guarded is_list Convert.scan_widgets v.
Proof.
  destruct v as [s|w|d]; try reflexivity. unfold guarded. cbn [is_list].
  rewrite convert_scan_widgets_list. cbn [is_list].
  by rewrite convert_scan_widgets_list, convert_scan_spec_idempotent.
Qed.

Lemma convert_rewrite_widget_depth (x : json) (next : option json) :
  depth (Convert.rewrite_widget x next) = depth x.
Proof.
  unfold Convert.rewrite_widget.
  destruct (Convert.is_large_int x) eqn:Hs; [|reflexivity].
  destruct x as [s| |]; [|discriminate..].
  by destruct (from_option Convert.is_control_word false next).
Qed.

Lemma convert_scan_widgets_depth (v : json) :
  depth (guarded is_list Convert.scan_widgets v) = depth v.
Proof.
  destruct v as [s|w|d]; try reflexivity. unfold guarded. cbn [is_list].
  rewrite convert_scan_widgets_list. simpl. do 2 f_equal.
  induction w as [|x tl IH]; [reflexivity|]. simpl.
  by rewrite convert_rewrite_widget_depth, IH.
Qed.

(** ** Heights, fuel and idempotence for the converter *)

Lemma pass_related (R : json -> json -> Prop) (h : string -> json -> json)
    (s : steps) (d : dict) :
  steps_distinct s ->
  (forall k v, (k, v) ∈ d -> R (h k v) v) ->
  (forall k v g, (k, v) ∈ d -> steps_get k s = Some g -> R (h k (g v)) v) ->
  Forall2 (fun p q => p.1 = q.1 /\ R p.2 q.2) (pass h s d) d.
Proof.
  revert s. induction d as [|[k v] r IH]; intros s Hd Hh Hg.
  - unfold pass. rewrite adjusts_nil. constructor.
  - rewrite pass_cons by done.
    destruct (steps_get k s) as [g|] eqn:E; constructor.
    + split; [reflexivity|]. apply Hg; [left|done].
    + apply IH.
      * by apply steps_distinct_del.
      * intros k' v' Hin. apply Hh. by right.
      * intros k' v' g' Hin Hs. apply Hg; [by right|].
        by eapply steps_get_del_Some.
    + split; [reflexivity|]. apply Hh. left.
    + apply IH; [done| |].
      * intros k' v' Hin. apply Hh. by right.
      * intros k' v' g' Hin Hs. apply Hg; [by right|done].
Qed.

Lemma depth_dict_related (d' d : dict) :
  Forall2 (fun p q => p.1 = q.1 /\ depth p.2 <= depth q.2) d' d ->
  depth (JDict d') <= depth (JDict d).
Proof.
  intros H. simpl. apply le_n_S.
  induction H as [|[k' v'] [k v] r' r [_ Hv] _ IH]; [done|].
  simpl in *. lia.
Qed.

Lemma convert_norm_depth (n : nat) (t : json) :
  depth (Convert.norm n t) <= depth t.
Proof.
  revert t. induction n as [|n IH]; intros t; [reflexivity|].
  destruct t as [s|l|d]; [reflexivity| |].
  - rewrite convert_norm_list. simpl. apply le_n_S.
    induction l as [|x l IHl]; [done|]. simpl. specialize (IH x). lia.
  - rewrite convert_norm_dict. apply depth_dict_related.
    apply (pass_related (fun a b => depth a <= depth b));
      [apply convert_norm_steps_distinct| |].
    + intros k v _. rewrite convert_visit_value_norm. apply IH.
    + intros k v g _ Hg. rewrite convert_visit_value_norm.
      etrans; [apply IH|].
      destruct (convert_steps_get n k g Hg) as [-> | [-> | [-> | ->]]].
      * simpl. lia.
      * simpl. lia.
      * by rewrite convert_scan_widgets_depth.
      * apply IH.
Qed.

Lemma convert_steps_get_fuel (n m : nat) (k : string) :
  (steps_get k (Convert.norm_steps n) = None
   <-> steps_get k (Convert.norm_steps m) = None)
  /\ forall g g',
       steps_get k (Convert.norm_steps n) = Some g ->
       steps_get k (Convert.norm_steps m) = Some g' ->
       g = g' \/ (g = Convert.norm n /\ g' = Convert.norm m).
Proof.
  unfold Convert.norm_steps. cbn [steps_get].
  repeat match goal with
         | |- context [String.eqb ?a k] =>
             destruct (String.eqb a k);
             [split; [done|]; intros g g' [= <-] [= <-]; tauto|]
         end.
  split; [done|]. discriminate.
Qed.

Lemma convert_norm_fuel_enough (n m : nat) (t : json) :
  depth t <= n -> depth t <= m -> Convert.norm n t = Convert.norm m t.
Proof.
  revert m t. induction n as [|n IH]; intros m t Hn Hm.
  - destruct t; simpl in Hn; try lia. symmetry. apply convert_norm_scalar.
  - destruct m as [|m].
    + destruct t; simpl in Hm; try lia. reflexivity.
    + destruct t as [s|l|d]; [reflexivity| |].
      * rewrite !convert_norm_list. f_equal. apply map_ext_in. intros x Hx.
        apply list_elem_of_In in Hx.
        apply IH; by eapply depth_list_item.
      * rewrite !convert_norm_dict. f_equal.
        apply pass_ext; try apply convert_norm_steps_distinct.
        -- intros k. apply convert_steps_get_fuel.
        -- intros k v Hin. rewrite !convert_visit_value_norm.
           apply IH; by eapply depth_dict_value.
        -- intros k v g g' Hin Hg Hg'.
           pose proof (depth_dict_value d k v n Hn Hin) as Hvn.
           pose proof (depth_dict_value d k v m Hm Hin) as Hvm.
           rewrite !convert_visit_value_norm.
           destruct (convert_steps_get_fuel n m k) as [_ Hc].
           destruct (Hc g g' Hg Hg') as [<- | [-> ->]].
           ++ destruct (convert_steps_get n k g Hg)
                as [-> | [-> | [-> | ->]]].
              ** apply IH; simpl; lia.
              ** apply IH; simpl; lia.
              ** apply IH; rewrite convert_scan_widgets_depth; lia.
              ** pose proof (convert_norm_depth n v). apply IH; lia.
           ++ rewrite <- (IH m v) by done.
              pose proof (convert_norm_depth n v). apply IH; lia.
Qed.

Lemma convert_normalize_fuel (n : nat) (t : json) :
  depth t <= n -> Convert.norm n t = Convert.normalize_workflow_seeds t.
Proof. intros H. apply convert_norm_fuel_enough; [done|lia]. Qed.

Lemma convert_norm_idempotent_fuel (n : nat) (t : json) :
  depth t <= n -> Convert.norm n (Convert.norm n t) = Convert.norm n t.
Proof.
  revert t. induction n as [|n IH]; intros t Ht; [reflexivity|].
  destruct t as [s|l|d]; [reflexivity| |].
  - rewrite !convert_norm_list. f_equal. rewrite map_map.
    apply map_ext_in. intros x Hx. apply IH.
    eapply depth_list_item; [exact Ht|]. by apply list_elem_of_In.
  - rewrite !convert_norm_dict. f_equal.
    apply pass_idempotent; [apply convert_norm_steps_distinct| |].
    + intros k v Hin. rewrite !convert_visit_value_norm.
      apply IH. by eapply depth_dict_value.
    + intros k v g Hin Hg.
      pose proof (depth_dict_value d k v n Ht Hin) as Hv.
      rewrite !convert_visit_value_norm.
      destruct (convert_steps_get n k g Hg) as [-> | [-> | [-> | ->]]].
      * reflexivity.
      * reflexivity.
      * rewrite convert_scan_widgets_norm, convert_scan_widgets_idempotent.
        apply IH. by rewrite convert_scan_widgets_depth.
      * by rewrite !(IH v Hv).
Qed.

(** X25: the converter's normalisation is idempotent as well. *)
Theorem convert_normalize_idempotent (workflow : json) :
  Convert.normalize_workflow_seeds
    (Convert.normalize_workflow_seeds workflow)
  = Convert.normalize_workflow_seeds workflow.
Proof.
  pose proof (convert_norm_depth (S (depth workflow)) workflow) as Hd.
  rewrite <- (convert_normalize_fuel (S (depth workflow))
                (Convert.normalize_workflow_seeds workflow))
    by (unfold Convert.normalize_workflow_seeds; lia).
  unfold Convert.normalize_workflow_seeds.
  apply convert_norm_idempotent_fuel. lia.
Qed.

(** ** The converter's normalisation, key by key *)

Lemma convert_scan_unguarded (v : json) :
  guarded is_list Convert.scan_widgets v = Convert.scan_widgets v.
Proof. by destruct v. Qed.

Lemma convert_binding_value (n : nat) (key : string) (v : json) :
  depth v <= n ->
  Convert.visit_value n key
    (from_option (fun g => g v) v (steps_get key (Convert.norm_steps n)))
  = Convert.normalized_binding key v.
Proof.
  intros Hd. unfold Convert.normalized_binding.
  rewrite convert_visit_value_norm.
  assert (Hfuel : forall u, depth u <= depth v ->
                    Convert.norm n u = Convert.normalize_workflow_seeds u).
  { intros u Hu. apply convert_normalize_fuel. lia. }
  assert (Hin : Convert.norm n (Convert.norm n v)
                = Convert.normalize_workflow_seeds v).
  { rewrite convert_norm_idempotent_fuel by done. by apply Hfuel. }
  unfold Convert.norm_steps.
  generalize dependent (Convert.norm n). intros nn Hfuel Hin.
  generalize dependent Convert.normalize_workflow_seeds. intros N Hfuel Hin.
  cbn [steps_get].
  repeat match goal with
         | |- context [String.eqb ?a key] =>
             let E := fresh "E" in
             destruct (String.eqb a key) eqn:E;
             [apply String.eqb_eq in E; subst key; simpl; unfold guarded|]
         end.
  - apply Hfuel. simpl. lia.
  - apply Hfuel. simpl. lia.
  - apply Hfuel. simpl. lia.
  - fold (guarded is_list Convert.scan_widgets v).
    rewrite <- convert_scan_unguarded.
    apply Hfuel. by rewrite convert_scan_widgets_depth.
  - exact Hin.
  - cbn [from_option]. unfold in_strs, Convert.seed_keys.
    cbn [existsb]. rewrite !(String.eqb_sym key).
    rewrite E, E0, E1, E2. simpl. by apply Hfuel.
Qed.

Lemma convert_binding_by_binding_aux (d : dict) (key : string) (v : json) :
  dict_get key d = Some v ->
  exists d',
    Convert.normalize_workflow_seeds (JDict d) = JDict d'
    /\ dict_get key d' = Some (Convert.normalized_binding key v).
Proof.
  intros Hget. unfold Convert.normalize_workflow_seeds at 1.
  rewrite convert_norm_dict.
  eexists. split; [reflexivity|].
  rewrite dict_get_pass by apply convert_norm_steps_distinct.
  rewrite Hget. cbn [fmap option_fmap option_map]. f_equal.
  apply convert_binding_value.
  apply dict_get_elem in Hget.
  pose proof (depth_dict_value d key v (depth (JDict d)) ltac:(lia) Hget).
  lia.
Qed.

(** X26: on a mapping the converter's normalisation works key by key: the
    keys stay as they are; [seed] and [noise_seed] are bound to 0 and
    [control_after_generate] to ["fixed"] whatever they were bound to; the
    list under [widgets_values] is scanned; and every value is normalised
    in itself.  No key is left out, and [control_before_generate] is a key
    like any other. *)
Theorem convert_binding_by_binding (d : dict) (key : string) (v : json) :
  dict_get key d = Some v ->
  exists d',
    Convert.normalize_workflow_seeds (JDict d) = JDict d'
    /\ d'.*1 = d.*1
    /\ dict_get key d' = Some (Convert.normalized_binding key v).
Proof.
  intros Hget. unfold Convert.normalize_workflow_seeds at 1.
  rewrite convert_norm_dict.
  eexists. split; [reflexivity|]. split.
  - apply pass_keys, convert_norm_steps_distinct.
  - rewrite dict_get_pass by apply convert_norm_steps_distinct.
    rewrite Hget. cbn [fmap option_fmap option_map]. f_equal.
    apply convert_binding_value.
    apply dict_get_elem in Hget.
    pose proof (depth_dict_value d key v (depth (JDict d)) ltac:(lia) Hget).
    lia.
Qed.

Lemma convert_binding_by_binding_witness :
  exists d',
    Convert.normalize_workflow_seeds
      (JDict [("seed", JDict [("x", JInt 1)]);
              ("version", JDict [("noise_seed", JStr "7")])])
    = JDict d'
    /\ d'.*1 = [("seed", JDict [("x", JInt 1)]);
                ("version", JDict [("noise_seed", JStr "7")])].*1
    /\ dict_get "version" d'
       = Some (Convert.normalized_binding "version"
                 (JDict [("noise_seed", JStr "7")])).
Proof.
  apply (convert_binding_by_binding
           [("seed", JDict [("x", JInt 1)]);
            ("version", JDict [("noise_seed", JStr "7")])]
           "version" (JDict [("noise_seed", JStr "7")])).
  reflexivity.
Defined.

Lemma convert_normalize_list_items (l : list json) :
  Convert.normalize_workflow_seeds (JList l)
  = JList (map Convert.normalize_workflow_seeds l).
Proof.
  unfold Convert.normalize_workflow_seeds at 1.
  rewrite convert_norm_list. f_equal.
  apply map_ext_in. intros x Hx. apply convert_normalize_fuel.
  apply list_elem_of_In in Hx.
  pose proof (depth_list_item l x (depth (JList l)) ltac:(lia) Hx). lia.
Qed.

(** X27: under [widgets_values] the converter's scan keeps the length of
    the list and rewrites one kind of item only: an [int] above 1000000
    that stands in front of one of the four control words, written in
    small letters, becomes 0.  Every other item, the control words
    included, is only normalised in itself. *)
Theorem convert_widgets_item_by_item (d : dict) (w : list json) :
  dict_get "widgets_values" d = Some (JList w) ->
  exists d' w',
    Convert.normalize_workflow_seeds (JDict d) = JDict d'
    /\ dict_get "widgets_values" d' = Some (JList w')
    /\ length w' = length w
    /\ forall i x, w !! i = Some x ->
         w' !! i = Some (if Convert.is_large_int x
                            && from_option Convert.is_control_word false
                                           (w !! S i)
                         then JInt 0
                         else Convert.normalize_workflow_seeds x).
Proof.
  intros Hget.
  destruct (convert_binding_by_binding_aux d _ _ Hget) as (d' & E & Hd').
  exists d', (map Convert.normalize_workflow_seeds (Convert.scan_spec w)).
  split; [exact E|]. split; [|split].
  - rewrite Hd'. f_equal. unfold Convert.normalized_binding.
    change (in_strs "widgets_values" Convert.seed_keys) with false.
    change (String.eqb "widgets_values" "control_after_generate")
      with false.
    change (String.eqb "widgets_values" "widgets_values") with true.
    cbv iota.
    by rewrite convert_scan_widgets_list, convert_normalize_list_items.
  - by rewrite length_map, convert_scan_spec_length.
  - intros i x Hx. rewrite map_lookup, convert_scan_spec_lookup, Hx.
    cbn [fmap option_fmap option_map]. f_equal.
    unfold Convert.rewrite_widget.
    by destruct (Convert.is_large_int x
                 && from_option Convert.is_control_word false (w !! S i)).
Qed.

Lemma convert_widgets_item_by_item_witness :
  exists d' w',
    Convert.normalize_workflow_seeds
      (JDict [("widgets_values",
               JList [JInt 2000000; JStr "Randomize"; JInt 2000000;
                      JStr "fixed"; JInt 7; JStr "increment"])])
    = JDict d'
    /\ dict_get "widgets_values" d' = Some (JList w')
    /\ length w' = length [JInt 2000000; JStr "Randomize"; JInt 2000000;
                           JStr "fixed"; JInt 7; JStr "increment"]
    /\ forall i x,
         [JInt 2000000; JStr "Randomize"; JInt 2000000;
          JStr "fixed"; JInt 7; JStr "increment"] !! i = Some x ->
         w' !! i = Some (if Convert.is_large_int x
                            && from_option Convert.is_control_word false
                                 ([JInt 2000000; JStr "Randomize";
                                   JInt 2000000; JStr "fixed"; JInt 7;
                                   JStr "increment"] !! S i)
                         then JInt 0
                         else Convert.normalize_workflow_seeds x).
Proof.
  apply (convert_widgets_item_by_item
           [("widgets_values",
             JList [JInt 2000000; JStr "Randomize"; JInt 2000000;
                    JStr "fixed"; JInt 7; JStr "increment"])]).
  reflexivity.
Defined.

(** ** Python equality after the converter's normalisation *)

Lemma item_eq_items_refl (l : list json) :
  (forall x, x ∈ l -> Convert.item_eq x x = true) ->
  (fix items (l m : list json) : bool :=
     match l, m with
     | [], [] => true
     | x :: l', y :: m' => Convert.item_eq x y && items l' m'
     | _, _ => false
     end) l l = true.
Proof.
  induction l as [|x l IH]; intros H; [reflexivity|].
  rewrite (H x) by left. apply IH. intros y Hy. apply H. by right.
Qed.

Lemma item_eq_refl_fuel (n : nat) (t : json) :
  depth t <= n -> distinct_keys t = true -> Convert.item_eq t t = true.
Proof.
  revert t. induction n as [|n IH]; intros t Hn Hw.
  { destruct t as [s| |]; simpl in Hn; try lia.
    apply bool_decide_eq_true. reflexivity. }
  destruct t as [s|l|d].
  - apply bool_decide_eq_true. reflexivity.
  - cbn [Convert.item_eq]. apply item_eq_items_refl. intros x Hx.
    apply IH; [by eapply depth_list_item|].
    cbn [distinct_keys] in Hw. rewrite forallb_forall in Hw.
    apply Hw. by apply list_elem_of_In.
  - cbn [Convert.item_eq]. rewrite Nat.eqb_refl. cbn [andb].
    cbn [distinct_keys] in Hw. apply andb_true_iff in Hw as [Hk Hv].
    apply bool_decide_eq_true in Hk. rewrite forallb_forall in Hv.
    apply forallb_forall. intros [k v] Hin.
    apply list_elem_of_In in Hin as Hin'.
    rewrite (dict_get_unique k v d Hk Hin').
    apply IH; [by eapply depth_dict_value|]. apply (Hv (k, v) Hin).
Qed.

Lemma item_eq_refl (t : json) :
  distinct_keys t = true -> Convert.item_eq t t = true.
Proof. apply (item_eq_refl_fuel (depth t)). lia. Qed.

Lemma distinct_keys_related (d' d : dict) :
  Forall2 (fun p q => p.1 = q.1
                      /\ (distinct_keys q.2 = true ->
                          distinct_keys p.2 = true)) d' d ->
  distinct_keys (JDict d) = true -> distinct_keys (JDict d') = true.
Proof.
  intros H. cbn [distinct_keys]. rewrite !andb_true_iff.
  intros [Hk Hv]. split.
  - apply bool_decide_eq_true in Hk. apply bool_decide_eq_true.
    replace (d'.*1) with (d.*1); [done|].
    clear Hk Hv. induction H as [|[k' v'] [k v] r' r [Hk _] _ IH]; [done|].
    rewrite !fmap_cons. simpl in Hk. by rewrite IH, Hk.
  - clear Hk. induction H as [|[k' v'] [k v] r' r [_ Hr] _ IH]; [done|].
    simpl in *. apply andb_true_iff in Hv as [Hv1 Hv2].
    by rewrite Hr, IH.
Qed.

Lemma convert_scan_distinct_keys (v : json) :
  distinct_keys v = true ->
  distinct_keys (guarded is_list Convert.scan_widgets v) = true.
Proof.
  destruct v as [s|w|d]; try done. unfold guarded. cbn [is_list].
  rewrite convert_scan_widgets_list. cbn [distinct_keys].
  induction w as [|x tl IH]; [done|]. simpl.
  rewrite !andb_true_iff. intros [Hx Htl]. split; [|by apply IH].
  unfold Convert.rewrite_widget.
  by destruct (Convert.is_large_int x
               && from_option Convert.is_control_word false (head tl)).
Qed.

Lemma convert_norm_distinct_keys (n : nat) (t : json) :
  distinct_keys t = true -> distinct_keys (Convert.norm n t) = true.
Proof.
  revert t. induction n as [|n IH]; intros t Hw; [done|].
  destruct t as [s|l|d]; [done| |].
  - rewrite convert_norm_list. cbn [distinct_keys] in *.
    rewrite forallb_forall in Hw. apply forallb_forall.
    intros y Hy. apply in_map_iff in Hy as (x & <- & Hx).
    apply IH, Hw, Hx.
  - rewrite convert_norm_dict. revert Hw. apply distinct_keys_related.
    apply (pass_related
             (fun a b => distinct_keys b = true -> distinct_keys a = true));
      [apply convert_norm_steps_distinct| |].
    + intros k v _. rewrite convert_visit_value_norm. apply IH.
    + intros k v g _ Hg Hv. rewrite convert_visit_value_norm. apply IH.
      destruct (convert_steps_get n k g Hg) as [-> | [-> | [-> | ->]]].
      * done.
      * done.
      * by apply convert_scan_distinct_keys.
      * by apply IH.
Qed.

Lemma dict_set_keys (k : string) (x : json) (d : dict) :
  (dict_set k x d).*1 = d.*1.
Proof.
  induction d as [|[k' v] r IH]; [done|]. cbn [dict_set].
  destruct (String.eqb k' k); [done|]. by rewrite !fmap_cons, IH.
Qed.

Lemma dict_set_distinct_keys (k : string) (x : json) (d : dict) :
  distinct_keys (JDict d) = true -> distinct_keys x = true ->
  distinct_keys (JDict (dict_set k x d)) = true.
Proof.
  cbn [distinct_keys]. rewrite dict_set_keys, !andb_true_iff.
  intros [Hk Hv] Hx. split; [done|]. clear Hk.
  induction d as [|[k' v] r IH]; [done|]. simpl in *.
  apply andb_true_iff in Hv as [Hv1 Hv2].
  destruct (String.eqb k' k); simpl.
  - by rewrite Hx, Hv2.
  - by rewrite Hv1, IH.
Qed.

Lemma dict_set_depth_scalar (k : string) (s : scalar) (x : json)
    (d : dict) :
  depth (JDict (dict_set k (JScalar s) d))
  <= depth (JDict (dict_set k x d)).
Proof.
  simpl. apply le_n_S.
  induction d as [|[k' v] r IH]; [done|]. simpl.
  destruct (String.eqb k' k); simpl; lia.
Qed.

(** A key whose keyed rewriting is a constant is bound to that constant
    whatever it was bound to. *)
Lemma convert_norm_dict_set (n : nat) (key : string) (s : scalar)
    (x : json) (d : dict) :
  steps_get key (Convert.norm_steps n) = Some (fun _ => JScalar s) ->
  Convert.norm (S n) (JDict (dict_set key x d))
  = Convert.norm (S n) (JDict (dict_set key (JScalar s) d)).
Proof.
  intros Hs. rewrite !convert_norm_dict.
  rewrite !pass_dict_set by apply convert_norm_steps_distinct.
  by rewrite Hs.
Qed.

Lemma convert_constant_keys (key : string) :
  in_strs key (Convert.seed_keys ++ Convert.control_keys) = true ->
  exists s, forall n, steps_get key (Convert.norm_steps n)
                      = Some (fun _ => JScalar s).
Proof.
  unfold in_strs, Convert.seed_keys, Convert.control_keys.
  cbn [app existsb]. rewrite !orb_true_iff.
  intros [H|[H|[H|H]]]; [..|discriminate];
    apply String.eqb_eq in H; subst key; eexists; reflexivity.
Qed.

(** X28: the converter takes two workflows for equal when they differ only
    in what one of the keys [seed], [noise_seed] and
    [control_after_generate] is bound to at the top, whatever these values
    are. *)
Theorem convert_seed_values_are_ignored (d : dict) (key : string)
    (a b : json) :
  distinct_keys (JDict d) = true ->
  in_strs key (Convert.seed_keys ++ Convert.control_keys) = true ->
  Convert.workflows_equal_ignore_seeds (JDict (dict_set key a d))
                                       (JDict (dict_set key b d)) = true.
Proof.
  intros Hw Hk. unfold Convert.workflows_equal_ignore_seeds.
  destruct (convert_constant_keys key Hk) as (s & Hs).
  assert (Hx : forall x,
             Convert.normalize_workflow_seeds (JDict (dict_set key x d))
             = Convert.normalize_workflow_seeds
                 (JDict (dict_set key (JScalar s) d))).
  { intros x. unfold Convert.normalize_workflow_seeds at 1.
    rewrite (convert_norm_dict_set _ key s) by apply Hs.
    apply convert_normalize_fuel.
    pose proof (dict_set_depth_scalar key s x d). lia. }
  rewrite (Hx a), (Hx b).
  assert (Hn : distinct_keys
                 (Convert.normalize_workflow_seeds
                    (JDict (dict_set key (JScalar s) d))) = true).
  { apply convert_norm_distinct_keys. by apply dict_set_distinct_keys. }
  revert Hn. unfold Convert.normalize_workflow_seeds.
  rewrite convert_norm_dict. intros Hn. by apply item_eq_refl.
Qed.

Lemma convert_seed_values_are_ignored_witness :
  Convert.workflows_equal_ignore_seeds
    (JDict (dict_set "seed" (JStr "a")
              [("seed", JInt 1); ("steps", JInt 20)]))
    (JDict (dict_set "seed" (JList [JInt 2])
              [("seed", JInt 1); ("steps", JInt 20)])) = true.
Proof.
  apply (convert_seed_values_are_ignored
           [("seed", JInt 1); ("steps", JInt 20)] "seed"
           (JStr "a") (JList [JInt 2])); reflexivity.
Defined.

(** ** Whether the workflow of a picture is written *)

Lemma last_sorted_max {A} (R : A -> A -> Prop) (l : list A) (x : A) :
  StronglySorted R l -> last l = Some x ->
  forall y, y ∈ l -> y = x \/ R y x.
Proof.
  induction l as [|a r IH]; intros Hs Hl y Hy; [by apply elem_of_nil in Hy|].
  apply StronglySorted_inv in Hs as [Hs Ha].
  destruct r as [|b r].
  - injection Hl as <-. apply list_elem_of_singleton in Hy. by left.
  - change (last (b :: r) = Some x) in Hl.
    apply elem_of_cons in Hy as [-> | Hy].
    + right. rewrite Forall_forall in Ha. apply Ha.
      by apply last_Some_elem_of.
    + by apply IH.
Qed.

Lemma string_leb_refl (a : string) : String.leb a a = true.
Proof. by destruct (String.leb_total a a). Qed.

Lemma elem_of_other_json_files (names : list string) (name f : string) :
  f ∈ Convert.other_json_files names name
  <-> f ∈ names /\ Convert.is_other_json name f = true.
Proof.
  unfold Convert.other_json_files.
  rewrite (sorted_names_perm _), list_elem_of_In, filter_In.
  by rewrite <- list_elem_of_In.
Qed.

(** X29: the workflow of a picture is left out as a duplicate in one case
    only: the directory holds another file whose name ends in [.json],
    the greatest of these names belongs to a file that can be read, and
    the converter takes its document and the workflow for equal.  The
    other JSON files of the directory are not looked at. *)
Theorem workflow_is_skipped_iff (names : list string) (json_filename : string)
    (load : string -> Convert.loaded) (can_write : bool)
    (workflow_obj : json) :
  Convert.save_workflow names json_filename load can_write workflow_obj
  = Convert.JsonSkipped
  <-> exists latest previous_workflow,
        latest ∈ names
        /\ Convert.is_other_json json_filename latest = true
        /\ (forall f, f ∈ names ->
                      Convert.is_other_json json_filename f = true ->
                      String.leb f latest = true)
        /\ load latest = Convert.Document previous_workflow
        /\ Convert.workflows_equal_ignore_seeds workflow_obj
             previous_workflow = true.
Proof.
  unfold Convert.save_workflow.
  pose proof (sorted_names_sorted
                (List.filter (Convert.is_other_json json_filename) names))
    as Hs.
  fold (Convert.other_json_files names json_filename) in Hs.
  split.
  - destruct (last (Convert.other_json_files names json_filename))
      as [latest|] eqn:El; [|by destruct can_write].
    destruct (load latest) as [previous| |] eqn:Eload;
      [|by destruct can_write|done].
    destruct (Convert.workflows_equal_ignore_seeds workflow_obj previous)
      eqn:Eq; [|by destruct can_write].
    intros _. exists latest, previous.
    apply last_Some_elem_of in El as Hin.
    apply elem_of_other_json_files in Hin as [Hin Ho].
    repeat split; try done.
    intros f Hf Hfo.
    destruct (last_sorted_max _ _ _ Hs El f) as [-> | H];
      [by apply elem_of_other_json_files|apply string_leb_refl|done].
  - intros (latest & previous & Hin & Ho & Hmax & Eload & Eq).
    assert (Hl : latest ∈ Convert.other_json_files names json_filename)
      by by apply elem_of_other_json_files.
    destruct (last (Convert.other_json_files names json_filename))
      as [x|] eqn:El.
    + assert (x = latest) as ->.
      { apply last_Some_elem_of in El as Hx.
        apply elem_of_other_json_files in Hx as [Hx Hxo].
        apply String.leb_antisym; [by apply Hmax|].
        destruct (last_sorted_max _ _ _ Hs El latest Hl) as [-> | H];
          [apply string_leb_refl|done]. }
      by rewrite Eload, Eq.
    + apply last_None in El. rewrite El in Hl. by apply elem_of_nil in Hl.
Qed.
